(** * tslinquery: the cursor protocol, the Take and AppendPrepend stages,
      the recurrence generator and the terminal operations of
      [IterableQueryBase], embedded in Rocq.

    Conventions of the embedding.

    - A JavaScript value is a [JsValue]; numbers are the integer-valued
      ones ([Z]) and [NaN], the one value that is not [===] to itself; a
      string is the sequence of its code units, each below 256; objects
      carry the reference that [===] compares.
    - The counts and indices of the stages are integers; [AnyCount] has the
      two [take] stages with a count that is any rational number.
    - Every object of the engine has readonly fields and mutable fields.
      Seen as an [Iterable<T>] only the readonly fields matter (that is all
      [clone()] reads): this view is a [Source].  Seen as an [Iterator<T>]
      the whole object matters: this is a [Cursor].  [stage] goes from the
      second view to the first.
    - A one-shot iterator handed in by the host ([map.entries()], ...) is
      shared by reference, so its state lives in a store, the [World];
      every other cursor is created by, and owned by, a single parent.
    - Callbacks (comparators, reducers, generator functions) are pure and
      total functions.
    - Loops over a cursor take fuel; running out of it is [OutOfFuel]. *)

From stdpp Require Import gmap strings list pretty.
From Stdlib Require Import ZArith QArith Lia Sorted.

Open Scope Z_scope.

(** ** Values *)

#[warnings="-register-all"]
Inductive JsValue : Type :=
| VUndefined
| VNull
| VBool (b : bool)
| VNum (n : Z)
| VNaN
| VStr (s : string)
| VObj (ref : nat) (fields : list (string * JsValue)).

(** [if (v)]: the falsy values are [undefined], [null], [false], [0],
    [NaN] and the empty string. *)
Definition truthy (v : JsValue) : bool :=
  match v with
  | VUndefined | VNull | VNaN => false
  | VBool b => b
  | VNum n => negb (n =? 0)
  | VStr s => negb (String.eqb s "")
  | VObj _ _ => true
  end.

(** [x === y]; [NaN] is [===] to nothing, itself included. *)
Definition strict_equals (x y : JsValue) : bool :=
  match x, y with
  | VUndefined, VUndefined | VNull, VNull => true
  | VBool a, VBool b => Bool.eqb a b
  | VNum a, VNum b => a =? b
  | VStr a, VStr b => String.eqb a b
  | VObj r _, VObj r' _ => Nat.eqb r r'
  | _, _ => false
  end.

(** SameValueZero, the equality of [includes] and of the keys of a [Map]:
    [===], but [NaN] is the same value as [NaN]. *)
Definition same_value_zero (x y : JsValue) : bool :=
  match x, y with
  | VNaN, VNaN => true
  | _, _ => strict_equals x y
  end.

(** [array[i]]: [undefined] out of range. *)
Definition js_index (array : list JsValue) (i : Z) : JsValue :=
  if i <? 0 then VUndefined else default VUndefined (array !! Z.to_nat i).

(** [Number.MAX_SAFE_INTEGER] *)
Definition MAX_SAFE_INTEGER : Z := 2 ^ 53 - 1.

(** ** The cursor protocol *)

Record IteratorResult : Type := mkResult { done : bool; value : JsValue }.

(** Modelled from the spec: the helpers [iteratorDone] and [iteratorResult]
    of [Iterables/IterableIterator.ts], which is not part of the sources at
    hand: "done" is a sentinel that carries no value, the other result
    carries the produced value. *)
Definition iteratorDone : IteratorResult := mkResult true VUndefined.
Definition iteratorResult (v : JsValue) : IteratorResult := mkResult false v.

(** ** Outcomes: a value, a thrown [Error], or a loop out of fuel *)

Inductive outcome (A : Type) : Type :=
| Ret (a : A)
| Throw (message : string)
| OutOfFuel.
Arguments Ret {A} a.
Arguments Throw {A} message.
Arguments OutOfFuel {A}.

Definition obind {A B} (m : outcome A) (k : A -> outcome B) : outcome B :=
  match m with
  | Ret a => k a
  | Throw e => Throw e
  | OutOfFuel => OutOfFuel
  end.

(** ** The store of one-shot host iterators *)

Record HostState : Type := mkHost { items : list JsValue; nextCalls : nat }.

Abbreviation World := (gmap nat HostState).

(** Computations that may pull from a cursor. *)
Definition M (A : Type) : Type := World -> outcome A * World.

Definition mret {A} (a : A) : M A := fun w => (Ret a, w).
Definition mthrow {A} (e : string) : M A := fun w => (Throw e, w).
Definition mbind {A B} (m : M A) (k : A -> M B) : M B :=
  fun w => match m w with
           | (Ret a, w') => k a w'
           | (Throw e, w') => (Throw e, w')
           | (OutOfFuel, w') => (OutOfFuel, w')
           end.
Definition lift {A} (o : outcome A) : M A := fun w => (o, w).

Declare Scope js_scope.
Delimit Scope js_scope with js.
Notation "'run' x <- m ; k" := (mbind m (fun x => k))
  (at level 10, x name, m at level 100, k at level 200) : js_scope.
Notation "'new' x <- m ; k" := (obind m (fun x => k))
  (at level 10, x name, m at level 100, k at level 200) : js_scope.
Open Scope js_scope.

(** ** Iterables and iterators *)

(** Iterator objects of the host. *)
Inductive HostIter : Type :=
| ArrayIterator (array : list JsValue) (index : nat)
| OneShot (id : nat).

(** [Iterable<T>]: what [[Symbol.iterator]()] can be asked of: an array, an
    iterator of the host, a handle, or an object of the engine seen through
    its readonly fields.

    Modelled from the spec: the two handles, whose classes [IterableQuery]
    and [IterableArrayQuery] are not part of the sources at hand: a handle
    "wraps exactly one Sequence (generic) or one concrete array". *)
Inductive Source : Type :=
| SArray (array : list JsValue)
| SHost (h : HostIter)
| SIterableQuery (iterable : Source)
| SIterableArrayQuery (array : list JsValue)
| SGenerator (length : Z) (generator : Z -> JsValue -> JsValue) (seed : JsValue)
| STake (source : Source) (count : Z)
| STakeArray (source : list JsValue) (count : Z)
| SAppendPrepend (source : Source) (item : JsValue) (append : bool)
| SAppendPrependArray (source : list JsValue) (item : JsValue) (append : bool).

(** [Iterator<T>]: what [next()] can be asked of; the engine's objects with
    all their fields, in the order of the class declarations. *)
Inductive Cursor : Type :=
| Host (h : HostIter)
| IterableGenerator (generator : Z -> JsValue -> JsValue) (seed : JsValue)
    (length index : Z) (prev : JsValue)
| TakeIterable (source : Source) (iterator : Cursor) (count index : Z)
| TakeArrayIterable (source : list JsValue) (count index : Z)
| AppendPrependIterable (source : Source) (iterator : Cursor)
    (append : bool) (item : JsValue) (hasItem : bool)
| AppendPrependArrayIterable (source : list JsValue)
    (append : bool) (item : JsValue) (hasItem : bool) (index : Z).

(** The object as an [Iterable<T>]: its readonly fields. *)
Definition stage (o : Cursor) : Source :=
  match o with
  | Host h => SHost h
  | IterableGenerator generator seed length _ _ => SGenerator length generator seed
  | TakeIterable source _ count _ => STake source count
  | TakeArrayIterable source count _ => STakeArray source count
  | AppendPrependIterable source _ append item _ => SAppendPrepend source item append
  | AppendPrependArrayIterable source append item _ _ =>
      SAppendPrependArray source item append
  end.

(** *** Constructors *)

(** [IterableGenerator.constructor] *)
Definition new_IterableGenerator (length : Z)
    (generator : Z -> JsValue -> JsValue) (seed : JsValue) : outcome Cursor :=
  if length <? 0 then Throw "length cannot be 0"
  else Ret (IterableGenerator generator seed length 0 seed).

(** [TakeIterable.constructor]; [fresh] is [iterable[Symbol.iterator]()],
    which is evaluated after the check of [count]. *)
Definition new_TakeIterable_from (fresh : outcome Cursor)
    (iterable : Source) (count : Z) : outcome Cursor :=
  if count <? 0 then Throw ("Invalid argument: " +:+ pretty count)
  else new iterator <- fresh; Ret (TakeIterable iterable iterator count 0).

(** [TakeArrayIterable.constructor] *)
Definition new_TakeArrayIterable (array : list JsValue) (count : Z)
  : outcome Cursor :=
  if count <? 0 then Throw ("Invalid argument: " +:+ pretty count)
  else Ret (TakeArrayIterable array count 0).

(** [AppendPrependIterable.constructor] *)
Definition new_AppendPrependIterable_from (fresh : outcome Cursor)
    (iterable : Source) (item : JsValue) (append : bool) : outcome Cursor :=
  new iterator <- fresh; Ret (AppendPrependIterable iterable iterator append item true).

(** [AppendPrependArrayIterable.constructor] *)
Definition new_AppendPrependArrayIterable (array : list JsValue)
    (item : JsValue) (append : bool) : outcome Cursor :=
  Ret (AppendPrependArrayIterable array append item true 0).

(** Modelled from the spec: [[Symbol.iterator]()] of the base class
    [IterableIterator] ([Iterables/IterableIterator.ts]) and of the two
    handles [IterableQuery] and [IterableArrayQuery], none of which is part
    of the sources at hand: "each request for a new cursor creates one from
    scratch referencing the original upstream Sequence", so a stage hands
    out [this.clone()], and a handle asks the sequence, respectively the
    array, it wraps.

    The rest is as the sources have it: [clone()] of the four stages calls
    the constructor on the readonly fields, [[Symbol.iterator]()] of
    [IterableGenerator] builds a new generator from [length], [generator]
    and [seed]; an array hands out a new array iterator and an iterator of
    the host hands out itself. *)
Fixpoint sym_iterator (this : Source) : outcome Cursor :=
  match this with
  | SArray array => Ret (Host (ArrayIterator array 0))
  | SHost h => Ret (Host h)
  | SIterableQuery iterable => sym_iterator iterable
  | SIterableArrayQuery array => Ret (Host (ArrayIterator array 0))
  | SGenerator length generator seed => new_IterableGenerator length generator seed
  | STake source count => new_TakeIterable_from (sym_iterator source) source count
  | STakeArray source count => new_TakeArrayIterable source count
  | SAppendPrepend source item append =>
      new_AppendPrependIterable_from (sym_iterator source) source item append
  | SAppendPrependArray source item append =>
      new_AppendPrependArrayIterable source item append
  end.

Definition new_TakeIterable (iterable : Source) (count : Z) : outcome Cursor :=
  new_TakeIterable_from (sym_iterator iterable) iterable count.

Definition new_AppendPrependIterable (iterable : Source) (item : JsValue)
    (append : bool) : outcome Cursor :=
  new_AppendPrependIterable_from (sym_iterator iterable) iterable item append.

(** [o[Symbol.iterator]()] on an iterator object: [clone()] for a stage, a
    new generator for [IterableGenerator], the object itself for an iterator
    of the host. *)
Definition clone (o : Cursor) : outcome Cursor := sym_iterator (stage o).

(** *** [next()] *)

(** [next()] of a host iterator.  An array iterator steps through its
    array; a one-shot iterator is looked up in the store, which records
    what it has left and how often it was asked. *)
Definition host_next (h : HostIter) (w : World)
  : IteratorResult * HostIter * World :=
  match h with
  | ArrayIterator array index =>
      match array !! index with
      | Some v => (iteratorResult v, ArrayIterator array (S index), w)
      | None => (iteratorDone, ArrayIterator array index, w)
      end
  | OneShot id =>
      match w !! id with
      | Some st =>
          match items st with
          | v :: rest =>
              (iteratorResult v, OneShot id, <[id := mkHost rest (S (nextCalls st))]> w)
          | [] => (iteratorDone, OneShot id, <[id := mkHost [] (S (nextCalls st))]> w)
          end
      | None => (iteratorDone, OneShot id, w)
      end
  end.

(** [next()]: [getNext()] of the stages, [next()] of [IterableGenerator]. *)
Fixpoint next (o : Cursor) (w : World) : IteratorResult * Cursor * World :=
  match o with
  | Host h => let '(r, h', w') := host_next h w in (r, Host h', w')
  | IterableGenerator generator seed length index prev =>
      if index <? length then
        let next := generator index prev in
        (iteratorResult next,
         IterableGenerator generator seed length (index + 1) next, w)
      else (iteratorDone, o, w)
  | TakeIterable source iterator count index =>
      if index =? count then (iteratorDone, o, w)
      else
        let '(r, iterator', w') := next iterator w in
        (r, TakeIterable source iterator' count (index + 1), w')
  | TakeArrayIterable source count index =>
      if (index <? count) && (index <? Z.of_nat (length source)) then
        (iteratorResult (js_index source index),
         TakeArrayIterable source count (index + 1), w)
      else (iteratorDone, o, w)
  | AppendPrependIterable source iterator append item hasItem =>
      if append then
        let '(next, iterator', w') := next iterator w in
        if done next && hasItem then
          (iteratorResult item,
           AppendPrependIterable source iterator' append item false, w')
        else (next, AppendPrependIterable source iterator' append item hasItem, w')
      else if hasItem then
        (iteratorResult item,
         AppendPrependIterable source iterator append item false, w)
      else
        let '(r, iterator', w') := next iterator w in
        (r, AppendPrependIterable source iterator' append item hasItem, w')
  | AppendPrependArrayIterable source append item hasItem index =>
      if negb hasItem && (index =? Z.of_nat (length source)) then
        (iteratorDone, o, w)
      else if append then
        if hasItem && (index =? Z.of_nat (length source)) then
          (iteratorResult item,
           AppendPrependArrayIterable source append item false index, w)
        else
          (iteratorResult (js_index source index),
           AppendPrependArrayIterable source append item hasItem (index + 1), w)
      else if hasItem then
        (iteratorResult item,
         AppendPrependArrayIterable source append item false index, w)
      else
        (iteratorResult (js_index source index),
         AppendPrependArrayIterable source append item hasItem (index + 1), w)
  end.

(** ** [take] with a count that is any number

    [take] and the constructors of its two stages accept every number that
    is not negative, integer or not.  The cursors above carry integer
    counts; here are [TakeIterable] over an array and [TakeArrayIterable]
    with a count that is any rational number (every double is one).  The
    index stays an integer: it starts at 0 and goes up by 1. *)
Module AnyCount.

Record TakeIterable : Type :=
  mkTakeIterable {
    source : list JsValue;
    iterator : HostIter;
    count : Q;
    index : Z }.

Record TakeArrayIterable : Type :=
  mkTakeArrayIterable {
    array_source : list JsValue;
    array_count : Q;
    array_index : Z }.

(** [count < 0], [index === count] and [index < count] *)
Definition negative (count : Q) : bool := negb (Qle_bool 0 count).
Definition reached (index : Z) (count : Q) : bool :=
  Qeq_bool (inject_Z index) count.
Definition below (index : Z) (count : Q) : bool :=
  negb (Qle_bool count (inject_Z index)).

(** [TakeIterable.constructor] over an array; [None] stands for the error
    it throws. *)
Definition new_TakeIterable (iterable : list JsValue) (count : Q)
  : option TakeIterable :=
  if negative count then None
  else Some (mkTakeIterable iterable (ArrayIterator iterable 0) count 0).

(** [TakeArrayIterable.constructor] *)
Definition new_TakeArrayIterable (array : list JsValue) (count : Q)
  : option TakeArrayIterable :=
  if negative count then None
  else Some (mkTakeArrayIterable array count 0).

(** [TakeIterable.getNext] *)
Definition getNext (o : TakeIterable) (w : World)
  : IteratorResult * TakeIterable * World :=
  if reached (index o) (count o) then (iteratorDone, o, w)
  else
    let '(r, iterator', w') := host_next (iterator o) w in
    (r, mkTakeIterable (source o) iterator' (count o) (index o + 1), w').

(** [TakeArrayIterable.getNext] *)
Definition getNext_array (o : TakeArrayIterable) (w : World)
  : IteratorResult * TakeArrayIterable * World :=
  if below (array_index o) (array_count o)
     && (array_index o <? Z.of_nat (length (array_source o)))
  then
    (iteratorResult (js_index (array_source o) (array_index o)),
     mkTakeArrayIterable (array_source o) (array_count o) (array_index o + 1),
     w)
  else (iteratorDone, o, w).

(** The elements a cursor yields until it is done. *)
Fixpoint yields {C} (next : C -> World -> IteratorResult * C * World)
    (fuel : nat) (o : C) (w : World) : option (list JsValue) :=
  match fuel with
  | O => None
  | S fuel =>
      let '(r, o', w') := next o w in
      if done r then Some []
      else cons (value r) <$> yields next fuel o' w'
  end.

End AnyCount.

(** ** [for (const e of iterable) { body }] *)

(** What one turn of a loop body does: go on with the updated local
    variables, or [return] from the enclosing method. *)
Inductive Flow (A R : Type) : Type :=
| Continue (acc : A)
| Return (r : R).
Arguments Continue {A R} acc.
Arguments Return {A R} r.

(** The loop of [for ... of], on the cursor it obtained: [next()] until a
    result is [done].  The host iterators and the engine's cursors have no
    [return()] method, so leaving the loop early calls nothing. *)
Fixpoint for_of_loop {A R} (fuel : nat) (iterator : Cursor)
    (body : A -> JsValue -> Flow A R) (acc : A) : M (Flow A R) :=
  fun w =>
    match fuel with
    | O => (OutOfFuel, w)
    | S fuel =>
        let '(r, iterator', w') := next iterator w in
        if done r then (Ret (Continue acc), w')
        else
          match body acc (value r) with
          | Continue acc' => for_of_loop fuel iterator' body acc' w'
          | Return x => (Ret (Return x), w')
          end
    end.

Definition for_of {A R} (fuel : nat) (iterable : Source)
    (body : A -> JsValue -> Flow A R) (acc : A) : M (Flow A R) :=
  run iterator <- lift (sym_iterator iterable);
  for_of_loop fuel iterator body acc.

(** A loop whose body never returns ends with its local variables. *)
Definition completed {A} (r : Flow A Empty_set) : A :=
  match r with
  | Continue acc => acc
  | Return x => match x with end
  end.

(** The result of a method whose loop returns a value of the type of its
    local variable. *)
Definition result_of {A} (r : Flow A A) : A :=
  match r with
  | Continue acc => acc
  | Return x => x
  end.

(** ** Comparators *)

(** Modelled from the spec: [Ordering] of [Compare.ts], which is not part of
    the sources at hand: "a three-valued result {Less, Equal, Greater}
    produced by a comparator of two elements". *)
Inductive Ordering : Type := Less | Equal | Greater.

Definition Ordering_eqb (x y : Ordering) : bool :=
  match x, y with
  | Less, Less | Equal, Equal | Greater, Greater => true
  | _, _ => false
  end.

(** Modelled from the spec: [Ordering.value] of [Compare.ts], which is not
    part of the sources at hand: the signed integer a host sort expects of
    the three-valued result. *)
Definition Ordering_value (o : Ordering) : Z :=
  match o with
  | Less => -1
  | Equal => 0
  | Greater => 1
  end.

(** Modelled from the spec: the type [Compare<T>] of [Compare.ts], "a
    two-argument function returning one of {Less, Equal, Greater}". *)
Definition Compare : Type := JsValue -> JsValue -> Ordering.

Definition of_comparison (c : comparison) : Ordering :=
  match c with
  | Lt => Less
  | Eq => Equal
  | Gt => Greater
  end.

(** Modelled from the spec: the three-way ordering primitive [compare] of
    [Compare.ts] (imported as [compareNatural]), which is not part of the
    sources at hand: natural ordering, numbers by magnitude and strings by
    code units; the call sites allow for [undefined] as a result
    ([compareNatural(left, right)?.value ?? 0]), which is what values
    without a natural order get here. *)
Definition compareNatural (x y : JsValue) : option Ordering :=
  match x, y with
  | VNum a, VNum b => Some (of_comparison (a ?= b))
  | VStr a, VStr b => Some (of_comparison (String.compare a b))
  | _, _ => None
  end.

(** Modelled from the spec: [compareReverse] of [Compare.ts], the reverse of
    the three-way ordering primitive. *)
Definition compareReverse (x y : JsValue) : option Ordering := compareNatural y x.

(** [compare ?? compareNatural], and the test [c === Ordering.Less]. *)
Definition or_natural (compare : option Compare)
  : JsValue -> JsValue -> option Ordering :=
  match compare with
  | Some c => fun x y => Some (c x y)
  | None => compareNatural
  end.

Definition is_ordering (expected : Ordering) (c : option Ordering) : bool :=
  match c with
  | Some o => Ordering_eqb o expected
  | None => false
  end.

(** ** The host's [Array.prototype.sort] *)

(** [ToString] on the values of the embedding.  A number is printed as its
    decimal digits, which is its string form below [10^21] in magnitude (from
    there on JavaScript prints an exponent). *)
Definition ToString (v : JsValue) : string :=
  match v with
  | VUndefined => "undefined"
  | VNull => "null"
  | VBool true => "true"
  | VBool false => "false"
  | VNum n => pretty n
  | VNaN => "NaN"
  | VStr s => s
  | VObj _ _ => "[object Object]"
  end.

(** [SortCompare(x, y)] of ECMAScript: [undefined] goes last, then the
    comparison function decides, and without one the order of the string
    forms does. *)
Definition SortCompare (comparefn : option (JsValue -> JsValue -> Z))
    (x y : JsValue) : Z :=
  match x, y with
  | VUndefined, VUndefined => 0
  | VUndefined, _ => 1
  | _, VUndefined => -1
  | _, _ =>
      match comparefn with
      | Some f => f x y
      | None =>
          match String.compare (ToString x) (ToString y) with
          | Lt => -1
          | Eq => 0
          | Gt => 1
          end
      end
  end.

(** A stable sort, as ECMAScript 2019 requires of [sort]: each element is
    inserted behind the elements that do not compare greater than it.
    ECMAScript determines the sorted array when the comparison is a
    consistent comparison function (as the comparison of the string forms
    is); with any other the order is up to the implementation, and this is
    one such order. *)
Fixpoint sort_insert (comparefn : option (JsValue -> JsValue -> Z))
    (x : JsValue) (sorted : list JsValue) : list JsValue :=
  match sorted with
  | [] => [x]
  | y :: rest =>
      if SortCompare comparefn y x >? 0 then x :: y :: rest
      else y :: sort_insert comparefn x rest
  end.

Fixpoint Array_sort_from (comparefn : option (JsValue -> JsValue -> Z))
    (sorted array : list JsValue) : list JsValue :=
  match array with
  | [] => sorted
  | x :: rest => Array_sort_from comparefn (sort_insert comparefn x sorted) rest
  end.

Definition Array_sort (comparefn : option (JsValue -> JsValue -> Z))
    (array : list JsValue) : list JsValue :=
  Array_sort_from comparefn [] array.

(** [x ?? y] *)
Definition nullish_or {A} (x : option A) (y : A) : A := default y x.

(** ** More of the host: [includes], [??], [Map], loops that call methods *)

(** [array.includes(e)]: some element is the same value as [e]
    (SameValueZero). *)
Definition includes (array : list JsValue) (e : JsValue) : bool :=
  existsb (fun x => same_value_zero x e) array.

(** [v ?? d] on values: [d] when [v] is [undefined] or [null]. *)
Definition js_nullish_or (v d : JsValue) : JsValue :=
  match v with
  | VUndefined | VNull => d
  | _ => v
  end.

(** A [Map<K, V>]: its entries in insertion order; keys are looked up by
    SameValueZero. *)
Definition JsMap (V : Type) : Type := list (JsValue * V).

(** [map.get(key)] *)
Fixpoint Map_get {V} (key : JsValue) (map : JsMap V) : option V :=
  match map with
  | [] => None
  | (k, v) :: rest => if same_value_zero k key then Some v else Map_get key rest
  end.

(** [map.set(key, v)]: an entry that exists keeps its place. *)
Fixpoint Map_set {V} (key : JsValue) (v : V) (map : JsMap V) : JsMap V :=
  match map with
  | [] => [(key, v)]
  | (k, v0) :: rest =>
      if same_value_zero k key then (k, v) :: rest
      else (k, v0) :: Map_set key v rest
  end.

(** [values.push(e)] on the array the map holds under [key]: the map and the
    variable [values] refer to one array. *)
Fixpoint Map_push (key e : JsValue) (map : JsMap (list JsValue))
  : JsMap (list JsValue) :=
  match map with
  | [] => []
  | (k, values) :: rest =>
      if same_value_zero k key then (k, values ++ [e]) :: rest
      else (k, values) :: Map_push key e rest
  end.

(** *** Sums and products of numbers

    Numbers are IEEE doubles.  Starting from integers, [+] and [*] give the
    exact integer as long as it is at most [2^53] in magnitude; beyond, the
    nearest double, which is again an integer, or an infinity; and from
    infinities, [NaN]. *)
Inductive JsNumber : Type :=
| Finite (n : Z)
| Infinite (negative : bool)
| NotANumber.

(** The double nearest to the integer [z], ties to the even significand.
    Up to [2^53] every integer is a double; beyond, a double has 53
    significant bits; what rounds to [2^1024] or more is an infinity. *)
Definition round_double (z : Z) : JsNumber :=
  let a := Z.abs z in
  if a <=? 2 ^ 53 then Finite z
  else
    let e := Z.log2 a - 52 in
    let q := a / 2 ^ e in
    let r := a mod 2 ^ e in
    let half := 2 ^ (e - 1) in
    let q := if (r <? half) || ((r =? half) && Z.even q) then q else q + 1 in
    let m := q * 2 ^ e in
    if 2 ^ 1024 <=? m then Infinite (z <? 0) else Finite (Z.sgn z * m).

(** [x + y] *)
Definition number_plus (x y : JsNumber) : JsNumber :=
  match x, y with
  | Finite a, Finite b => round_double (a + b)
  | NotANumber, _ | _, NotANumber => NotANumber
  | Infinite s, Infinite s' => if Bool.eqb s s' then Infinite s else NotANumber
  | Infinite s, Finite _ | Finite _, Infinite s => Infinite s
  end.

(** [x * y] *)
Definition number_times (x y : JsNumber) : JsNumber :=
  match x, y with
  | Finite a, Finite b => round_double (a * b)
  | NotANumber, _ | _, NotANumber => NotANumber
  | Infinite s, Infinite s' => Infinite (xorb s s')
  | Infinite s, Finite b | Finite b, Infinite s =>
      if b =? 0 then NotANumber else Infinite (xorb s (b <? 0))
  end.

(** [if (total)] on a [number | undefined]: [undefined], [0] and [NaN] are
    falsy. *)
Definition truthy_total (total : option JsNumber) : bool :=
  match total with
  | Some (Finite n) => negb (n =? 0)
  | Some (Infinite _) => true
  | Some NotANumber | None => false
  end.

(** [for ... of] with a body that calls methods of the engine. *)
Fixpoint for_of_loop_M {A R} (fuel : nat) (iterator : Cursor)
    (body : A -> JsValue -> M (Flow A R)) (acc : A) : M (Flow A R) :=
  fun w =>
    match fuel with
    | O => (OutOfFuel, w)
    | S fuel =>
        let '(r, iterator', w') := next iterator w in
        if done r then (Ret (Continue acc), w')
        else
          match body acc (value r) w' with
          | (Ret (Continue acc'), w'') =>
              for_of_loop_M fuel iterator' body acc' w''
          | (Ret (Return x), w'') => (Ret (Return x), w'')
          | (Throw e, w'') => (Throw e, w'')
          | (OutOfFuel, w'') => (OutOfFuel, w'')
          end
    end.

Definition for_of_M {A R} (fuel : nat) (iterable : Source)
    (body : A -> JsValue -> M (Flow A R)) (acc : A) : M (Flow A R) :=
  run iterator <- lift (sym_iterator iterable);
  for_of_loop_M fuel iterator body acc.

(** [Query.empty()] *)
Definition Query_empty : Source := SIterableArrayQuery [].

(** ** [IterableQueryBase]: the facade *)

(** What a chain method hands back: the receiver itself ([return this]) or
    an object it has just built. *)
Inductive Returned : Type :=
| This
| New (o : Source).

Module IterableQueryBase.

Definition overflow : string :=
  "size of the iterable is greater than the max safe interger value".

(** *** Chain methods *)

(** [take(n)] *)
Definition take (this : Source) (n : Z) : outcome Returned :=
  new iterable <- new_TakeIterable this n;
  Ret (New (SIterableQuery (stage iterable))).

(** [append(value)] *)
Definition append (this : Source) (v : JsValue) : outcome Returned :=
  new iterable <- new_AppendPrependIterable this v true;
  Ret (New (SIterableQuery (stage iterable))).

(** [prepend(value)] *)
Definition prepend (this : Source) (v : JsValue) : outcome Returned :=
  new iterable <- new_AppendPrependIterable this v false;
  Ret (New (SIterableQuery (stage iterable))).

(** *** Terminal methods *)

(** [isEmpty()] *)
Definition isEmpty (fuel : nat) (this : Source) : M bool :=
  run r <- for_of fuel this (fun (_ : unit) _ => Return false) tt;
  mret (match r with
        | Return b => b
        | Continue _ => true
        end).

(** [toArray()], that is [Array.from(this)]. *)
Definition toArray (fuel : nat) (this : Source) : M (list JsValue) :=
  run r <- for_of fuel this (fun array e => Continue (array ++ [e])) [];
  mret (completed r).

(** [defaultIfEmpty(defaultValue)]; [isArray] is [Array.isArray]. *)
Definition isArray (s : Source) : option (list JsValue) :=
  match s with
  | SArray array => Some array
  | _ => None
  end.

Definition defaultIfEmpty (fuel : nat) (this defaultValue : Source)
  : M Returned :=
  run empty <- isEmpty fuel this;
  if empty then
    match isArray defaultValue with
    | Some array => mret (New (SIterableArrayQuery array))
    | None => mret (New (SIterableQuery defaultValue))
    end
  else mret This.

(** [reduce(reducer)]; the [while (true)] loop pulls from the cursor the
    first [next()] came from until a result is [done], which is the loop
    of [for ... of] on that cursor. *)
Definition reduce (fuel : nat) (this : Source)
    (reducer : JsValue -> JsValue -> JsValue) : M JsValue :=
  run iterator <- lift (sym_iterator this);
  fun w =>
    let '(first, iterator, w) := next iterator w in
    let result := value first in
    if truthy result then
      (run r <- for_of_loop fuel iterator
                  (fun result e => Continue (reducer result e)) result;
       mret (completed r)) w
    else (Ret result, w).

(** [fold(initialValue, combine)] *)
Definition fold {TResult} (fuel : nat) (this : Source) (initialValue : TResult)
    (combine : TResult -> JsValue -> TResult) : M TResult :=
  run empty <- isEmpty fuel this;
  if empty then mret initialValue
  else
    run r <- for_of fuel this (fun result e => Continue (combine result e))
               initialValue;
    mret (completed r).

(** [min(compare?)] *)
Definition min (fuel : nat) (this : Source) (compare : option Compare)
  : M JsValue :=
  let compare := or_natural compare in
  run r <- for_of fuel this
             (fun value e =>
                if truthy value then
                  if is_ordering Less (compare e value) then Continue e
                  else Continue value
                else Continue e)
             VUndefined;
  mret (completed r).

(** [max(compare?)] *)
Definition max (fuel : nat) (this : Source) (compare : option Compare)
  : M JsValue :=
  let compare := or_natural compare in
  run r <- for_of fuel this
             (fun value e =>
                if truthy value then
                  if is_ordering Greater (compare e value) then Continue e
                  else Continue value
                else Continue e)
             VUndefined;
  mret (completed r).

(** [indexOf(value)] *)
Definition indexOf (fuel : nat) (this : Source) (v : JsValue) : M JsValue :=
  run empty <- isEmpty fuel this;
  if empty then mret VUndefined
  else
    run r <- for_of fuel this
               (fun index e =>
                  if strict_equals e v then Return index
                  else Continue (index + 1))
               0;
    mret (VNum (result_of r)).

(** [findIndex(predicate)] *)
Definition findIndex (fuel : nat) (this : Source)
    (predicate : JsValue -> bool) : M JsValue :=
  run empty <- isEmpty fuel this;
  if empty then mret VUndefined
  else
    run r <- for_of fuel this
               (fun index e =>
                  if predicate e then Return index
                  else Continue (index + 1))
               0;
    mret (VNum (result_of r)).

(** [single(predicate?)] *)
Definition single (fuel : nat) (this : Source)
    (predicate : option (JsValue -> bool)) : M JsValue :=
  match predicate with
  | Some predicate =>
      run r <- for_of fuel this
                 (fun result e =>
                    if predicate e then
                      if negb (truthy result) then Continue e
                      else Return VUndefined
                    else Continue result)
                 VUndefined;
      mret (result_of r)
  | None =>
      run r <- for_of fuel this
                 (fun result e =>
                    if negb (truthy result) then Continue e
                    else Return VUndefined)
                 VUndefined;
      mret (result_of r)
  end.

(** The loop of [count()]: [while (!iterator.next().done)]. *)
Fixpoint count_loop (fuel : nat) (iterator : Cursor) (count : Z) : M Z :=
  fun w =>
    match fuel with
    | O => (OutOfFuel, w)
    | S fuel =>
        let '(r, iterator', w') := next iterator w in
        if negb (done r) then
          let count := count + 1 in
          if count >? MAX_SAFE_INTEGER then (Throw overflow, w')
          else count_loop fuel iterator' count w'
        else (Ret count, w')
    end.

(** [count()] past the test for a sized iterable. *)
Definition count_traverse (fuel : nat) (this : Source) : M Z :=
  run iterator <- lift (sym_iterator this);
  count_loop fuel iterator 0.

(** [getSizedIterableCount(iter)].  [isSizedIterable] asks for a property
    [count] that is a function: the handles have the method; [count] of
    [TakeIterable] and [TakeArrayIterable] is a number, and the other
    iterables have no such property.  A handle is an [IterableQuery], which
    is unwrapped, or the array-backed one, whose [count()] does not pass
    the [instanceof IterableQuery] test and traverses. *)
Fixpoint getSizedIterableCount (fuel : nat) (iter : Source) : M (option Z) :=
  match iter with
  | SIterableQuery iterable => getSizedIterableCount fuel iterable
  | SIterableArrayQuery _ =>
      run n <- count_traverse fuel iter; mret (Some n)
  | _ => mret None
  end.

Definition instanceof_IterableQuery (s : Source) : bool :=
  match s with
  | SIterableQuery _ => true
  | _ => false
  end.

(** [if (thisCount)] on [number | undefined]. *)
Definition truthy_count (c : option Z) : bool :=
  match c with
  | Some n => negb (n =? 0)
  | None => false
  end.

(** [count(predicate?)] *)
Definition count (fuel : nat) (this : Source)
    (predicate : option (JsValue -> bool)) : M Z :=
  match predicate with
  | Some predicate =>
      run r <- for_of fuel this
                 (fun count e =>
                    let count := if predicate e then count + 1 else count in
                    if count >? MAX_SAFE_INTEGER then Return overflow
                    else Continue count)
                 0;
      match r with
      | Continue count => mret count
      | Return e => mthrow e
      end
  | None =>
      if instanceof_IterableQuery this then
        run thisCount <- getSizedIterableCount fuel this;
        if truthy_count thisCount then mret (default 0 thisCount)
        else count_traverse fuel this
      else count_traverse fuel this
  end.

(** [sort(compare?)] *)
Definition sort (fuel : nat) (this : Source) (compare : option Compare)
  : M Returned :=
  run array <- toArray fuel this;
  match compare with
  | Some compare =>
      let sorted :=
        Array_sort (Some (fun x y => Ordering_value (compare x y))) array in
      mret (New (SIterableArrayQuery sorted))
  | None => mret (New (SIterableArrayQuery (Array_sort None array)))
  end.

(** [sortDecending(compare?)] *)
Definition sortDecending (fuel : nat) (this : Source)
    (compare : option Compare) : M Returned :=
  run array <- toArray fuel this;
  match compare with
  | Some compare =>
      let sorted :=
        Array_sort (Some (fun x y => Ordering_value (compare y x))) array in
      mret (New (SIterableArrayQuery sorted))
  | None =>
      mret (New (SIterableArrayQuery
                   (Array_sort
                      (Some (fun x y =>
                               nullish_or (Ordering_value <$> compareReverse x y) 0))
                      array)))
  end.

(** [sortBy(keySelector, compare?)] *)
Definition sortBy (fuel : nat) (this : Source)
    (keySelector : JsValue -> JsValue) (compare : option Compare)
  : M Returned :=
  run array <- toArray fuel this;
  let sorted :=
    match compare with
    | Some compare =>
        Array_sort
          (Some (fun x y =>
                   let left := keySelector x in
                   let right := keySelector y in
                   Ordering_value (compare left right)))
          array
    | None =>
        Array_sort
          (Some (fun x y =>
                   let left := keySelector x in
                   let right := keySelector y in
                   nullish_or (Ordering_value <$> compareNatural left right) 0))
          array
    end in
  mret (New (SIterableArrayQuery sorted)).

(** *** More methods *)

(** [sortByDecending(keySelector, compare?)] *)
Definition sortByDecending (fuel : nat) (this : Source)
    (keySelector : JsValue -> JsValue) (compare : option Compare)
  : M Returned :=
  run array <- toArray fuel this;
  let sorted :=
    match compare with
    | Some compare =>
        Array_sort
          (Some (fun x y =>
                   let left := keySelector x in
                   let right := keySelector y in
                   Ordering_value (compare right left)))
          array
    | None =>
        Array_sort
          (Some (fun x y =>
                   let left := keySelector x in
                   let right := keySelector y in
                   nullish_or (Ordering_value <$> compareReverse left right) 0))
          array
    end in
  mret (New (SIterableArrayQuery sorted)).

(** [takeLast(count)] *)
Definition takeLast (fuel : nat) (this : Source) (count : Z) : M Returned :=
  if count <? 0 then mthrow ("count cannot be negative: " +:+ pretty count)
  else if count =? 0 then mret (New Query_empty)
  else
    run r <- for_of fuel this
               (fun array e =>
                  if Z.of_nat (length array) <? count then Continue (array ++ [e])
                  else Continue (tail array ++ [e]))
               [];
    mret (New (SIterableArrayQuery (completed r))).

(** [distinct()] *)
Definition distinct (fuel : nat) (this : Source) : M Returned :=
  run r <- for_of fuel this
             (fun array e =>
                if negb (includes array e) then Continue (array ++ [e])
                else Continue array)
             [];
  mret (New (SIterableArrayQuery (completed r))).

(** [distinctBy(keySelector)] *)
Definition distinctBy (fuel : nat) (this : Source)
    (keySelector : JsValue -> JsValue) : M Returned :=
  run r <- for_of fuel this
             (fun array e =>
                if Z.of_nat (length array) =? 0 then Continue (array ++ [e])
                else
                  let exists_ :=
                    existsb
                      (fun current =>
                         let x := keySelector e in
                         let y := keySelector current in
                         strict_equals x y)
                      array in
                  if negb exists_ then Continue (array ++ [e])
                  else Continue array)
             [];
  mret (New (SIterableArrayQuery (completed r))).

(** [union(elements)] *)
Definition union (fuel : nat) (this elements : Source) : M Returned :=
  run array <- toArray fuel this;
  run r <- for_of fuel elements
             (fun array e =>
                if negb (includes array e) then Continue (array ++ [e])
                else Continue array)
             array;
  mret (New (SIterableArrayQuery (completed r))).

(** [except(elements)] *)
Definition except (fuel : nat) (this elements : Source) : M Returned :=
  run other <- toArray fuel elements;
  run r <- for_of fuel this
             (fun array e =>
                if negb (includes other e) then Continue (array ++ [e])
                else Continue array)
             [];
  mret (New (SIterableArrayQuery (completed r))).

(** [intersect(elements)] *)
Definition intersect (fuel : nat) (this elements : Source) : M Returned :=
  run other <- toArray fuel elements;
  run r <- for_of fuel this
             (fun array e =>
                if includes other e then Continue (array ++ [e])
                else Continue array)
             [];
  mret (New (SIterableArrayQuery (completed r))).

(** [reversed()] *)
Definition reversed (fuel : nat) (this : Source) : M Returned :=
  run array <- toArray fuel this;
  mret (New (SIterableArrayQuery (rev array))).

(** [sum(selector)]; [total] is [number | undefined], and the selector
    gives integers. *)
Definition sum (fuel : nat) (this : Source) (selector : JsValue -> Z)
  : M (option JsNumber) :=
  run r <- for_of fuel this
             (fun total e =>
                if truthy_total total then
                  Continue (Some (number_plus (default NotANumber total)
                                    (Finite (selector e))))
                else Continue (Some (Finite (selector e))))
             None;
  mret (completed r).

(** [product(selector)] *)
Definition product (fuel : nat) (this : Source) (selector : JsValue -> Z)
  : M (option JsNumber) :=
  run r <- for_of fuel this
             (fun total e =>
                if truthy_total total then
                  Continue (Some (number_times (default NotANumber total)
                                    (Finite (selector e))))
                else Continue (Some (Finite (selector e))))
             None;
  mret (completed r).

(** [partition(predicate)] *)
Definition partition (fuel : nat) (this : Source) (predicate : JsValue -> bool)
  : M (list JsValue * list JsValue) :=
  run r <- for_of fuel this
             (fun '(left_, right_) e =>
                if predicate e then Continue (left_ ++ [e], right_)
                else Continue (left_, right_ ++ [e]))
             ([], []);
  mret (completed r).

(** [minmax(compare?)] *)
Definition minmax (fuel : nat) (this : Source) (compare : option Compare)
  : M (option (JsValue * JsValue)) :=
  run min <- min fuel this compare;
  run max <- max fuel this compare;
  mret (if truthy min && truthy max then Some (min, max) else None).

(** [contains(obj)]: [obj] is a value, or a function ([typeof obj ===
    "function"]), which is then a predicate. *)
Definition contains (fuel : nat) (this : Source)
    (obj : JsValue + (JsValue -> bool)) : M bool :=
  match obj with
  | inr predicate =>
      run r <- for_of fuel this
                 (fun (_ : unit) e =>
                    if predicate e then Return true else Continue tt)
                 tt;
      mret (match r with
            | Return b => b
            | Continue _ => false
            end)
  | inl v =>
      run r <- for_of fuel this
                 (fun (_ : unit) e =>
                    if strict_equals v e then Return true else Continue tt)
                 tt;
      mret (match r with
            | Return b => b
            | Continue _ => false
            end)
  end.

(** [containsAll(values)] *)
Definition containsAll (fuel : nat) (this values : Source) : M bool :=
  run r <- for_of_M fuel values
             (fun (_ : unit) e =>
                run found <- contains fuel this (inl e);
                mret (if negb found then Return false else Continue tt))
             tt;
  mret (match r with
        | Return b => b
        | Continue _ => true
        end).

(** The loop of [sequenceEquals]. *)
Fixpoint sequenceEquals_loop (fuel : nat) (x y : Cursor) : M bool :=
  fun w =>
    match fuel with
    | O => (OutOfFuel, w)
    | S fuel =>
        let '(left_, x', w) := next x w in
        let '(right_, y', w) := next y w in
        if done left_ && done right_ then (Ret true, w)
        else if done left_ || done right_ then (Ret false, w)
        else if negb (strict_equals (value left_) (value right_)) then
          (Ret false, w)
        else sequenceEquals_loop fuel x' y' w
    end.

(** [sequenceEquals(values)] *)
Definition sequenceEquals (fuel : nat) (this values : Source) : M bool :=
  run x <- lift (sym_iterator values);
  run y <- lift (sym_iterator this);
  sequenceEquals_loop fuel x y.

(** [elementAt(index)] *)
Definition elementAt (fuel : nat) (this : Source) (index : Z) : M JsValue :=
  if index <? 0 then mret VUndefined
  else
    run r <- for_of fuel this
               (fun i e => if i =? index then Return e else Continue (i + 1))
               0;
    mret (match r with
          | Return e => e
          | Continue _ => VUndefined
          end).

(** [elementAtOrElse(index, defaultValue)] *)
Definition elementAtOrElse (fuel : nat) (this : Source) (index : Z)
    (defaultValue : JsValue) : M JsValue :=
  run e <- elementAt fuel this index;
  mret (js_nullish_or e defaultValue).

(** [lastIndexOf(value)] *)
Definition lastIndexOf (fuel : nat) (this : Source) (v : JsValue) : M JsValue :=
  run empty <- isEmpty fuel this;
  if empty then mret VUndefined
  else
    run r <- for_of fuel this
               (fun '(lastIndex, index) e =>
                  if strict_equals e v then Continue (VNum index, index)
                  else Continue (lastIndex, index + 1))
               (VUndefined, 0);
    mret (completed r).1.

(** [first()] *)
Definition first (this : Source) : M JsValue :=
  run iterator <- lift (sym_iterator this);
  fun w => let '(r, _, w) := next iterator w in (Ret (value r), w).

(** [last()] *)
Definition last (fuel : nat) (this : Source) : M JsValue :=
  run r <- for_of fuel this (fun (_ : JsValue) e => Continue e) VUndefined;
  mret (completed r).

(** [firstOrElse(defaultValue)] *)
Definition firstOrElse (this : Source) (defaultValue : JsValue) : M JsValue :=
  run e <- first this;
  mret (js_nullish_or e defaultValue).

(** [lastOrElse(defaultValue)] *)
Definition lastOrElse (fuel : nat) (this : Source) (defaultValue : JsValue)
  : M JsValue :=
  run e <- last fuel this;
  mret (js_nullish_or e defaultValue).

(** [find(predicate)]: falling off the end of the method is [undefined]. *)
Definition find (fuel : nat) (this : Source) (predicate : JsValue -> bool)
  : M JsValue :=
  run r <- for_of fuel this
             (fun (_ : unit) e => if predicate e then Return e else Continue tt)
             tt;
  mret (match r with
        | Return e => e
        | Continue _ => VUndefined
        end).

(** [findLast(predicate)] *)
Definition findLast (fuel : nat) (this : Source) (predicate : JsValue -> bool)
  : M JsValue :=
  run r <- for_of fuel this
             (fun last e => if predicate e then Continue e else Continue last)
             VUndefined;
  mret (completed r).

(** [findOrElse(defaultValue, predicate)] *)
Definition findOrElse (fuel : nat) (this : Source) (defaultValue : JsValue)
    (predicate : JsValue -> bool) : M JsValue :=
  run r <- for_of fuel this
             (fun (_ : unit) e => if predicate e then Return e else Continue tt)
             tt;
  mret (match r with
        | Return e => e
        | Continue _ => defaultValue
        end).

(** [findLastOrElse(defaultValue, predicate)] *)
Definition findLastOrElse (fuel : nat) (this : Source) (defaultValue : JsValue)
    (predicate : JsValue -> bool) : M JsValue :=
  run r <- for_of fuel this
             (fun (_ : unit) e => if predicate e then Return e else Continue tt)
             tt;
  mret (match r with
        | Return e => e
        | Continue _ => defaultValue
        end).

(** [findLastIndex(predicate)] *)
Definition findLastIndex (fuel : nat) (this : Source)
    (predicate : JsValue -> bool) : M JsValue :=
  run empty <- isEmpty fuel this;
  if empty then mret VUndefined
  else
    run r <- for_of fuel this
               (fun '(lastIndex, index) e =>
                  let lastIndex := if predicate e then VNum index else lastIndex in
                  Continue (lastIndex, index + 1))
               (VUndefined, 0);
    mret (completed r).1.

(** [findIndices(predicate)] *)
Definition findIndices (fuel : nat) (this : Source)
    (predicate : JsValue -> bool) : M (list Z) :=
  run r <- for_of fuel this
             (fun '(array, index) e =>
                let array := if predicate e then array ++ [index] else array in
                Continue (array, index + 1))
             ([], 0);
  mret (completed r).1.

(** [every(predicate)] *)
Definition every (fuel : nat) (this : Source) (predicate : JsValue -> bool)
  : M bool :=
  run r <- for_of fuel this
             (fun (_ : unit) e =>
                if negb (predicate e) then Return false else Continue tt)
             tt;
  mret (match r with
        | Return b => b
        | Continue _ => true
        end).

(** [any(predicate?)] *)
Definition any (fuel : nat) (this : Source)
    (predicate : option (JsValue -> bool)) : M bool :=
  match predicate with
  | Some predicate =>
      run r <- for_of fuel this
                 (fun (_ : unit) e =>
                    if predicate e then Return true else Continue tt)
                 tt;
      mret (match r with
            | Return b => b
            | Continue _ => false
            end)
  | None =>
      run empty <- isEmpty fuel this;
      mret (negb empty)
  end.

(** [groupBy(keySelector)] *)
Definition groupBy (fuel : nat) (this : Source)
    (keySelector : JsValue -> JsValue) : M (JsMap (list JsValue)) :=
  run r <- for_of fuel this
             (fun map e =>
                let key := keySelector e in
                let values := Map_get key map in
                let map :=
                  match values with
                  | None => Map_set key [] map
                  | Some _ => map
                  end in
                Continue (Map_push key e map))
             [];
  mret (completed r).

(** [toMap(keySelector)] *)
Definition toMap (fuel : nat) (this : Source)
    (keySelector : JsValue -> JsValue) : M (JsMap JsValue) :=
  run r <- for_of fuel this
             (fun map e =>
                let key := keySelector e in
                Continue (Map_set key e map))
             [];
  mret (completed r).

End IterableQueryBase.

(** [Query.generate(length, generator, seed)] *)
Definition Query_generate (length : Z) (generator : Z -> JsValue -> JsValue)
    (seed : JsValue) : outcome Returned :=
  new iterable <- new_IterableGenerator length generator seed;
  Ret (New (SIterableQuery (stage iterable))).

(** [Query.from(...values)] and [Query.fromIterable(iterable)] *)
Definition Query_from (values : list JsValue) : Source := SIterableArrayQuery values.
Definition Query_fromIterable (iterable : Source) : Source := SIterableQuery iterable.

(** ** Handles by reference *)

(** The handles that exist, by address.  A handle is immutable, so the
    objects that refer to it hold its contents. *)
Abbreviation Heap := (list Source).

(** [heap[this].method(...)]: the address the call returns, the heap and
    the store it leaves. *)
Definition invoke (heap : Heap) (this : nat) (method : Source -> M Returned)
    (w : World) : outcome nat * Heap * World :=
  match heap !! this with
  | None => (Throw "TypeError: receiver is undefined", heap, w)
  | Some o =>
      match method o w with
      | (Ret This, w') => (Ret this, heap, w')
      | (Ret (New o'), w') => (Ret (length heap), heap ++ [o'], w')
      | (Throw e, w') => (Throw e, heap, w')
      | (OutOfFuel, w') => (OutOfFuel, heap, w')
      end
  end.

(** ** Stages whose classes are not part of the sources at hand *)

Record ChunkIterable : Type :=
  mkChunk { chunk_source : Source; chunkSize : Z }.

(** Modelled from the spec: the guard of the constructor of [ChunkIterable]
    ([Iterables/ChunkIterable.ts] is not part of the sources at hand): a
    non-positive chunk size "fails immediately at construction time, before
    any traversal; never silently clamped". *)
Definition new_ChunkIterable (iterable : Source) (size : Z)
  : outcome ChunkIterable :=
  if size <=? 0 then Throw ("Invalid argument: " +:+ pretty size)
  else Ret (mkChunk iterable size).

Record RangeIterable : Type :=
  mkRange { range_start : Z; range_end : Z; range_step : Z; inclusive : bool }.

(** Modelled from the spec: the guard of the constructor of [RangeIterable]
    ([Iterables/RangeIterable.ts] is not part of the sources at hand):
    "invalid (zero) step must fail fast". *)
Definition new_RangeIterable (start end_ step : Z) (incl : bool)
  : outcome RangeIterable :=
  if step =? 0 then Throw ("Invalid argument: " +:+ pretty step)
  else Ret (mkRange start end_ step incl).

(** ** What a sequence denotes *)

(** The values of the recurrence [next = f(index, previous)]. *)
Fixpoint generated (generator : Z -> JsValue -> JsValue) (n : nat)
    (index : Z) (prev : JsValue) : list JsValue :=
  match n with
  | O => []
  | S n =>
      let v := generator index prev in
      v :: generated generator n (index + 1) v
  end.

(** [item] at the end or at the front. *)
Definition with_item (append : bool) (item : list JsValue)
    (l : list JsValue) : list JsValue :=
  if append then l ++ item else item ++ l.

(** The elements of an iterable.  (A host iterator has none of its own:
    what it yields is a matter of the store.) *)
Fixpoint elements (s : Source) : list JsValue :=
  match s with
  | SArray array => array
  | SHost _ => []
  | SIterableQuery iterable => elements iterable
  | SIterableArrayQuery array => array
  | SGenerator length generator seed => generated generator (Z.to_nat length) 0 seed
  | STake source count => firstn (Z.to_nat count) (elements source)
  | STakeArray source count => firstn (Z.to_nat count) source
  | SAppendPrepend source item append => with_item append [item] (elements source)
  | SAppendPrependArray source item append => with_item append [item] source
  end.

(** An iterable is well built when its stages carry arguments their
    constructors accept. *)
Fixpoint well_built (s : Source) : bool :=
  match s with
  | SArray _ | SIterableArrayQuery _ | SHost _ => true
  | SIterableQuery iterable => well_built iterable
  | SGenerator length _ _ => 0 <=? length
  | STake source count => well_built source && (0 <=? count)
  | STakeArray _ count => 0 <=? count
  | SAppendPrepend source _ _ => well_built source
  | SAppendPrependArray _ _ _ => true
  end.

(** An iterable is restartable when no one-shot host iterator sits under
    it and its stages carry arguments their constructors accept. *)
Fixpoint restartable (s : Source) : bool :=
  match s with
  | SArray _ | SIterableArrayQuery _ => true
  | SHost _ => false
  | SIterableQuery iterable => restartable iterable
  | SGenerator length _ _ => 0 <=? length
  | STake source count => restartable source && (0 <=? count)
  | STakeArray _ count => 0 <=? count
  | SAppendPrepend source _ _ => restartable source
  | SAppendPrependArray _ _ _ => true
  end.

(** What a cursor has yet to yield. *)
Fixpoint remaining (o : Cursor) : list JsValue :=
  match o with
  | Host (ArrayIterator array index) => skipn index array
  | Host (OneShot _) => []
  | IterableGenerator generator _ length index prev =>
      generated generator (Z.to_nat (length - index)) index prev
  | TakeIterable _ iterator count index =>
      firstn (Z.to_nat (count - index)) (remaining iterator)
  | TakeArrayIterable source count index =>
      firstn (Z.to_nat (count - index)) (skipn (Z.to_nat index) source)
  | AppendPrependIterable _ iterator append item hasItem =>
      with_item append (if hasItem then [item] else []) (remaining iterator)
  | AppendPrependArrayIterable source append item hasItem index =>
      with_item append (if hasItem then [item] else [])
        (skipn (Z.to_nat index) source)
  end.

(** The states a cursor over a restartable iterable goes through. *)
Fixpoint steady (o : Cursor) : bool :=
  match o with
  | Host (ArrayIterator _ _) => true
  | Host (OneShot _) => false
  | IterableGenerator _ _ _ _ _ => true
  | TakeIterable _ iterator count index => steady iterator && (index <=? count)
  | TakeArrayIterable _ _ index => 0 <=? index
  | AppendPrependIterable _ iterator _ _ _ => steady iterator
  | AppendPrependArrayIterable source _ _ _ index =>
      (0 <=? index) && (index <=? Z.of_nat (length source))
  end.

(** The first [k] results of [next()]. *)
Fixpoint results (k : nat) (o : Cursor) (w : World) : list IteratorResult :=
  match k with
  | O => []
  | S k => let '(r, o', w') := next o w in r :: results k o' w'
  end.

(** The cursor after [k] calls of [next()]. *)
Fixpoint advance (k : nat) (o : Cursor) (w : World) : Cursor * World :=
  match k with
  | O => (o, w)
  | S k => let '(_, o', w') := next o w in advance k o' w'
  end.

(** A loop body run over a list. *)
Fixpoint fold_flow {A R} (body : A -> JsValue -> Flow A R) (acc : A)
    (l : list JsValue) : Flow A R :=
  match l with
  | [] => Continue acc
  | e :: l =>
      match body acc e with
      | Continue acc' => fold_flow body acc' l
      | Return x => Return x
      end
  end.

(** The result of [next()] on a cursor that has [l] left. *)
Definition head_result (l : list JsValue) : IteratorResult :=
  match l with
  | [] => iteratorDone
  | v :: _ => iteratorResult v
  end.

(** An object of the engine, as opposed to an iterator of the host. *)
Definition is_engine (o : Cursor) : bool :=
  match o with
  | Host _ => false
  | _ => true
  end.

(** Obtaining a cursor and traversing to exhaustion, twice in a row. *)
Definition traverse_twice (fuel : nat) (s : Source)
  : M (list JsValue * list JsValue) :=
  run first <- IterableQueryBase.toArray fuel s;
  run second <- IterableQueryBase.toArray fuel s;
  mret (first, second).

(** [x + y] on numbers, as a reducer. *)
Definition js_add (x y : JsValue) : JsValue :=
  match x, y with
  | VNum a, VNum b => VNum (a + b)
  | _, _ => VUndefined
  end.

(** What a call that builds a new handle leaves behind: an address that
    was not in use, every handle that existed as it was, the store as it
    was. *)
Definition fresh_handle (heap : Heap) (this : nat) (w : World)
    (r : outcome nat * Heap * World) : Prop :=
  exists (h : nat) (heap' : Heap),
    r = (Ret h, heap', w) /\
    h <> this /\
    heap !! h = None /\
    is_Some (heap' !! h) /\
    forall a o, heap !! a = Some o -> heap' !! a = Some o.

(** [o.name] *)
Definition field (name : string) (o : JsValue) : JsValue :=
  match o with
  | VObj _ fields =>
      match List.find (fun p => String.eqb p.1 name) fields with
      | Some p => p.2
      | None => VUndefined
      end
  | _ => VUndefined
  end.

(** The object [{key: k, v: s}] at reference [ref]. *)
Definition keyed_record (ref : nat) (k : Z) (s : string) : JsValue :=
  VObj ref [("key", VNum k); ("v", VStr s)].

(** A comparator: numbers by magnitude, anything else as 0. *)
Definition number_of (v : JsValue) : Z :=
  match v with
  | VNum n => n
  | _ => 0
  end.

Definition byNumber : Compare :=
  fun x y => of_comparison (number_of x ?= number_of y).

(** ** Notions the further properties are stated with *)

(** The object a chain method hands back. *)
Definition resolve (this : Source) (r : Returned) : Source :=
  match r with
  | This => this
  | New o => o
  end.

(** Each element of [ext] is related to none of [seen] and to none of the
    elements of [ext] before it. *)
Fixpoint added_fresh (rel : JsValue -> JsValue -> bool)
    (seen ext : list JsValue) : bool :=
  match ext with
  | [] => true
  | x :: rest =>
      negb (existsb (fun c => rel c x) seen) && added_fresh rel (seen ++ [x]) rest
  end.

(** No element is related to an earlier one. *)
Definition pairwise_distinct (rel : JsValue -> JsValue -> bool)
    (l : list JsValue) : bool :=
  added_fresh rel [] l.

(** The last [n] elements. *)
Definition last_n (n : nat) (l : list JsValue) : list JsValue :=
  skipn (length l - n) l.

(** The sum and the product of what [selector] gives on the elements. *)
Definition sum_of (selector : JsValue -> Z) (l : list JsValue) : Z :=
  fold_right (fun e total => selector e + total) 0 l.

Definition product_of (selector : JsValue -> Z) (l : list JsValue) : Z :=
  fold_right (fun e total => selector e * total) 1 l.

(** Two sequences of the same length whose elements are [===] in pairs. *)
Fixpoint same_sequence (l1 l2 : list JsValue) : bool :=
  match l1, l2 with
  | [], [] => true
  | x :: l1, y :: l2 => strict_equals x y && same_sequence l1 l2
  | _, _ => false
  end.

(** The positions, counted from [index], of the elements that satisfy
    [predicate]. *)
Fixpoint positions_from (predicate : JsValue -> bool) (index : Z)
    (l : list JsValue) : list Z :=
  match l with
  | [] => []
  | e :: rest =>
      if predicate e then index :: positions_from predicate (index + 1) rest
      else positions_from predicate (index + 1) rest
  end.

(** The number of elements that are not [===] to [v]. *)
Definition count_others (v : JsValue) (l : list JsValue) : Z :=
  Z.of_nat (length (List.filter (fun e => negb (strict_equals e v)) l)).

(** The values of [l] that are the first of their kind, in the order of
    [l]; "of a kind" is SameValueZero, the equality of the keys of a [Map]. *)
Fixpoint first_occurrences (l : list JsValue) : list JsValue :=
  match l with
  | [] => []
  | x :: l =>
      x :: List.filter (fun y => negb (same_value_zero x y)) (first_occurrences l)
  end.

(** The elements of [l] whose key is the same value as [k], in the order of
    [l]. *)
Definition with_key (keySelector : JsValue -> JsValue) (k : JsValue)
    (l : list JsValue) : list JsValue :=
  List.filter (fun e => same_value_zero k (keySelector e)) l.

(** The map of [groupBy]: the keys in the order in which they first occur,
    each with the elements that have it. *)
Definition groups_of (keySelector : JsValue -> JsValue) (l : list JsValue)
  : JsMap (list JsValue) :=
  (fun k => (k, with_key keySelector k l)) <$>
    first_occurrences (keySelector <$> l).

(** The map of [toMap]: the keys in the order in which they first occur,
    each with the last element that has it. *)
Definition entries_of (keySelector : JsValue -> JsValue) (l : list JsValue)
  : JsMap JsValue :=
  (fun k => (k, List.last (with_key keySelector k l) VUndefined)) <$>
    first_occurrences (keySelector <$> l).

(** No value of [l] is the same value as a later one. *)
Fixpoint all_different (l : list JsValue) : Prop :=
  match l with
  | [] => True
  | x :: l => Forall (fun y => same_value_zero x y = false) l /\ all_different l
  end.

(** The result of the call of [next()] that comes after [k] earlier calls. *)
Definition result_at (k : nat) (o : Cursor) (w : World) : IteratorResult :=
  let '(o', w') := advance k o w in (next o' w').1.1.

(** [x] is not sorted behind [y]: [SortCompare(x, y) > 0] is false. *)
Definition not_after (comparefn : option (JsValue -> JsValue -> Z))
    (x y : JsValue) : Prop :=
  (SortCompare comparefn x y >? 0) = false.

(** A consistent comparison function, as ECMAScript asks of the argument
    of [sort]: [Equal] is reflexive and symmetric, and each of the three
    outcomes is transitive. *)
Definition consistent (c : Compare) : Prop :=
  (forall x, c x x = Equal) /\
  (forall x y, c x y = Equal -> c y x = Equal) /\
  (forall x y z o, c x y = o -> c y z = o -> c x z = o).

(** In [l] no element compares [Greater] to a later one, and [undefined]
    comes after everything else. *)
Definition ordered_by (c : Compare) (l : list JsValue) : Prop :=
  forall (i j : nat) (x y : JsValue),
    (i < j)%nat -> l !! i = Some x -> l !! j = Some y ->
    (x = VUndefined -> y = VUndefined) /\
    (y <> VUndefined -> c x y <> Greater).

(** * Properties *)

(** Induction on an iterable, stage by stage, with the names the proofs
    below use. *)
Ltac induction_on_source s :=
  induction s as [array|h|iterable IH|array|len generator seed|source IH count
                 |source count|source IH item append|source item append].

(** ** One step of a cursor *)

Lemma generated_unfold generator length index prev :
  index < length ->
  generated generator (Z.to_nat (length - index)) index prev =
  generator index prev ::
    generated generator (Z.to_nat (length - (index + 1))) (index + 1)
      (generator index prev).
Proof.
  intros Hlt.
  replace (Z.to_nat (length - index)) with (S (Z.to_nat (length - (index + 1))))
    by lia.
  reflexivity.
Qed.

Lemma skipn_lookup (l : list JsValue) (i : nat) :
  skipn i l = match l !! i with
              | Some v => v :: skipn (S i) l
              | None => []
              end.
Proof.
  revert i; induction l as [|x l IH]; intros [|i]; simpl; try reflexivity.
  apply IH.
Qed.

Lemma js_index_lookup (l : list JsValue) (i : Z) v :
  0 <= i -> l !! Z.to_nat i = Some v -> js_index l i = v.
Proof.
  intros Hi Hl. unfold js_index.
  destruct (Z.ltb_spec i 0); [lia|]. rewrite Hl. reflexivity.
Qed.

Lemma skipn_index (l : list JsValue) (i : Z) :
  0 <= i -> i < Z.of_nat (length l) ->
  skipn (Z.to_nat i) l = js_index l i :: skipn (Z.to_nat (i + 1)) l.
Proof.
  intros Hi Hlt. rewrite skipn_lookup.
  destruct (l !! Z.to_nat i) as [v|] eqn:Hl.
  - rewrite (js_index_lookup _ _ _ Hi Hl).
    replace (Z.to_nat (i + 1)) with (S (Z.to_nat i)) by lia. reflexivity.
  - apply lookup_ge_None in Hl. lia.
Qed.

Lemma skipn_past (l : list JsValue) (i : Z) :
  Z.of_nat (length l) <= i -> skipn (Z.to_nat i) l = [].
Proof. intros H. apply skipn_all2. lia. Qed.

Lemma firstn_succ_tail (n : Z) (l : list JsValue) :
  0 < n ->
  firstn (Z.to_nat (n - 1)) (tail l) = tail (firstn (Z.to_nat n) l).
Proof.
  intros Hn. replace (Z.to_nat n) with (S (Z.to_nat (n - 1))) by lia.
  destruct l; simpl; [rewrite firstn_nil|]; reflexivity.
Qed.

Lemma head_result_firstn (n : Z) (l : list JsValue) :
  0 < n -> head_result (firstn (Z.to_nat n) l) = head_result l.
Proof.
  intros Hn. replace (Z.to_nat n) with (S (Z.to_nat (n - 1))) by lia.
  destruct l; reflexivity.
Qed.

(** [next()] on a steady cursor yields the head of what the cursor has left
    and keeps the rest, and touches no store; a cursor with nothing left
    answers [done] for good. *)
Lemma next_spec (o : Cursor) (w : World) :
  steady o = true ->
  exists o',
    next o w = (head_result (remaining o), o', w) /\
    steady o' = true /\
    remaining o' = tail (remaining o).
Proof.
  induction o as [h|generator seed len index prev|source iterator IH count index
                 |source count index|source iterator IH append item hasItem
                 |source append item hasItem index]; intros Hs; simpl in Hs.
  - destruct h as [array index|id]; [|discriminate].
    simpl. rewrite (skipn_lookup array index).
    destruct (array !! index) as [v|] eqn:Hl;
      (eexists; split; [reflexivity|split; [reflexivity|]]); simpl.
    + reflexivity.
    + rewrite (skipn_lookup array index), Hl. reflexivity.
  - simpl. destruct (Z.ltb_spec index len) as [Hlt|Hge].
    + rewrite (generated_unfold _ _ _ _ Hlt).
      eexists; split; [reflexivity|split; reflexivity].
    + assert (Hz : Z.to_nat (len - index) = O) by lia.
      rewrite Hz. eexists; split; [reflexivity|split; [reflexivity|]].
      simpl. rewrite Hz. reflexivity.
  - apply andb_prop in Hs as [Hit Hle].
    destruct (IH Hit) as (it' & Hnext & Hs' & Hrem).
    simpl. destruct (Z.eqb_spec index count) as [->|Hne].
    + assert (Hz : Z.to_nat (count - count) = O) by lia.
      rewrite Hz. eexists; split; [reflexivity|split].
      * simpl. rewrite Hit, Hle. reflexivity.
      * simpl. rewrite Hz. reflexivity.
    + apply Z.leb_le in Hle. rewrite Hnext.
      eexists; split; [|split].
      * rewrite head_result_firstn by lia. reflexivity.
      * simpl. rewrite Hs'. apply Z.leb_le. lia.
      * simpl. rewrite Hrem.
        replace (count - (index + 1)) with (count - index - 1) by lia.
        apply firstn_succ_tail. lia.
  - apply Z.leb_le in Hs. simpl.
    destruct (Z.ltb_spec index count) as [Hc|Hc];
      destruct (Z.ltb_spec index (Z.of_nat (length source))) as [Hl|Hl]; simpl.
    + rewrite (skipn_index _ _ Hs Hl).
      replace (Z.to_nat (count - index)) with (S (Z.to_nat (count - (index + 1))))
        by lia.
      eexists; split; [reflexivity|split; [|reflexivity]].
      simpl. apply Z.leb_le. lia.
    + rewrite (skipn_past _ _ Hl), firstn_nil.
      eexists; split; [reflexivity|split].
      * simpl. apply Z.leb_le. lia.
      * simpl. rewrite (skipn_past _ _ Hl), firstn_nil. reflexivity.
    + assert (Hz : Z.to_nat (count - index) = O) by lia. rewrite Hz.
      eexists; split; [reflexivity|split].
      * simpl. apply Z.leb_le. lia.
      * simpl. rewrite Hz. reflexivity.
    + assert (Hz : Z.to_nat (count - index) = O) by lia. rewrite Hz.
      eexists; split; [reflexivity|split].
      * simpl. apply Z.leb_le. lia.
      * simpl. rewrite Hz. reflexivity.
  - destruct (IH Hs) as (it' & Hnext & Hs' & Hrem).
    simpl. destruct append.
    + rewrite Hnext.
      destruct (remaining iterator) as [|v rest] eqn:Hr; simpl.
      * destruct hasItem; simpl;
          (eexists; split; [reflexivity|split; [assumption|]]);
          simpl; rewrite Hrem; reflexivity.
      * eexists; split; [reflexivity|split; [assumption|]].
        simpl. rewrite Hrem. reflexivity.
    + destruct hasItem; simpl.
      * eexists; split; [reflexivity|split; [assumption|reflexivity]].
      * rewrite Hnext. eexists; split; [reflexivity|split; [assumption|]].
        simpl. rewrite Hrem. reflexivity.
  - apply andb_prop in Hs as [H0 Hle].
    apply Z.leb_le in H0. apply Z.leb_le in Hle.
    simpl.
    destruct (Z.eqb_spec index (Z.of_nat (length source))) as [He|Hne].
    + assert (Hp : skipn (Z.to_nat index) source = []) by (apply skipn_past; lia).
      rewrite Hp.
      destruct hasItem, append; simpl;
        (eexists; split; [reflexivity|split;
           [simpl; apply andb_true_intro; split; apply Z.leb_le; lia
           |simpl; rewrite ?Hp; reflexivity]]).
    + assert (Hlt : index < Z.of_nat (length source)) by lia.
      rewrite (skipn_index _ _ H0 Hlt).
      destruct hasItem, append; simpl;
        (eexists; split; [reflexivity|split;
           [simpl; apply andb_true_intro; split; apply Z.leb_le; lia
           |simpl; rewrite ?(skipn_index _ _ H0 Hlt); reflexivity]]).
Qed.

(** [getNext()] writes none of the readonly fields: what a stage hands out
    as a new cursor does not depend on how far the stage itself has been
    driven.  (A host iterator hands out itself, whatever its state.) *)
Lemma next_keeps_stage (o : Cursor) (w : World) :
  match o with
  | Host _ => True
  | _ => stage (next o w).1.2 = stage o
  end.
Proof.
  destruct o as [h|generator seed len index prev|source iterator count index
                |source count index|source iterator append item hasItem
                |source append item hasItem index]; simpl; [exact I|..].
  - destruct (index <? len); reflexivity.
  - destruct (index =? count); [reflexivity|].
    destruct (next iterator w) as [[r it'] w']. reflexivity.
  - destruct ((index <? count) && (index <? Z.of_nat (length source)));
      reflexivity.
  - destruct append.
    + destruct (next iterator w) as [[r it'] w'].
      destruct (done r && hasItem); reflexivity.
    + destruct hasItem; [reflexivity|].
      destruct (next iterator w) as [[r it'] w']. reflexivity.
  - destruct (negb hasItem && (index =? Z.of_nat (length source)));
      [reflexivity|].
    destruct append, hasItem; simpl;
      try destruct (index =? Z.of_nat (length source)); reflexivity.
Qed.

(** ** Runs of a steady cursor *)

Lemma results_spec (k : nat) :
  forall (o : Cursor) (w : World),
    steady o = true ->
    results k o w =
    (iteratorResult <$> firstn k (remaining o)) ++
    replicate (k - length (remaining o)) iteratorDone.
Proof.
  induction k as [|k IH]; intros o w Hs; [reflexivity|].
  destruct (next_spec o w Hs) as (o' & Hnext & Hs' & Hrem).
  simpl results. rewrite Hnext, (IH o' w Hs'), Hrem.
  destruct (remaining o) as [|v rest]; simpl.
  - rewrite firstn_nil. simpl. rewrite Nat.sub_0_r. reflexivity.
  - reflexivity.
Qed.

Lemma advance_steady (k : nat) :
  forall (o : Cursor) (w : World),
    steady o = true ->
    exists o', advance k o w = (o', w) /\ steady o' = true /\
               remaining o' = skipn k (remaining o).
Proof.
  induction k as [|k IH]; intros o w Hs.
  - exists o. repeat split; assumption.
  - destruct (next_spec o w Hs) as (o1 & Hnext & Hs1 & Hrem).
    destruct (IH o1 w Hs1) as (o' & Hadv & Hs' & Hrem').
    exists o'. simpl. rewrite Hnext. repeat split; try assumption.
    rewrite Hrem', Hrem. destruct (remaining o); [apply skipn_nil|reflexivity].
Qed.

(** ** A new cursor over a restartable iterable *)

Lemma sym_iterator_spec (s : Source) :
  restartable s = true ->
  exists o,
    sym_iterator s = Ret o /\ steady o = true /\ remaining o = elements s.
Proof.
  induction_on_source s;
    intros Hr; simpl in Hr; try discriminate.
  - eexists; repeat split.
  - exact (IH Hr).
  - eexists; repeat split.
  - apply Z.leb_le in Hr. simpl. unfold new_IterableGenerator.
    destruct (Z.ltb_spec len 0); [lia|].
    eexists; split; [reflexivity|split; [reflexivity|]].
    simpl. rewrite Z.sub_0_r. reflexivity.
  - apply andb_prop in Hr as [Hsrc Hc]. apply Z.leb_le in Hc.
    destruct (IH Hsrc) as (it & Hit & Hs & Hrem).
    simpl. unfold new_TakeIterable_from. rewrite Hit.
    destruct (Z.ltb_spec count 0); [lia|]. simpl.
    eexists; split; [reflexivity|split].
    + simpl. rewrite Hs. apply Z.leb_le. lia.
    + simpl. rewrite Hrem, Z.sub_0_r. reflexivity.
  - apply Z.leb_le in Hr. simpl. unfold new_TakeArrayIterable.
    destruct (Z.ltb_spec count 0); [lia|].
    eexists; split; [reflexivity|split; [reflexivity|]].
    simpl. rewrite Z.sub_0_r. reflexivity.
  - destruct (IH Hr) as (it & Hit & Hs & Hrem).
    simpl. unfold new_AppendPrependIterable_from. rewrite Hit. simpl.
    eexists; split; [reflexivity|split; [assumption|]].
    simpl. rewrite Hrem. reflexivity.
  - simpl. unfold new_AppendPrependArrayIterable.
    eexists; split; [reflexivity|split].
    + simpl. apply Z.leb_le. lia.
    + reflexivity.
Qed.

(** ** Loops over a restartable iterable *)

Section Loops.

Context {A R : Type} (body : A -> JsValue -> Flow A R).

(** The loop runs its body over what the cursor has left and leaves the
    store as it was. *)
Lemma for_of_loop_spec (fuel : nat) :
  forall (o : Cursor) (acc : A) (w : World),
    steady o = true ->
    (length (remaining o) < fuel)%nat ->
    for_of_loop fuel o body acc w = (Ret (fold_flow body acc (remaining o)), w).
Proof.
  induction fuel as [|fuel IH]; intros o acc w Hs Hfuel; [lia|].
  destruct (next_spec o w Hs) as (o' & Hnext & Hs' & Hrem).
  simpl. rewrite Hnext.
  destruct (remaining o) as [|v rest] eqn:Hr; simpl; [reflexivity|].
  destruct (body acc v) as [acc'|x]; [|reflexivity].
  rewrite IH; [|assumption|rewrite Hrem; simpl in *; lia].
  rewrite Hrem. reflexivity.
Qed.

Lemma for_of_spec (fuel : nat) (s : Source) (acc : A) (w : World) :
  restartable s = true ->
  (length (elements s) < fuel)%nat ->
  for_of fuel s body acc w = (Ret (fold_flow body acc (elements s)), w).
Proof.
  intros Hr Hfuel.
  destruct (sym_iterator_spec s Hr) as (o & Ho & Hs & Hrem).
  unfold for_of, mbind, lift. rewrite Ho.
  rewrite for_of_loop_spec; rewrite ?Hrem; auto.
Qed.

End Loops.

(** ** Terminal methods on a restartable iterable *)

Lemma fold_flow_collect (l acc : list JsValue) :
  fold_flow (R := Empty_set) (fun array e => Continue (array ++ [e])) acc l =
  Continue (acc ++ l).
Proof.
  revert acc; induction l as [|e l IH]; intros acc; simpl.
  - rewrite app_nil_r. reflexivity.
  - rewrite IH, <- app_assoc. reflexivity.
Qed.

Lemma toArray_spec (fuel : nat) (s : Source) (w : World) :
  restartable s = true ->
  (length (elements s) < fuel)%nat ->
  IterableQueryBase.toArray fuel s w = (Ret (elements s), w).
Proof.
  intros Hr Hfuel. unfold IterableQueryBase.toArray, mbind.
  rewrite for_of_spec by assumption.
  rewrite fold_flow_collect. reflexivity.
Qed.

Lemma isEmpty_spec (fuel : nat) (s : Source) (w : World) :
  restartable s = true ->
  (length (elements s) < fuel)%nat ->
  IterableQueryBase.isEmpty fuel s w =
  (Ret (match elements s with [] => true | _ => false end), w).
Proof.
  intros Hr Hfuel. unfold IterableQueryBase.isEmpty, mbind.
  rewrite for_of_spec by assumption.
  destruct (elements s); reflexivity.
Qed.

Lemma count_loop_spec (fuel : nat) :
  forall (o : Cursor) (c : Z) (w : World),
    steady o = true ->
    (length (remaining o) < fuel)%nat ->
    c + Z.of_nat (length (remaining o)) <= MAX_SAFE_INTEGER ->
    IterableQueryBase.count_loop fuel o c w =
    (Ret (c + Z.of_nat (length (remaining o))), w).
Proof.
  induction fuel as [|fuel IH]; intros o c w Hs Hfuel Hmax; [lia|].
  destruct (next_spec o w Hs) as (o' & Hnext & Hs' & Hrem).
  simpl. rewrite Hnext.
  destruct (remaining o) as [|v rest] eqn:Hr; simpl.
  - rewrite Z.add_0_r. reflexivity.
  - simpl length in Hmax, Hfuel.
    destruct (Z.gtb_spec (c + 1) MAX_SAFE_INTEGER) as [Hgt|Hle]; [lia|].
    rewrite IH; rewrite ?Hrem; simpl; try assumption; try lia.
    do 2 f_equal. lia.
Qed.

Lemma count_traverse_spec (fuel : nat) (s : Source) (w : World) :
  restartable s = true ->
  (length (elements s) < fuel)%nat ->
  Z.of_nat (length (elements s)) <= MAX_SAFE_INTEGER ->
  IterableQueryBase.count_traverse fuel s w =
  (Ret (Z.of_nat (length (elements s))), w).
Proof.
  intros Hr Hfuel Hmax.
  destruct (sym_iterator_spec s Hr) as (o & Ho & Hs & Hrem).
  unfold IterableQueryBase.count_traverse, mbind, lift. rewrite Ho.
  rewrite count_loop_spec; rewrite ?Hrem; auto.
Qed.

(** The fast path of [count()] answers nothing or the number of elements. *)
Lemma getSizedIterableCount_spec (fuel : nat) (s : Source) (w : World) :
  restartable s = true ->
  (length (elements s) < fuel)%nat ->
  Z.of_nat (length (elements s)) <= MAX_SAFE_INTEGER ->
  IterableQueryBase.getSizedIterableCount fuel s w = (Ret None, w) \/
  IterableQueryBase.getSizedIterableCount fuel s w =
  (Ret (Some (Z.of_nat (length (elements s)))), w).
Proof.
  induction_on_source s;
    intros Hr Hfuel Hmax; try (left; reflexivity).
  - exact (IH Hr Hfuel Hmax).
  - right. simpl IterableQueryBase.getSizedIterableCount. unfold mbind.
    rewrite count_traverse_spec by assumption. reflexivity.
Qed.

Lemma count_spec (fuel : nat) (s : Source) (w : World) :
  restartable s = true ->
  (length (elements s) < fuel)%nat ->
  Z.of_nat (length (elements s)) <= MAX_SAFE_INTEGER ->
  IterableQueryBase.count fuel s None w =
  (Ret (Z.of_nat (length (elements s))), w).
Proof.
  intros Hr Hfuel Hmax. unfold IterableQueryBase.count.
  destruct (IterableQueryBase.instanceof_IterableQuery s);
    [|apply count_traverse_spec; assumption].
  unfold mbind.
  destruct (getSizedIterableCount_spec fuel s w Hr Hfuel Hmax) as [-> | ->].
  - simpl. apply count_traverse_spec; assumption.
  - simpl. destruct (Z.eqb_spec (Z.of_nat (length (elements s))) 0) as [He|Hne];
      simpl.
    + rewrite count_traverse_spec by assumption. reflexivity.
    + reflexivity.
Qed.

(** ** Chain methods on a well-built iterable *)

Lemma restartable_well_built (s : Source) :
  restartable s = true -> well_built s = true.
Proof.
  induction_on_source s;
    simpl; intros Hr; try reflexivity; try discriminate; try exact Hr;
    try (apply IH; exact Hr).
  apply andb_prop in Hr as [Hsrc Hc]. rewrite (IH Hsrc), Hc. reflexivity.
Qed.

(** A well-built iterable hands out a cursor. *)
Lemma well_built_iterator (s : Source) :
  well_built s = true -> exists o, sym_iterator s = Ret o.
Proof.
  induction_on_source s;
    simpl; intros Hw; try (eexists; reflexivity).
  - exact (IH Hw).
  - unfold new_IterableGenerator. rewrite Z.leb_antisym in Hw.
    apply negb_true_iff in Hw. rewrite Hw. eexists; reflexivity.
  - apply andb_prop in Hw as [Hsrc Hc]. destruct (IH Hsrc) as [it Hit].
    unfold new_TakeIterable_from. rewrite Z.leb_antisym in Hc.
    apply negb_true_iff in Hc. rewrite Hc, Hit. eexists; reflexivity.
  - unfold new_TakeArrayIterable. rewrite Z.leb_antisym in Hw.
    apply negb_true_iff in Hw. rewrite Hw. eexists; reflexivity.
  - destruct (IH Hw) as [it Hit].
    unfold new_AppendPrependIterable_from. rewrite Hit. eexists; reflexivity.
Qed.

(** What [take], [append] and [prepend] build. *)
Lemma take_spec (this : Source) (n : Z) :
  well_built this = true -> 0 <= n ->
  IterableQueryBase.take this n = Ret (New (SIterableQuery (STake this n))).
Proof.
  intros Hw Hn. unfold IterableQueryBase.take, new_TakeIterable,
    new_TakeIterable_from.
  destruct (well_built_iterator this Hw) as (o & ->).
  destruct (Z.ltb_spec n 0); [lia|]. reflexivity.
Qed.

Lemma append_prepend_spec (this : Source) (v : JsValue) :
  well_built this = true ->
  IterableQueryBase.append this v =
    Ret (New (SIterableQuery (SAppendPrepend this v true))) /\
  IterableQueryBase.prepend this v =
    Ret (New (SIterableQuery (SAppendPrepend this v false))).
Proof.
  intros Hw. unfold IterableQueryBase.append, IterableQueryBase.prepend,
    new_AppendPrependIterable, new_AppendPrependIterable_from.
  destruct (well_built_iterator this Hw) as (o & ->). split; reflexivity.
Qed.

(** The chain methods keep an iterable restartable: the restartable
    iterables are the arrays, the generators and what [take], [append] and
    [prepend] make of them. *)
Lemma chain_keeps_restartable (this : Source) (n : Z) (v : JsValue)
    (T : Source) :
  restartable this = true ->
  IterableQueryBase.take this n = Ret (New T) \/
  IterableQueryBase.append this v = Ret (New T) \/
  IterableQueryBase.prepend this v = Ret (New T) ->
  restartable T = true.
Proof.
  intros Hr H.
  pose proof (restartable_well_built this Hr) as Hw.
  destruct (append_prepend_spec this v Hw) as [Happ Hpre].
  destruct H as [H|[H|H]].
  - unfold IterableQueryBase.take, new_TakeIterable, new_TakeIterable_from in H.
    destruct (Z.ltb_spec n 0); [discriminate|].
    destruct (well_built_iterator this Hw) as (o & Ho). rewrite Ho in H.
    injection H as <-. simpl. rewrite Hr. apply Z.leb_le. assumption.
  - rewrite Happ in H. injection H as <-. exact Hr.
  - rewrite Hpre in H. injection H as <-. exact Hr.
Qed.

(** ** Restarting *)

(** A new cursor of a stage is the cursor its [clone()] builds. *)
Lemma clone_fresh (s : Source) (o : Cursor) :
  restartable s = true ->
  sym_iterator s = Ret o ->
  is_engine o = true ->
  clone o = Ret o.
Proof.
  revert o.
  induction_on_source s;
    unfold clone; intros o Hr Ho He; simpl in Hr, Ho; try discriminate.
  - injection Ho as <-. discriminate.
  - exact (IH o Hr Ho He).
  - injection Ho as <-. discriminate.
  - unfold new_IterableGenerator in Ho.
    destruct (len <? 0) eqn:Hl; [discriminate|]. injection Ho as <-.
    simpl. unfold new_IterableGenerator. rewrite Hl. reflexivity.
  - unfold new_TakeIterable_from in Ho.
    destruct (count <? 0) eqn:Hc; [discriminate|].
    destruct (sym_iterator source) as [it| |] eqn:Hit; try discriminate.
    injection Ho as <-. simpl. unfold new_TakeIterable_from.
    rewrite Hc, Hit. reflexivity.
  - unfold new_TakeArrayIterable in Ho.
    destruct (count <? 0) eqn:Hc; [discriminate|]. injection Ho as <-.
    simpl. unfold new_TakeArrayIterable. rewrite Hc. reflexivity.
  - unfold new_AppendPrependIterable_from in Ho.
    destruct (sym_iterator source) as [it| |] eqn:Hit; try discriminate.
    injection Ho as <-. simpl. unfold new_AppendPrependIterable_from.
    rewrite Hit. reflexivity.
  - injection Ho as <-. reflexivity.
Qed.

(** ** The array-specialized twins *)

(** For every backing array, item and flag, the array-specialized
    [AppendPrependArrayIterable] and the generic [AppendPrependIterable]
    over a restartable upstream with the elements of that array give the
    same results of [next()], call after call, and the same array when
    iterated; so do [TakeArrayIterable] and [TakeIterable] for every count
    [n >= 0] that is an integer. *)
Theorem array_twins_agree :
  forall (array : list JsValue) (source : Source) (item : JsValue)
         (append : bool) (n : Z) (w : World),
    restartable source = true ->
    elements source = array ->
    0 <= n ->
    (exists a g,
        new_AppendPrependArrayIterable array item append = Ret a /\
        new_AppendPrependIterable source item append = Ret g /\
        (forall k, results k a w = results k g w) /\
        (forall fuel, (S (length array) < fuel)%nat ->
           IterableQueryBase.toArray fuel (stage a) w =
             (Ret (with_item append [item] array), w) /\
           IterableQueryBase.toArray fuel (stage g) w =
             (Ret (with_item append [item] array), w)))
    /\
    (exists a g,
        new_TakeArrayIterable array n = Ret a /\
        new_TakeIterable source n = Ret g /\
        (forall k, results k a w = results k g w) /\
        (forall fuel, (length array < fuel)%nat ->
           IterableQueryBase.toArray fuel (stage a) w =
             (Ret (firstn (Z.to_nat n) array), w) /\
           IterableQueryBase.toArray fuel (stage g) w =
             (Ret (firstn (Z.to_nat n) array), w))).
Proof.
  intros array source item append n w Hsrc Hel Hn.
  assert (Hra : restartable (SAppendPrependArray array item append) = true)
    by reflexivity.
  assert (Hrg : restartable (SAppendPrepend source item append) = true)
    by exact Hsrc.
  assert (Hta : restartable (STakeArray array n) = true)
    by (apply Z.leb_le; exact Hn).
  assert (Htg : restartable (STake source n) = true).
  { simpl. rewrite Hsrc. apply Z.leb_le. exact Hn. }
  split.
  - destruct (sym_iterator_spec _ Hra) as (a & Ha & Hsa & Hrema).
    destruct (sym_iterator_spec _ Hrg) as (g & Hg & Hsg & Hremg).
    exists a, g. split; [exact Ha|]. split; [exact Hg|]. split.
    + intros k. rewrite !results_spec by assumption.
      rewrite Hrema, Hremg. simpl. rewrite Hel. reflexivity.
    + intros fuel Hfuel.
      assert (Hlen : length (with_item append [item] array) = S (length array)).
      { destruct append; simpl; rewrite ?length_app; simpl; lia. }
      simpl in Ha. injection Ha as <-.
      simpl in Hg. unfold new_AppendPrependIterable_from in Hg.
      destruct (sym_iterator source); try discriminate. injection Hg as <-.
      simpl stage. split.
      * rewrite toArray_spec; [reflexivity|exact Hra|simpl; lia].
      * rewrite toArray_spec; [simpl; rewrite Hel; reflexivity|exact Hrg|].
        simpl. rewrite Hel. lia.
  - destruct (sym_iterator_spec _ Hta) as (a & Ha & Hsa & Hrema).
    destruct (sym_iterator_spec _ Htg) as (g & Hg & Hsg & Hremg).
    exists a, g. split; [exact Ha|]. split; [exact Hg|]. split.
    + intros k. rewrite !results_spec by assumption.
      rewrite Hrema, Hremg. simpl. rewrite Hel. reflexivity.
    + intros fuel Hfuel.
      assert (Hlen : (length (firstn (Z.to_nat n) array) <= length array)%nat)
        by (rewrite length_firstn; lia).
      simpl in Ha. unfold new_TakeArrayIterable in Ha.
      simpl in Hg. unfold new_TakeIterable_from in Hg.
      destruct (n <? 0); [discriminate|]. injection Ha as <-.
      destruct (sym_iterator source); try discriminate. injection Hg as <-.
      simpl stage. split.
      * rewrite toArray_spec; [reflexivity|exact Hta|simpl; lia].
      * rewrite toArray_spec; [simpl; rewrite Hel; reflexivity|exact Htg|].
        simpl. rewrite Hel. lia.
Qed.

Lemma array_twins_agree_witness :
  let array := [VNum 1; VNum 2; VNum 3] in
  let source := Query_from array in
  let item := VNum 0 in
  let w : World := ∅ in
  restartable source = true /\
  elements source = array /\
  0 <= 2 /\
  (exists a g,
      new_AppendPrependArrayIterable array item true = Ret a /\
      new_AppendPrependIterable source item true = Ret g /\
      (forall k, results k a w = results k g w) /\
      (forall fuel, (S (length array) < fuel)%nat ->
         IterableQueryBase.toArray fuel (stage a) w =
           (Ret (with_item true [item] array), w) /\
         IterableQueryBase.toArray fuel (stage g) w =
           (Ret (with_item true [item] array), w)))
  /\
  (exists a g,
      new_TakeArrayIterable array 2 = Ret a /\
      new_TakeIterable source 2 = Ret g /\
      (forall k, results k a w = results k g w) /\
      (forall fuel, (length array < fuel)%nat ->
         IterableQueryBase.toArray fuel (stage a) w =
           (Ret (firstn (Z.to_nat 2) array), w) /\
         IterableQueryBase.toArray fuel (stage g) w =
           (Ret (firstn (Z.to_nat 2) array), w))).
Proof.
  intros array source item w.
  split; [reflexivity|]. split; [reflexivity|]. split; [lia|].
  apply (array_twins_agree array source item true 2 w);
    [reflexivity|reflexivity|lia].
Defined.

(** ** [take] with a count that is not an integer *)

(** On integer counts the tests of [AnyCount] are the tests of the cursors
    with integer counts. *)
Lemma reached_integer (index n : Z) :
  AnyCount.reached index (inject_Z n) = (index =? n).
Proof.
  unfold AnyCount.reached.
  destruct (Z.eqb_spec index n) as [->|Hne].
  - apply Qeq_bool_iff. reflexivity.
  - destruct (Qeq_bool (inject_Z index) (inject_Z n)) eqn:Hq; [|reflexivity].
    apply Qeq_bool_iff in Hq. apply (proj1 (inject_Z_injective _ _)) in Hq.
    contradiction.
Qed.

Lemma below_integer (index n : Z) :
  AnyCount.below index (inject_Z n) = (index <? n).
Proof.
  unfold AnyCount.below.
  destruct (Z.ltb_spec index n) as [Hlt|Hge].
  - apply negb_true_iff.
    destruct (Qle_bool (inject_Z n) (inject_Z index)) eqn:Hq; [|reflexivity].
    apply Qle_bool_iff in Hq. rewrite <- Zle_Qle in Hq. lia.
  - apply negb_false_iff, Qle_bool_iff. rewrite <- Zle_Qle. exact Hge.
Qed.

Lemma negative_integer (n : Z) : AnyCount.negative (inject_Z n) = (n <? 0).
Proof. exact (below_integer n 0). Qed.

(** With an integer count the cursors of [AnyCount] step as the cursors
    with integer counts do. *)
Lemma getNext_integer_count (array : list JsValue) (h : HostIter)
    (n index : Z) (w : World) :
  next (TakeIterable (SArray array) (Host h) n index) w =
  let '(r, o', w') :=
    AnyCount.getNext (AnyCount.mkTakeIterable array h (inject_Z n) index) w in
  (r,
   TakeIterable (SArray array) (Host (AnyCount.iterator o')) n (AnyCount.index o'),
   w').
Proof.
  unfold AnyCount.getNext. cbn [next AnyCount.index AnyCount.count
    AnyCount.iterator AnyCount.source].
  rewrite reached_integer. destruct (index =? n); [reflexivity|].
  destruct (host_next h w) as [[r h'] w']. reflexivity.
Qed.

Lemma getNext_array_integer_count (array : list JsValue) (n index : Z)
    (w : World) :
  next (TakeArrayIterable array n index) w =
  let '(r, o', w') :=
    AnyCount.getNext_array (AnyCount.mkTakeArrayIterable array (inject_Z n) index)
      w in
  (r, TakeArrayIterable array n (AnyCount.array_index o'), w').
Proof.
  unfold AnyCount.getNext_array. cbn [next AnyCount.array_index
    AnyCount.array_count AnyCount.array_source].
  rewrite below_integer.
  destruct ((index <? n) && (index <? Z.of_nat (length array))); reflexivity.
Qed.

Lemma new_take_integer_count (array : list JsValue) (n : Z) :
  (AnyCount.new_TakeIterable array (inject_Z n) = None <-> n < 0) /\
  (AnyCount.new_TakeArrayIterable array (inject_Z n) = None <-> n < 0) /\
  ((exists message, new_TakeIterable (SArray array) n = Throw message)
   <-> n < 0) /\
  ((exists message, new_TakeArrayIterable array n = Throw message) <-> n < 0).
Proof.
  unfold AnyCount.new_TakeIterable, AnyCount.new_TakeArrayIterable,
    new_TakeIterable, new_TakeIterable_from, new_TakeArrayIterable.
  rewrite negative_integer. destruct (Z.ltb_spec n 0) as [Hlt|Hge]; simpl.
  - repeat split; intros; eauto.
  - repeat split; intros H; try lia; try discriminate;
      destruct H as [message H]; discriminate.
Qed.

(** C3.  With a count that is not an integer the twins part: both
    constructors accept 1.5, and over the array 1, 2, 3 the generic
    [TakeIterable], whose test [index === count] never holds, yields 1, 2,
    3, while [TakeArrayIterable], whose test is [index < count], yields 1,
    2. *)
Theorem take_twins_differ_on_a_fraction :
  let array := [VNum 1; VNum 2; VNum 3] in
  let n := (3 # 2)%Q in
  exists g a,
    AnyCount.new_TakeIterable array n = Some g /\
    AnyCount.new_TakeArrayIterable array n = Some a /\
    AnyCount.yields AnyCount.getNext 5 g ∅ = Some [VNum 1; VNum 2; VNum 3] /\
    AnyCount.yields AnyCount.getNext_array 5 a ∅ = Some [VNum 1; VNum 2].
Proof.
  intros array n. do 2 eexists.
  split; [reflexivity|]. split; [reflexivity|]. split; reflexivity.
Qed.

(** ** Restartable chains *)

Lemma advance_keeps_stage (k : nat) :
  forall (o : Cursor) (w : World),
    is_engine o = true ->
    is_engine (advance k o w).1 = true /\ stage (advance k o w).1 = stage o.
Proof.
  induction k as [|k IH]; intros o w He; [split; [exact He|reflexivity]|].
  simpl. pose proof (next_keeps_stage o w) as Hk.
  destruct (next o w) as [[r o'] w'] eqn:Hn. simpl in Hk.
  assert (He' : is_engine o' = true /\ stage o' = stage o).
  { destruct o; try discriminate; split; try exact Hk;
      destruct o'; try reflexivity; discriminate. }
  destruct He' as [He' Hst]. destruct (IH o' w' He') as [H1 H2].
  split; [exact H1|]. rewrite H2. exact Hst.
Qed.

(** C4.  For every restartable source and every chain of Take and
    AppendPrepend stages (generic or array-specialized) over it, obtaining
    a cursor and traversing to exhaustion twice in a row yields the same
    elements both times and leaves the store as it was; and a stage that
    has itself been driven any number of steps still hands out the cursor
    it handed out at first, built from the original upstream. *)
Theorem restart_yields_same_sequence :
  forall (s : Source) (w : World) (fuel : nat),
    restartable s = true ->
    (length (elements s) < fuel)%nat ->
    traverse_twice fuel s w = (Ret (elements s, elements s), w) /\
    forall (o : Cursor) (k : nat),
      sym_iterator s = Ret o ->
      is_engine o = true ->
      clone (advance k o w).1 = Ret o.
Proof.
  intros s w fuel Hr Hfuel. split.
  - unfold traverse_twice, mbind.
    rewrite !toArray_spec by assumption. reflexivity.
  - intros o k Ho He.
    destruct (advance_keeps_stage k o w He) as [_ Hst].
    unfold clone. rewrite Hst. exact (clone_fresh s o Hr Ho He).
Qed.

Lemma restart_yields_same_sequence_witness :
  let upstream :=
    SIterableQuery (SAppendPrepend (Query_from [VNum 1; VNum 2]) (VNum 3) true) in
  let s := SIterableQuery (STake upstream 2) in
  let o :=
    TakeIterable upstream
      (AppendPrependIterable (Query_from [VNum 1; VNum 2])
         (Host (ArrayIterator [VNum 1; VNum 2] 0)) true (VNum 3) true) 2 0 in
  let w : World := ∅ in
  restartable s = true /\
  (length (elements s) < 5)%nat /\
  sym_iterator s = Ret o /\
  is_engine o = true /\
  traverse_twice 5 s w = (Ret (elements s, elements s), w) /\
  clone (advance 1 o w).1 = Ret o.
Proof.
  intros upstream s o w.
  split; [reflexivity|]. split; [simpl; lia|]. split; [reflexivity|].
  split; [reflexivity|].
  destruct (restart_yields_same_sequence s w 5) as [Htwice Hclone];
    [reflexivity|simpl; lia|].
  split; [exact Htwice|]. apply Hclone; reflexivity.
Defined.

(** The boundary the restartable chains are set against: a one-shot host
    iterator under the same stage is spent by the first traversal. *)
Example one_shot_is_single_pass :
  let s := SIterableQuery (STake (SIterableQuery (SHost (OneShot 0))) 2) in
  let w : World := {[ 0%nat := mkHost [VNum 1; VNum 2; VNum 3] 0 ]} in
  (traverse_twice 10 s w).1 = Ret ([VNum 1; VNum 2], [VNum 3]).
Proof. vm_compute. reflexivity. Qed.

(** ** [take] and [count] *)



(** The array-specialized stage counts the same. *)
Lemma take_array_count (array : list JsValue) (n : Z) (w : World)
    (fuel : nat) :
  0 <= n ->
  (length array < fuel)%nat ->
  Z.of_nat (length array) <= MAX_SAFE_INTEGER ->
  IterableQueryBase.count fuel (SIterableQuery (STakeArray array n)) None w =
  (Ret (Z.min n (Z.of_nat (length array))), w).
Proof.
  intros Hn Hfuel Hmax.
  assert (Hlen : Z.of_nat (length (elements (SIterableQuery (STakeArray array n))))
                 = Z.min n (Z.of_nat (length array))).
  { simpl. rewrite length_firstn. lia. }
  rewrite <- Hlen. apply count_spec.
  - simpl. apply Z.leb_le. exact Hn.
  - simpl. rewrite length_firstn. lia.
  - lia.
Qed.

(** ** [indexOf] and [findIndex] *)

Lemma fold_flow_index (test : JsValue -> bool) (l : list JsValue) (index : Z) :
  forallb (fun e => negb (test e)) l = true ->
  fold_flow (fun index e => if test e then Return index else Continue (index + 1))
    index l = Continue (index + Z.of_nat (length l)).
Proof.
  revert index; induction l as [|e l IH]; intros index Hall; simpl.
  - rewrite Z.add_0_r. reflexivity.
  - simpl in Hall. apply andb_prop in Hall as [He Hl].
    apply negb_true_iff in He. rewrite He, (IH _ Hl). f_equal. lia.
Qed.

(** C10, as the code has it.  For every finite non-empty restartable
    sequence [this] and value [v] that is [===] to no element of it,
    [indexOf(v)] returns the number of its elements, not [undefined]; so
    does [findIndex(p)] for a predicate [p] that no element satisfies. *)
Theorem index_of_absent :
  forall (this : Source) (v : JsValue) (p : JsValue -> bool) (w : World)
         (fuel : nat),
    restartable this = true ->
    (length (elements this) < fuel)%nat ->
    elements this <> [] ->
    forallb (fun e => negb (strict_equals e v)) (elements this) = true ->
    forallb (fun e => negb (p e)) (elements this) = true ->
    IterableQueryBase.indexOf fuel this v w =
      (Ret (VNum (Z.of_nat (length (elements this)))), w) /\
    IterableQueryBase.findIndex fuel this p w =
      (Ret (VNum (Z.of_nat (length (elements this)))), w).
Proof.
  intros this v p w fuel Hr Hfuel Hne Hv Hp.
  unfold IterableQueryBase.indexOf, IterableQueryBase.findIndex, mbind.
  rewrite isEmpty_spec by assumption.
  destruct (elements this) as [|e l] eqn:Hel; [congruence|].
  rewrite !for_of_spec by (try assumption; rewrite Hel; exact Hfuel).
  rewrite Hel.
  rewrite (fold_flow_index (fun e => strict_equals e v)) by exact Hv.
  rewrite (fold_flow_index p) by exact Hp.
  split; reflexivity.
Qed.

Lemma index_of_absent_witness :
  let this := Query_fromIterable (SArray [VNum 1; VNum 2]) in
  let v := VNum 7 in
  let p := fun e => strict_equals e (VStr "x") in
  let w : World := ∅ in
  restartable this = true /\
  (length (elements this) < 3)%nat /\
  elements this <> [] /\
  forallb (fun e => negb (strict_equals e v)) (elements this) = true /\
  forallb (fun e => negb (p e)) (elements this) = true /\
  IterableQueryBase.indexOf 3 this v w =
    (Ret (VNum (Z.of_nat (length (elements this)))), w) /\
  IterableQueryBase.findIndex 3 this p w =
    (Ret (VNum (Z.of_nat (length (elements this)))), w).
Proof.
  intros this v p w.
  split; [reflexivity|]. split; [simpl; lia|]. split; [discriminate|].
  split; [reflexivity|]. split; [reflexivity|].
  apply (index_of_absent this v p w 3);
    [reflexivity|simpl; lia|discriminate|reflexivity|reflexivity].
Defined.

(** C10, as stated, fails on a sequence that is not restartable: over a
    one-shot iterator that has the two elements 1, 2 the guard [isEmpty()]
    takes the first, and [indexOf] and [findIndex] count the one that is
    left. *)
Lemma index_of_absent_one_shot :
  let w : World := {[ 0%nat := mkHost [VNum 1; VNum 2] 0 ]} in
  let this := Query_fromIterable (SHost (OneShot 0)) in
  (IterableQueryBase.toArray 3 this w).1 = Ret [VNum 1; VNum 2] /\
  (IterableQueryBase.indexOf 3 this (VNum 7) w).1 = Ret (VNum 1) /\
  (IterableQueryBase.findIndex 3 this (fun _ => false) w).1 = Ret (VNum 1).
Proof. vm_compute. repeat split; reflexivity. Qed.

(** [undefined] is what both return on an empty sequence. *)
Lemma index_of_empty (this : Source) (v : JsValue) (p : JsValue -> bool)
    (w : World) (fuel : nat) :
  restartable this = true ->
  (0 < fuel)%nat ->
  elements this = [] ->
  IterableQueryBase.indexOf fuel this v w = (Ret VUndefined, w) /\
  IterableQueryBase.findIndex fuel this p w = (Ret VUndefined, w).
Proof.
  intros Hr Hfuel Hel.
  unfold IterableQueryBase.indexOf, IterableQueryBase.findIndex, mbind.
  rewrite isEmpty_spec by (try assumption; rewrite Hel; exact Hfuel).
  rewrite Hel. split; reflexivity.
Qed.

(** ** [min], [max], [single], [sort]: the tests on truthiness *)

(** C1.  [min()] on the sequence 0, 5 returns 5 and [max()] on the sequence
    0, -5 returns -5, whatever the comparator (it is not even called): a
    falsy current value is taken for "no value yet" and overwritten, so the
    result is not minimal, respectively maximal, in the natural order. *)
Theorem min_max_skip_falsy :
  forall (compare : option Compare) (w : World),
    IterableQueryBase.min 3 (Query_fromIterable (SArray [VNum 0; VNum 5])) compare w =
      (Ret (VNum 5), w) /\
    compareNatural (VNum 0) (VNum 5) = Some Less /\
    IterableQueryBase.max 3 (Query_fromIterable (SArray [VNum 0; VNum (-5)]))
      compare w =
      (Ret (VNum (-5)), w) /\
    compareNatural (VNum 0) (VNum (-5)) = Some Greater.
Proof.
  intros compare w. repeat split; reflexivity.
Qed.

(** C8.  [single()] on the two-element sequence 0, 1 returns 1, and
    [single(p)] on 0, 0 with both elements matching returns 0, where
    [undefined] is due: a falsy first match is taken for "no match yet". *)
Theorem single_skips_falsy :
  forall (w : World),
    IterableQueryBase.single 3 (Query_fromIterable (SArray [VNum 0; VNum 1])) None w =
      (Ret (VNum 1), w) /\
    IterableQueryBase.single 3 (Query_fromIterable (SArray [VNum 0; VNum 0]))
      (Some (fun _ => true)) w = (Ret (VNum 0), w).
Proof.
  intros w. split; reflexivity.
Qed.

(** C7.  [sort()] without a comparator on the numbers 10, 9, 1 yields
    1, 10, 9, the order of the string forms, in which 10 comes before 9
    although 9 is less than 10 in the natural order; [sortDecending()]
    without a comparator on the same input yields 10, 9, 1, which is the
    natural order reversed. *)
Theorem sort_default_is_not_natural :
  forall (w : World),
    let this := Query_fromIterable (SArray [VNum 10; VNum 9; VNum 1]) in
    IterableQueryBase.sort 4 this None w =
      (Ret (New (SIterableArrayQuery [VNum 1; VNum 10; VNum 9])), w) /\
    compareNatural (VNum 9) (VNum 10) = Some Less /\
    IterableQueryBase.sortDecending 4 this None w =
      (Ret (New (SIterableArrayQuery [VNum 10; VNum 9; VNum 1])), w).
Proof.
  intros w. repeat split; reflexivity.
Qed.

(** ** [min], [max] and [single] on sequences of truthy elements *)

(** The loop of [min]/[max] once the running value is truthy. *)
Lemma fold_flow_select (wanted : Ordering)
    (compare : JsValue -> JsValue -> option Ordering) (l : list JsValue)
    (v : JsValue) :
  truthy v = true ->
  forallb truthy l = true ->
  fold_flow (R := Empty_set)
    (fun value e =>
       if truthy value then
         if is_ordering wanted (compare e value) then Continue e
         else Continue value
       else Continue e) v l =
  Continue (fold_left
              (fun value e =>
                 if is_ordering wanted (compare e value) then e else value)
              l v).
Proof.
  revert v; induction l as [|e l IH]; intros v Hv Hl; simpl; [reflexivity|].
  simpl in Hl. apply andb_prop in Hl as [He Hl]. rewrite Hv.
  destruct (is_ordering wanted (compare e v)); apply IH; assumption.
Qed.

(** The running value is one of the elements seen and no element seen
    compares [wanted] to it, when [wanted] is irreflexive and transitive. *)
Lemma fold_left_select (wanted : Ordering) (compare : Compare) :
  (forall x, compare x x <> wanted) ->
  (forall x y z, compare x y = wanted -> compare y z = wanted ->
                 compare x z = wanted) ->
  forall (l seen : list JsValue) (v : JsValue),
    v ∈ seen ->
    (forall e, e ∈ seen -> compare e v <> wanted) ->
    let m := fold_left
               (fun value e =>
                  if is_ordering wanted (Some (compare e value)) then e else value)
               l v in
    m ∈ seen ++ l /\ forall e, e ∈ seen ++ l -> compare e m <> wanted.
Proof.
  intros Hirr Htrans l.
  induction l as [|x l IH]; intros seen v Hin Hmin; simpl.
  - rewrite app_nil_r. split; assumption.
  - replace (seen ++ x :: l) with ((seen ++ [x]) ++ l)
      by (rewrite <- app_assoc; reflexivity).
    destruct (Ordering_eqb (compare x v) wanted) eqn:Hc.
    + assert (Hxv : compare x v = wanted)
        by (destruct (compare x v), wanted; simpl in Hc; congruence).
      apply IH.
      * apply elem_of_app. right. left.
      * intros e He. apply elem_of_app in He as [He|He].
        -- intros Hex. apply (Hmin e He). exact (Htrans e x v Hex Hxv).
        -- apply list_elem_of_singleton in He as ->. apply Hirr.
    + assert (Hxv : compare x v <> wanted)
        by (destruct (compare x v), wanted; simpl in Hc; congruence).
      apply IH.
      * apply elem_of_app. left. exact Hin.
      * intros e He. apply elem_of_app in He as [He|He].
        -- exact (Hmin e He).
        -- apply list_elem_of_singleton in He as ->. exact Hxv.
Qed.

(** On a non-empty sequence of truthy elements, [min(compare)] returns an
    element to which no element compares [Less], and [max(compare)] one to
    which no element compares [Greater]. *)
Lemma min_max_on_truthy (this : Source) (compare : Compare) (w : World)
    (fuel : nat) :
  restartable this = true ->
  (length (elements this) < fuel)%nat ->
  elements this <> [] ->
  forallb truthy (elements this) = true ->
  (forall x, compare x x = Equal) ->
  (forall x y z o, compare x y = o -> compare y z = o -> compare x z = o) ->
  exists lo hi,
    IterableQueryBase.min fuel this (Some compare) w = (Ret lo, w) /\
    IterableQueryBase.max fuel this (Some compare) w = (Ret hi, w) /\
    lo ∈ elements this /\ hi ∈ elements this /\
    forall e, e ∈ elements this ->
              compare e lo <> Less /\ compare e hi <> Greater.
Proof.
  intros Hr Hfuel Hne Htruthy Hrefl Htrans.
  unfold IterableQueryBase.min, IterableQueryBase.max, mbind.
  rewrite !for_of_spec by assumption.
  destruct (elements this) as [|first rest]; [congruence|].
  simpl in Htruthy. apply andb_prop in Htruthy as [Hfirst Hrest].
  cbn [fold_flow truthy].
  rewrite (fold_flow_select Less (or_natural (Some compare))),
    (fold_flow_select Greater (or_natural (Some compare))) by assumption.
  assert (Hirr : forall wanted, wanted <> Equal ->
                                forall x, compare x x <> wanted).
  { intros wanted Hw x. rewrite Hrefl. congruence. }
  destruct (fold_left_select Less compare (Hirr Less ltac:(discriminate))
              (fun x y z => Htrans x y z Less) rest [first] first)
    as [Hlo Hlo']; [left|intros e He; apply list_elem_of_singleton in He as ->;
                        apply Hirr; discriminate|].
  destruct (fold_left_select Greater compare (Hirr Greater ltac:(discriminate))
              (fun x y z => Htrans x y z Greater) rest [first] first)
    as [Hhi Hhi']; [left|intros e He; apply list_elem_of_singleton in He as ->;
                        apply Hirr; discriminate|].
  eexists _, _. split; [reflexivity|]. split; [reflexivity|].
  split; [exact Hlo|]. split; [exact Hhi|].
  intros e He. split; [apply Hlo'|apply Hhi']; exact He.
Qed.

(** [byNumber] is a comparator the lemma applies to. *)
Example min_max_by_number :
  let this := Query_fromIterable (SArray [VNum 3; VNum 1; VNum 2]) in
  exists lo hi,
    IterableQueryBase.min 4 this (Some byNumber) ∅ = (Ret lo, ∅) /\
    IterableQueryBase.max 4 this (Some byNumber) ∅ = (Ret hi, ∅) /\
    lo ∈ elements this /\ hi ∈ elements this /\
    forall e, e ∈ elements this ->
              byNumber e lo <> Less /\ byNumber e hi <> Greater.
Proof.
  apply min_max_on_truthy; try reflexivity; try discriminate.
  - simpl. lia.
  - intros x. unfold byNumber. rewrite Z.compare_refl. reflexivity.
  - intros x y z o. unfold byNumber.
    destruct (Z.compare_spec (number_of x) (number_of y)),
      (Z.compare_spec (number_of y) (number_of z)); simpl; intros <-;
      try discriminate; intros _;
      [rewrite (proj2 (Z.compare_eq_iff _ _)) by lia
      |rewrite (proj2 (Z.compare_lt_iff _ _)) by lia
      |rewrite (proj2 (Z.compare_gt_iff _ _)) by lia]; reflexivity.
Qed.

(** On a sequence of truthy elements, [single()] returns the element of a
    one-element sequence and [undefined] otherwise, and [single(p)] does the
    same with the elements that match [p]. *)
Lemma fold_flow_single (test : JsValue -> bool) (l : list JsValue) :
  forallb truthy l = true ->
  result_of
    (fold_flow
       (fun result e =>
          if test e then
            if negb (truthy result) then Continue e else Return VUndefined
          else Continue result)
       VUndefined l) =
  match filter (fun e => test e = true) l with
  | [x] => x
  | _ => VUndefined
  end.
Proof.
  intros Hl.
  induction l as [|e l IH]; simpl; [reflexivity|].
  simpl in Hl. apply andb_prop in Hl as [He Hl].
  rewrite filter_cons. destruct (test e) eqn:Ht.
  - rewrite decide_True by reflexivity. simpl.
    clear IH. revert Hl. generalize e He. clear e He Ht.
    induction l as [|y l IH]; intros e He Hl; simpl; [reflexivity|].
    simpl in Hl. apply andb_prop in Hl as [Hy Hl].
    rewrite filter_cons. destruct (test y) eqn:Hty.
    + rewrite decide_True by reflexivity. rewrite He. reflexivity.
    + rewrite decide_False by discriminate. apply IH; assumption.
  - rewrite decide_False by discriminate. apply IH. exact Hl.
Qed.

Lemma single_on_truthy (this : Source) (p : JsValue -> bool) (w : World)
    (fuel : nat) :
  restartable this = true ->
  (length (elements this) < fuel)%nat ->
  forallb truthy (elements this) = true ->
  IterableQueryBase.single fuel this None w =
    (Ret (match elements this with [x] => x | _ => VUndefined end), w) /\
  IterableQueryBase.single fuel this (Some p) w =
    (Ret (match filter (fun e => p e = true) (elements this) with
          | [x] => x
          | _ => VUndefined
          end), w).
Proof.
  intros Hr Hfuel Htruthy.
  unfold IterableQueryBase.single, mbind.
  rewrite !for_of_spec by assumption. split.
  - pose proof (fold_flow_single (fun _ => true) (elements this) Htruthy) as H.
    simpl in H. unfold mret. rewrite H. do 2 f_equal.
    assert (Hf : filter (fun _ : JsValue => true = true) (elements this) =
                 elements this).
    { clear. induction (elements this) as [|e l IH]; [reflexivity|].
      rewrite filter_cons, decide_True by reflexivity. rewrite IH. reflexivity. }
    rewrite Hf. reflexivity.
  - unfold mret. rewrite (fold_flow_single p) by assumption. reflexivity.
Qed.

(** ** [sortBy] on the example of the specification *)

(** [sortBy(x => x.key)] on [{key:2,v:"a"}, {key:1,v:"b"}, {key:2,v:"c"}]
    yields [{key:1,v:"b"}, {key:2,v:"a"}, {key:2,v:"c"}]: the two entries
    with key 2 keep their order. *)
Example sortBy_keeps_equal_keys_in_order :
  forall (w : World),
    let a := keyed_record 1 2 "a" in
    let b := keyed_record 2 1 "b" in
    let c := keyed_record 3 2 "c" in
    IterableQueryBase.sortBy 4 (Query_fromIterable (SArray [a; b; c]))
      (field "key") None w =
    (Ret (New (SIterableArrayQuery [b; a; c])), w).
Proof. intros w. reflexivity. Qed.

(** [sort(compare)] with the natural order as an explicit comparator puts
    10, 9, 1 in the order 1, 9, 10. *)
Example sort_with_comparator :
  forall (w : World),
    IterableQueryBase.sort 4
      (Query_fromIterable (SArray [VNum 10; VNum 9; VNum 1])) (Some byNumber) w =
    (Ret (New (SIterableArrayQuery [VNum 1; VNum 9; VNum 10])), w).
Proof. intros w. reflexivity. Qed.

(** ** [reduce] and [fold] *)

Lemma fold_flow_fold_left {A} (f : A -> JsValue -> A) (l : list JsValue)
    (acc : A) :
  fold_flow (R := Empty_set) (fun result e => Continue (f result e)) acc l =
  Continue (fold_left f l acc).
Proof.
  revert acc; induction l as [|e l IH]; intros acc; simpl; [reflexivity|].
  apply IH.
Qed.

(** [reduce] on a restartable sequence, falsy first element included. *)
Lemma reduce_spec (fuel : nat) (s : Source)
    (reducer : JsValue -> JsValue -> JsValue) (w : World) :
  restartable s = true ->
  (length (elements s) < fuel)%nat ->
  IterableQueryBase.reduce fuel s reducer w =
  (Ret (match elements s with
        | [] => VUndefined
        | first :: rest =>
            if truthy first then fold_left reducer rest first else first
        end), w).
Proof.
  intros Hr Hfuel.
  destruct (sym_iterator_spec s Hr) as (o & Ho & Hs & Hrem).
  destruct (next_spec o w Hs) as (o' & Hnext & Hs' & Hrem').
  unfold IterableQueryBase.reduce, mbind, lift. rewrite Ho, Hnext.
  rewrite Hrem in *.
  destruct (elements s) as [|first rest]; simpl; [reflexivity|].
  destruct (truthy first); [|reflexivity].
  rewrite for_of_loop_spec; rewrite ?Hrem'; simpl in *; try assumption; try lia.
  rewrite fold_flow_fold_left. reflexivity.
Qed.

Lemma fold_spec {TResult} (fuel : nat) (s : Source) (initialValue : TResult)
    (combine : TResult -> JsValue -> TResult) (w : World) :
  restartable s = true ->
  (length (elements s) < fuel)%nat ->
  IterableQueryBase.fold fuel s initialValue combine w =
  (Ret (fold_left combine (elements s) initialValue), w).
Proof.
  intros Hr Hfuel. unfold IterableQueryBase.fold, mbind.
  rewrite isEmpty_spec by assumption.
  destruct (elements s) as [|e l] eqn:Hel; [reflexivity|].
  rewrite for_of_spec by (try assumption; rewrite Hel; exact Hfuel).
  rewrite Hel, fold_flow_fold_left. reflexivity.
Qed.

(** [fold] over an exhausted one-shot iterator: [isEmpty()] asks it once. *)
Lemma fold_probes_one_shot {TResult} (fuel : nat) (id calls : nat)
    (initialValue : TResult) (combine : TResult -> JsValue -> TResult)
    (w : World) :
  w !! id = Some (mkHost [] calls) ->
  IterableQueryBase.fold (S fuel) (Query_fromIterable (SHost (OneShot id)))
    initialValue combine w =
  (Ret initialValue, <[id := mkHost [] (S calls)]> w).
Proof.
  intros Hw. unfold IterableQueryBase.fold, IterableQueryBase.isEmpty, for_of,
    mbind, lift. simpl. rewrite Hw. reflexivity.
Qed.

(** A result that is [done] carries no value. *)
Lemma next_done_value (o : Cursor) :
  forall (w : World),
    done (next o w).1.1 = true -> (next o w).1.1 = iteratorDone.
Proof.
  induction o as [h|generator seed len index prev|source iterator IH count index
                  |source count index|source iterator IH append item hasItem
                  |source append item hasItem index]; intros w; cbn [next].
  - destruct h as [array index|id]; cbn [host_next].
    + destruct (array !! index); [discriminate|reflexivity].
    + destruct (w !! id) as [[[|v rest] calls]|]; simpl;
        first [discriminate|reflexivity].
  - destruct (index <? len); [discriminate|reflexivity].
  - destruct (index =? count); [reflexivity|].
    specialize (IH w). destruct (next iterator w) as [[r it'] w']. exact IH.
  - destruct ((index <? count) && (index <? Z.of_nat (length source)));
      [discriminate|reflexivity].
  - specialize (IH w). destruct append.
    + destruct (next iterator w) as [[r it'] w']. simpl in IH |- *.
      destruct (done r) eqn:Hr; simpl.
      * destruct hasItem; simpl; [discriminate|]. intros _. apply IH. reflexivity.
      * rewrite Hr. discriminate.
    + destruct hasItem; [discriminate|].
      destruct (next iterator w) as [[r it'] w']. exact IH.
  - destruct (negb hasItem && (index =? Z.of_nat (length source)));
      [reflexivity|].
    destruct append.
    + destruct (hasItem && (index =? Z.of_nat (length source))); discriminate.
    + destruct hasItem; discriminate.
Qed.

(** C2, as the code has it.  On an empty sequence, restartable or not
    (one whose cursor answers [done] to the first call of [next()]),
    [reduce(f)] returns [undefined], whatever [f], and [fold(seed, g)]
    returns the seed, whatever [g]; [fold] does so after [isEmpty()] has
    asked the source for a cursor and called its [next()] once: the store
    is left as that one call leaves it. *)
Theorem reduce_fold_amended :
  forall {TResult} (this : Source) (o : Cursor)
         (f : JsValue -> JsValue -> JsValue) (seed : TResult)
         (g : TResult -> JsValue -> TResult) (w : World) (fuel : nat),
    sym_iterator this = Ret o ->
    done (next o w).1.1 = true ->
    IterableQueryBase.reduce fuel this f w = (Ret VUndefined, (next o w).2) /\
    IterableQueryBase.fold (S fuel) this seed g w = (Ret seed, (next o w).2).
Proof.
  intros TResult this o f seed g w fuel Ho Hdone.
  pose proof (next_done_value o w Hdone) as Hvalue.
  unfold IterableQueryBase.reduce, IterableQueryBase.fold,
    IterableQueryBase.isEmpty, for_of, mbind, lift, mret.
  rewrite Ho. cbn [for_of_loop].
  destruct (next o w) as [[r o'] w']. simpl in Hvalue, Hdone |- *.
  subst r. split; reflexivity.
Qed.

Lemma reduce_fold_amended_witness :
  let this := Query_fromIterable (SHost (OneShot 0)) in
  let o := Host (OneShot 0) in
  let w : World := {[ 0%nat := mkHost [] 0 ]} in
  sym_iterator this = Ret o /\
  done (next o w).1.1 = true /\
  IterableQueryBase.reduce 4 this js_add w =
    (Ret VUndefined, <[0%nat := mkHost [] 1]> w) /\
  IterableQueryBase.fold 4 this (VNum 0) js_add w =
    (Ret (VNum 0), <[0%nat := mkHost [] 1]> w).
Proof.
  intros this o w. split; [reflexivity|]. split; [reflexivity|].
  apply (reduce_fold_amended this o js_add (VNum 0) js_add w 3);
    reflexivity.
Defined.

(** C2, as stated, fails: [fold(0, +)] on an empty one-shot source does
    touch the source, it calls its [next()]. *)
Lemma reduce_fold_counterexample :
  let w : World := {[ 0%nat := mkHost [] 0 ]} in
  (IterableQueryBase.fold 4 (Query_fromIterable (SHost (OneShot 0)))
     (VNum 0) js_add w).1 = Ret (VNum 0) /\
  nextCalls <$>
    (IterableQueryBase.fold 4 (Query_fromIterable (SHost (OneShot 0)))
       (VNum 0) js_add w).2 !! 0%nat = Some 1%nat /\
  nextCalls <$> w !! 0%nat = Some 0%nat.
Proof. vm_compute. repeat split; reflexivity. Qed.

(** The test [if (result)] of [reduce] takes a falsy first element for "no
    element": [reduce(+)] on 0, 1, 2 returns 0, where the left fold is 3.
    With a truthy first element it returns the left fold ([reduce_spec]). *)
Example reduce_stops_at_a_falsy_first :
  (IterableQueryBase.reduce 4
     (Query_fromIterable (SArray [VNum 0; VNum 1; VNum 2])) js_add ∅).1
    = Ret (VNum 0) /\
  fold_left js_add [VNum 1; VNum 2] (VNum 0) = VNum 3 /\
  (IterableQueryBase.reduce 4
     (Query_fromIterable (SArray [VNum 1; VNum 2; VNum 3])) js_add ∅).1
    = Ret (VNum 6).
Proof. vm_compute. repeat split; reflexivity. Qed.

(** ** Invalid arguments *)

(** C6.  A negative count for [take] (generic or array-specialized), a
    negative length for the recurrence generator, a zero step and a
    non-positive chunk size make the constructing call throw; [take]
    throws before it asks the upstream for a cursor, whatever that request
    would do; in particular [take(-1)] and [chunk(0)] throw. *)
Theorem invalid_arguments_fail_at_construction :
  forall (this : Source) (array : list JsValue) (n len size : Z)
         (generator : Z -> JsValue -> JsValue) (seed : JsValue)
         (start end_ : Z) (incl : bool) (fresh : outcome Cursor),
    n < 0 -> len < 0 -> size <= 0 ->
    IterableQueryBase.take this n = Throw ("Invalid argument: " +:+ pretty n) /\
    new_TakeIterable_from fresh this n =
      Throw ("Invalid argument: " +:+ pretty n) /\
    new_TakeArrayIterable array n = Throw ("Invalid argument: " +:+ pretty n) /\
    Query_generate len generator seed = Throw "length cannot be 0" /\
    (exists e, new_RangeIterable start end_ 0 incl = Throw e) /\
    (exists e, new_ChunkIterable this size = Throw e) /\
    IterableQueryBase.take this (-1) = Throw "Invalid argument: -1" /\
    (exists e, new_ChunkIterable this 0 = Throw e).
Proof.
  intros this array n len size generator seed start end_ incl fresh Hn Hlen Hsz.
  unfold IterableQueryBase.take, new_TakeIterable, new_TakeIterable_from,
    new_TakeArrayIterable, Query_generate, new_IterableGenerator,
    new_RangeIterable, new_ChunkIterable.
  destruct (Z.ltb_spec n 0); [|lia].
  destruct (Z.ltb_spec len 0); [|lia].
  destruct (Z.leb_spec size 0); [|lia].
  simpl. repeat split; try reflexivity; eexists; reflexivity.
Qed.

Lemma invalid_arguments_fail_at_construction_witness :
  let this := Query_from [VNum 1] in
  let generator := fun (i : Z) (_ : JsValue) => VNum i in
  -1 < 0 /\ -2 < 0 /\ 0 <= 0 /\
  IterableQueryBase.take this (-1) = Throw ("Invalid argument: " +:+ pretty (-1)) /\
  new_TakeIterable_from OutOfFuel this (-1) =
    Throw ("Invalid argument: " +:+ pretty (-1)) /\
  new_TakeArrayIterable [VNum 1] (-1) =
    Throw ("Invalid argument: " +:+ pretty (-1)) /\
  Query_generate (-2) generator VUndefined = Throw "length cannot be 0" /\
  (exists e, new_RangeIterable 1 5 0 false = Throw e) /\
  (exists e, new_ChunkIterable this 0 = Throw e) /\
  IterableQueryBase.take this (-1) = Throw "Invalid argument: -1" /\
  (exists e, new_ChunkIterable this 0 = Throw e).
Proof.
  intros this generator.
  split; [lia|]. split; [lia|]. split; [lia|].
  apply (invalid_arguments_fail_at_construction this [VNum 1] (-1) (-2) 0
           generator VUndefined 1 5 false OutOfFuel); lia.
Defined.

(** ** Handles *)

Lemma alloc_fresh (heap : Heap) (this : nat) (o o' : Source) (w : World) :
  heap !! this = Some o ->
  fresh_handle heap this w (Ret (length heap), heap ++ [o'], w).
Proof.
  intros Hthis. exists (length heap), (heap ++ [o']).
  split; [reflexivity|]. split; [|split; [|split]].
  - apply lookup_lt_Some in Hthis. lia.
  - apply lookup_ge_None. lia.
  - exists o'. rewrite lookup_app_r by lia.
    rewrite Nat.sub_diag. reflexivity.
  - intros a oa Ha. rewrite lookup_app_l; [exact Ha|].
    apply lookup_lt_Some in Ha. exact Ha.
Qed.

(** C9, as the code has it.  On every well-built handle, one-shot or not,
    [take], [append] and [prepend] return a new handle, distinct from the
    receiver, and leave every existing handle and the store as they were.
    On a handle over a restartable sequence [defaultIfEmpty] does so when
    the receiver is empty, and returns the receiver itself, with nothing
    changed, when it is not. *)
Theorem chain_methods_amended :
  forall (heap : Heap) (this : nat) (o : Source) (w : World) (fuel : nat)
         (n : Z) (v : JsValue) (defaultValue : Source),
    heap !! this = Some o ->
    well_built o = true ->
    0 <= n ->
    fresh_handle heap this w
      (invoke heap this (fun this => lift (IterableQueryBase.take this n)) w) /\
    fresh_handle heap this w
      (invoke heap this (fun this => lift (IterableQueryBase.append this v)) w) /\
    fresh_handle heap this w
      (invoke heap this (fun this => lift (IterableQueryBase.prepend this v)) w) /\
    (restartable o = true ->
     (length (elements o) < fuel)%nat ->
     match elements o with
     | [] =>
         fresh_handle heap this w
           (invoke heap this
              (fun this => IterableQueryBase.defaultIfEmpty fuel this defaultValue)
              w)
     | _ :: _ =>
         invoke heap this
           (fun this => IterableQueryBase.defaultIfEmpty fuel this defaultValue) w =
         (Ret this, heap, w)
     end).
Proof.
  intros heap this o w fuel n v defaultValue Hthis Hw Hn.
  destruct (append_prepend_spec o v Hw) as [Happ Hpre].
  unfold invoke, lift. rewrite Hthis, (take_spec o n Hw Hn), Happ, Hpre.
  repeat (split; [eapply alloc_fresh; exact Hthis|]).
  intros Hr Hfuel.
  unfold IterableQueryBase.defaultIfEmpty, mbind.
  rewrite isEmpty_spec by assumption.
  destruct (elements o) as [|e l]; [|reflexivity].
  destruct (IterableQueryBase.isArray defaultValue);
    eapply alloc_fresh; exact Hthis.
Qed.

Lemma chain_methods_amended_witness :
  let o := Query_fromIterable (SArray [VNum 1; VNum 2]) in
  let heap : Heap := [o] in
  let this := 0%nat in
  let w : World := ∅ in
  let defaultValue := SArray [VNum 7] in
  heap !! this = Some o /\
  well_built o = true /\
  0 <= 1 /\
  restartable o = true /\
  (length (elements o) < 3)%nat /\
  fresh_handle heap this w
    (invoke heap this (fun this => lift (IterableQueryBase.take this 1)) w) /\
  fresh_handle heap this w
    (invoke heap this (fun this => lift (IterableQueryBase.append this (VNum 0))) w) /\
  fresh_handle heap this w
    (invoke heap this (fun this => lift (IterableQueryBase.prepend this (VNum 0))) w) /\
  invoke heap this
    (fun this => IterableQueryBase.defaultIfEmpty 3 this defaultValue) w =
  (Ret this, heap, w).
Proof.
  intros o heap this w defaultValue.
  split; [reflexivity|]. split; [reflexivity|]. split; [lia|].
  split; [reflexivity|]. split; [simpl; lia|].
  destruct (chain_methods_amended heap this o w 3 1 (VNum 0) defaultValue)
    as (Htake & Happend & Hprepend & Hdefault); [reflexivity|reflexivity|lia|].
  split; [exact Htake|]. split; [exact Happend|]. split; [exact Hprepend|].
  apply Hdefault; [reflexivity|simpl; lia].
Defined.

(** On a one-shot receiver [defaultIfEmpty] does change the wrapped
    sequence: [isEmpty()] takes its first element. *)
Example defaultIfEmpty_consumes_one_shot :
  let heap : Heap := [Query_fromIterable (SHost (OneShot 0))] in
  let w : World := {[ 0%nat := mkHost [VNum 1; VNum 2] 0 ]} in
  (invoke heap 0
     (fun this => IterableQueryBase.defaultIfEmpty 2 this (SArray [])) w).2 !! 0%nat
  = Some (mkHost [VNum 2] 1).
Proof. vm_compute. reflexivity. Qed.

(** C9, as stated, fails: [defaultIfEmpty] on a non-empty handle returns
    the receiver, not a new handle. *)
Lemma defaultIfEmpty_returns_receiver :
  let heap : Heap := [Query_fromIterable (SArray [VNum 1])] in
  (invoke heap 0
     (fun this => IterableQueryBase.defaultIfEmpty 2 this (SArray [VNum 7])) ∅).1
  = (Ret 0%nat, heap).
Proof. reflexivity. Qed.

(** * Further properties of the facade and the stages *)

(** ** [===] and SameValueZero *)

(** [===] is symmetric and transitive; it is reflexive on everything but
    [NaN]. *)
Lemma strict_equals_sym (x y : JsValue) : strict_equals x y = strict_equals y x.
Proof.
  destruct x, y; simpl; try reflexivity;
    first [apply Z.eqb_sym|apply String.eqb_sym|apply Nat.eqb_sym|idtac].
  destruct b, b0; reflexivity.
Qed.

Lemma strict_equals_trans (x y z : JsValue) :
  strict_equals x y = true -> strict_equals y z = true ->
  strict_equals x z = true.
Proof.
  destruct x, y; simpl; try discriminate; destruct z; simpl;
    try discriminate; try reflexivity.
  - destruct b, b0, b1; simpl; congruence.
  - intros H1 H2. apply Z.eqb_eq in H1, H2. apply Z.eqb_eq. congruence.
  - intros H1 H2. apply String.eqb_eq in H1, H2. apply String.eqb_eq. congruence.
  - intros H1 H2. apply Nat.eqb_eq in H1, H2. apply Nat.eqb_eq. congruence.
Qed.

Lemma strict_equals_refl (v : JsValue) : v <> VNaN -> strict_equals v v = true.
Proof.
  destruct v; simpl; intros Hv; try reflexivity.
  - destruct b; reflexivity.
  - apply Z.eqb_refl.
  - congruence.
  - apply String.eqb_refl.
  - apply Nat.eqb_refl.
Qed.

(** What is [===] to something is [===] to itself. *)
Lemma strict_equals_self (x y : JsValue) :
  strict_equals x y = true -> strict_equals x x = true.
Proof.
  intros Hxy. apply (strict_equals_trans x y x); [exact Hxy|].
  rewrite strict_equals_sym. exact Hxy.
Qed.

(** SameValueZero is an equivalence, and coarser than [===]. *)
Lemma same_value_zero_refl (v : JsValue) : same_value_zero v v = true.
Proof.
  destruct v; simpl; try reflexivity.
  - destruct b; reflexivity.
  - apply Z.eqb_refl.
  - apply String.eqb_refl.
  - apply Nat.eqb_refl.
Qed.

Lemma same_value_zero_sym (x y : JsValue) :
  same_value_zero x y = same_value_zero y x.
Proof.
  destruct x, y; simpl; try reflexivity;
    first [apply Z.eqb_sym|apply String.eqb_sym|apply Nat.eqb_sym|idtac].
  destruct b, b0; reflexivity.
Qed.

Lemma same_value_zero_trans (x y z : JsValue) :
  same_value_zero x y = true -> same_value_zero y z = true ->
  same_value_zero x z = true.
Proof.
  destruct x, y; simpl; try discriminate; destruct z; simpl;
    try discriminate; try reflexivity.
  - destruct b, b0, b1; simpl; congruence.
  - intros H1 H2. apply Z.eqb_eq in H1, H2. apply Z.eqb_eq. congruence.
  - intros H1 H2. apply String.eqb_eq in H1, H2. apply String.eqb_eq. congruence.
  - intros H1 H2. apply Nat.eqb_eq in H1, H2. apply Nat.eqb_eq. congruence.
Qed.

Lemma strict_equals_same_value (x y : JsValue) :
  strict_equals x y = true -> same_value_zero x y = true.
Proof. destruct x, y; simpl; congruence. Qed.

(** ** Loop bodies that differ in form only *)

Lemma fold_flow_ext {A R} (f g : A -> JsValue -> Flow A R) (l : list JsValue) :
  (forall acc e, f acc e = g acc e) ->
  forall acc, fold_flow f acc l = fold_flow g acc l.
Proof.
  intros Hfg. induction l as [|e l IH]; intros acc; simpl; [reflexivity|].
  rewrite Hfg. destruct (g acc e); [apply IH|reflexivity].
Qed.

(** ** [takeLast] *)

Lemma fold_flow_takeLast (n : Z) (l : list JsValue) :
  0 < n ->
  forall acc,
    Z.of_nat (length acc) <= n ->
    fold_flow (R := Empty_set)
      (fun array e =>
         if Z.of_nat (length array) <? n then Continue (array ++ [e])
         else Continue (tail array ++ [e]))
      acc l =
    Continue (last_n (Z.to_nat n) (acc ++ l)).
Proof.
  intros Hn. unfold last_n.
  induction l as [|e l IH]; intros acc Hacc; simpl.
  - rewrite app_nil_r.
    replace (length acc - Z.to_nat n)%nat with O by lia. reflexivity.
  - destruct (Z.ltb_spec (Z.of_nat (length acc)) n) as [Hlt|Hge].
    + rewrite IH by (rewrite length_app; simpl; lia).
      rewrite <- app_assoc. reflexivity.
    + destruct acc as [|a t]; [simpl in Hge; lia|]. simpl tail.
      rewrite IH by (rewrite length_app; simpl in *; lia).
      rewrite <- app_assoc. simpl.
      assert (Hlen : length (t ++ e :: l) = (length t + S (length l))%nat)
        by (rewrite length_app; reflexivity).
      simpl in Hacc, Hge.
      replace (length (t ++ e :: l) - Z.to_nat n)%nat with (length l) by lia.
      replace (S (length (t ++ e :: l)) - Z.to_nat n)%nat
        with (S (length l)) by lia.
      reflexivity.
Qed.



(** ** [distinct], [distinctBy] and [union] *)

(** The loop the three share: an element is pushed unless an element of the
    array is related to it.  Every element that is related to itself ends up
    related to an element of the array. *)
Lemma fold_flow_dedup (rel : JsValue -> JsValue -> bool) (l : list JsValue) :
  forall acc,
    exists ext,
      fold_flow (R := Empty_set)
        (fun array e =>
           if negb (existsb (fun c => rel c e) array) then Continue (array ++ [e])
           else Continue array)
        acc l = Continue (acc ++ ext) /\
      sublist ext l /\
      added_fresh rel acc ext = true /\
      forallb (fun e => implb (rel e e)
                          (existsb (fun c => rel c e) (acc ++ ext))) l = true.
Proof.
  induction l as [|e l IH]; intros acc; simpl.
  - exists []. rewrite app_nil_r. repeat split. constructor.
  - destruct (existsb (fun c => rel c e) acc) eqn:He; simpl.
    + destruct (IH acc) as (ext & Hfold & Hsub & Hfresh & Hall).
      exists ext. split; [exact Hfold|]. split; [constructor; exact Hsub|].
      split; [exact Hfresh|].
      rewrite existsb_app, He. simpl. rewrite implb_true_r. exact Hall.
    + destruct (IH (acc ++ [e])) as (ext & Hfold & Hsub & Hfresh & Hall).
      exists (e :: ext). rewrite <- app_assoc in Hfold, Hall. simpl in Hfold, Hall.
      split; [exact Hfold|]. split; [constructor; exact Hsub|].
      split; [simpl; rewrite He; exact Hfresh|].
      rewrite existsb_app. simpl.
      destruct (rel e e); simpl; [rewrite orb_true_r|]; exact Hall.
Qed.

(** Being fresh for a relation is being fresh for a finer one. *)
Lemma added_fresh_finer (rel rel' : JsValue -> JsValue -> bool)
    (ext : list JsValue) :
  (forall x y, rel' x y = true -> rel x y = true) ->
  forall seen,
    added_fresh rel seen ext = true -> added_fresh rel' seen ext = true.
Proof.
  intros Hfiner. induction ext as [|x ext IH]; intros seen; simpl;
    [reflexivity|].
  intros H. apply andb_prop in H as [Hx Hext].
  rewrite (IH _ Hext), andb_true_r.
  apply negb_true_iff. apply negb_true_iff in Hx.
  clear IH Hext. induction seen as [|c seen IHs]; [reflexivity|].
  simpl in Hx. apply orb_false_elim in Hx as [Hc Hs].
  simpl. rewrite (IHs Hs), orb_false_r.
  destruct (rel' c x) eqn:Hr; [|reflexivity].
  rewrite (Hfiner _ _ Hr) in Hc. discriminate.
Qed.

(** With a reflexive relation every element ends up related to an element
    of the array. *)
Lemma forallb_implb_refl (rel : JsValue -> JsValue -> bool)
    (found : JsValue -> bool) (l : list JsValue) :
  (forall x, rel x x = true) ->
  forallb (fun e => implb (rel e e) (found e)) l = true ->
  forallb found l = true.
Proof.
  intros Hrefl. induction l as [|e l IH]; simpl; [reflexivity|].
  rewrite Hrefl. simpl. intros H. apply andb_prop in H as [He Hl].
  rewrite He, (IH Hl). reflexivity.
Qed.

(** X2.  [distinct()] on a restartable sequence returns a subsequence of
    it (the order is kept) in which no element is [===] to an earlier one
    and which includes every element of the sequence. *)
Theorem distinct_keeps_first_occurrences :
  forall (this : Source) (w : World) (fuel : nat),
    restartable this = true ->
    (length (elements this) < fuel)%nat ->
    exists d,
      IterableQueryBase.distinct fuel this w =
        (Ret (New (SIterableArrayQuery d)), w) /\
      sublist d (elements this) /\
      pairwise_distinct strict_equals d = true /\
      forallb (includes d) (elements this) = true.
Proof.
  intros this w fuel Hr Hfuel.
  destruct (fold_flow_dedup same_value_zero (elements this) [])
    as (d & Hfold & Hsub & Hfresh & Hall).
  exists d. unfold IterableQueryBase.distinct, mbind.
  rewrite for_of_spec by assumption. unfold includes at 1.
  rewrite Hfold. split; [reflexivity|]. split; [exact Hsub|]. split.
  - apply (added_fresh_finer same_value_zero);
      [exact strict_equals_same_value|exact Hfresh].
  - apply (forallb_implb_refl same_value_zero);
      [exact same_value_zero_refl|exact Hall].
Qed.

Lemma distinct_keeps_first_occurrences_witness :
  let this := Query_fromIterable (SArray [VNum 1; VNum 2; VNum 2; VNum 1]) in
  let w : World := ∅ in
  restartable this = true /\
  (length (elements this) < 5)%nat /\
  exists d,
    IterableQueryBase.distinct 5 this w = (Ret (New (SIterableArrayQuery d)), w) /\
    sublist d (elements this) /\
    pairwise_distinct strict_equals d = true /\
    forallb (includes d) (elements this) = true.
Proof.
  intros this w. split; [reflexivity|]. split; [simpl; lia|].
  apply (distinct_keeps_first_occurrences this w 5); [reflexivity|simpl; lia].
Defined.



(** X4.  [union(elements)] of two restartable sequences returns all the
    elements of the receiver, duplicates included, followed by a
    subsequence of the other elements, each of which is [===] to nothing
    before it; every element of the other sequence is included in the
    result. *)
Theorem union_appends_new_elements :
  forall (this other : Source) (w : World) (fuel : nat),
    restartable this = true ->
    restartable other = true ->
    (length (elements this) < fuel)%nat ->
    (length (elements other) < fuel)%nat ->
    exists ext,
      IterableQueryBase.union fuel this other w =
        (Ret (New (SIterableArrayQuery (elements this ++ ext))), w) /\
      sublist ext (elements other) /\
      added_fresh strict_equals (elements this) ext = true /\
      forallb (includes (elements this ++ ext)) (elements other) = true.
Proof.
  intros this other w fuel Hr Hro Hfuel Hfuelo.
  destruct (fold_flow_dedup same_value_zero (elements other) (elements this))
    as (ext & Hfold & Hsub & Hfresh & Hall).
  exists ext. unfold IterableQueryBase.union, mbind.
  rewrite toArray_spec by assumption.
  rewrite for_of_spec by assumption. unfold includes at 1.
  rewrite Hfold. split; [reflexivity|]. split; [exact Hsub|]. split.
  - apply (added_fresh_finer same_value_zero);
      [exact strict_equals_same_value|exact Hfresh].
  - apply (forallb_implb_refl same_value_zero);
      [exact same_value_zero_refl|exact Hall].
Qed.

Lemma union_appends_new_elements_witness :
  let this := Query_fromIterable (SArray [VNum 1; VNum 1; VNum 2]) in
  let other := Query_fromIterable (SArray [VNum 2; VNum 3; VNum 3]) in
  let w : World := ∅ in
  restartable this = true /\
  restartable other = true /\
  (length (elements this) < 4)%nat /\
  (length (elements other) < 4)%nat /\
  exists ext,
    IterableQueryBase.union 4 this other w =
      (Ret (New (SIterableArrayQuery (elements this ++ ext))), w) /\
    sublist ext (elements other) /\
    added_fresh strict_equals (elements this) ext = true /\
    forallb (includes (elements this ++ ext)) (elements other) = true.
Proof.
  intros this other w.
  split; [reflexivity|]. split; [reflexivity|].
  split; [simpl; lia|]. split; [simpl; lia|].
  apply (union_appends_new_elements this other w 4);
    [reflexivity|reflexivity|simpl; lia|simpl; lia].
Defined.

(** ** [except], [intersect] and [reversed] *)

Lemma fold_flow_filter (keep : JsValue -> bool) (l : list JsValue) :
  forall acc,
    fold_flow (R := Empty_set)
      (fun array e => if keep e then Continue (array ++ [e]) else Continue array)
      acc l = Continue (acc ++ List.filter keep l).
Proof.
  induction l as [|e l IH]; intros acc; simpl.
  - rewrite app_nil_r. reflexivity.
  - destruct (keep e); rewrite IH; [rewrite <- app_assoc|]; reflexivity.
Qed.

(** X5.  On restartable sequences, [intersect(elements)] returns the
    elements of the receiver that the other sequence includes and
    [except(elements)] those it does not, both in the order of the receiver:
    between them they hold every element of the receiver once. *)
Theorem except_and_intersect_split_the_receiver :
  forall (this other : Source) (w : World) (fuel : nat),
    restartable this = true ->
    restartable other = true ->
    (length (elements this) < fuel)%nat ->
    (length (elements other) < fuel)%nat ->
    let shared := List.filter (includes (elements other)) (elements this) in
    let rest :=
      List.filter (fun e => negb (includes (elements other) e)) (elements this) in
    IterableQueryBase.intersect fuel this other w =
      (Ret (New (SIterableArrayQuery shared)), w) /\
    IterableQueryBase.except fuel this other w =
      (Ret (New (SIterableArrayQuery rest)), w) /\
    (length shared + length rest = length (elements this))%nat.
Proof.
  intros this other w fuel Hr Hro Hfuel Hfuelo shared rest.
  unfold IterableQueryBase.intersect, IterableQueryBase.except, mbind.
  rewrite !toArray_spec by assumption.
  rewrite !for_of_spec by assumption.
  rewrite (fold_flow_filter (includes (elements other))).
  rewrite (fold_flow_filter (fun e => negb (includes (elements other) e))).
  repeat split. apply List.filter_length.
Qed.

Lemma except_and_intersect_split_the_receiver_witness :
  let this := Query_fromIterable (SArray [VNum 1; VNum 2; VNum 3]) in
  let other := Query_fromIterable (SArray [VNum 2; VNum 4]) in
  let w : World := ∅ in
  restartable this = true /\
  restartable other = true /\
  (length (elements this) < 4)%nat /\
  (length (elements other) < 4)%nat /\
  IterableQueryBase.intersect 4 this other w =
    (Ret (New (SIterableArrayQuery [VNum 2])), w) /\
  IterableQueryBase.except 4 this other w =
    (Ret (New (SIterableArrayQuery [VNum 1; VNum 3])), w).
Proof.
  intros this other w.
  split; [reflexivity|]. split; [reflexivity|].
  split; [simpl; lia|]. split; [simpl; lia|].
  destruct (except_and_intersect_split_the_receiver this other w 4)
    as (Hi & He & _); [reflexivity|reflexivity|simpl; lia|simpl; lia|].
  split; [exact Hi|exact He].
Defined.

(** X6.  [reversed()] on a restartable sequence returns its elements in
    reverse order, and reversing the result gives the elements back. *)
Theorem reversed_twice_is_the_sequence :
  forall (this : Source) (w : World) (fuel : nat),
    restartable this = true ->
    (length (elements this) < fuel)%nat ->
    exists once twice,
      IterableQueryBase.reversed fuel this w = (Ret (New once), w) /\
      elements once = rev (elements this) /\
      IterableQueryBase.reversed fuel once w = (Ret (New twice), w) /\
      elements twice = elements this.
Proof.
  intros this w fuel Hr Hfuel.
  exists (SIterableArrayQuery (rev (elements this))),
         (SIterableArrayQuery (elements this)).
  unfold IterableQueryBase.reversed, mbind.
  rewrite toArray_spec by assumption.
  split; [reflexivity|]. split; [reflexivity|].
  rewrite toArray_spec; [|reflexivity|simpl; rewrite length_rev; exact Hfuel].
  simpl. rewrite rev_involutive. split; reflexivity.
Qed.

Lemma reversed_twice_is_the_sequence_witness :
  let this := Query_fromIterable (SArray [VNum 1; VNum 2; VNum 3]) in
  let w : World := ∅ in
  restartable this = true /\
  (length (elements this) < 4)%nat /\
  exists once twice,
    IterableQueryBase.reversed 4 this w = (Ret (New once), w) /\
    elements once = rev (elements this) /\
    IterableQueryBase.reversed 4 once w = (Ret (New twice), w) /\
    elements twice = elements this.
Proof.
  intros this w. split; [reflexivity|]. split; [simpl; lia|].
  apply (reversed_twice_is_the_sequence this w 4); [reflexivity|simpl; lia].
Defined.

(** ** [sum] and [product] *)

(** An integer of magnitude [2^53] or less is a double. *)
Lemma round_double_safe (z : Z) :
  Z.abs z <= MAX_SAFE_INTEGER -> round_double z = Finite z.
Proof.
  intros Hz. unfold round_double. cbv zeta.
  destruct (Z.leb_spec (Z.abs z) (2 ^ 53)) as [_|Hgt]; [reflexivity|].
  unfold MAX_SAFE_INTEGER in Hz. lia.
Qed.

Lemma fold_flow_sum (selector : JsValue -> Z) (l : list JsValue) :
  forall n,
    Z.abs n + sum_of (fun e => Z.abs (selector e)) l <= MAX_SAFE_INTEGER ->
    fold_flow (R := Empty_set)
      (fun total e =>
         if truthy_total total then
           Continue (Some (number_plus (default NotANumber total)
                             (Finite (selector e))))
         else Continue (Some (Finite (selector e))))
      (Some (Finite n)) l = Continue (Some (Finite (n + sum_of selector l))).
Proof.
  induction l as [|e l IH]; intros n Hmax; simpl.
  - rewrite Z.add_0_r. reflexivity.
  - simpl in Hmax.
    assert (Hrest : 0 <= sum_of (fun e => Z.abs (selector e)) l).
    { clear. induction l as [|x l IH]; simpl; lia. }
    destruct (Z.eqb_spec n 0) as [->|Hne]; simpl.
    + rewrite IH by lia. do 3 f_equal.
    + rewrite round_double_safe by lia.
      rewrite IH by lia. do 3 f_equal. lia.
Qed.

(** X7.  [sum(selector)] on a restartable sequence is [undefined] when the
    sequence is empty and otherwise, when the magnitudes of the selected
    integers add up to [Number.MAX_SAFE_INTEGER] at most, the sum of the
    selected integers: no addition rounds, and the test [if (total)], which
    takes a running total of 0 for "no total yet", does no harm to a sum. *)
Theorem sum_adds_the_selected_numbers :
  forall (this : Source) (selector : JsValue -> Z) (w : World) (fuel : nat),
    restartable this = true ->
    (length (elements this) < fuel)%nat ->
    sum_of (fun e => Z.abs (selector e)) (elements this) <= MAX_SAFE_INTEGER ->
    IterableQueryBase.sum fuel this selector w =
      (Ret (match elements this with
            | [] => None
            | _ :: _ => Some (Finite (sum_of selector (elements this)))
            end), w).
Proof.
  intros this selector w fuel Hr Hfuel Hmax.
  unfold IterableQueryBase.sum, mbind. rewrite for_of_spec by assumption.
  destruct (elements this) as [|e l]; [reflexivity|].
  simpl fold_flow. rewrite fold_flow_sum by exact Hmax. reflexivity.
Qed.

Lemma sum_adds_the_selected_numbers_witness :
  let this := Query_fromIterable (SArray [VNum 1; VNum (-1); VNum 5]) in
  let w : World := ∅ in
  restartable this = true /\
  (length (elements this) < 4)%nat /\
  sum_of (fun e => Z.abs (number_of e)) (elements this) <= MAX_SAFE_INTEGER /\
  IterableQueryBase.sum 4 this number_of w = (Ret (Some (Finite 5)), w).
Proof.
  intros this w.
  assert (Hmax : sum_of (fun e => Z.abs (number_of e)) (elements this)
                 <= MAX_SAFE_INTEGER) by (vm_compute; discriminate).
  split; [reflexivity|]. split; [simpl; lia|]. split; [exact Hmax|].
  apply (sum_adds_the_selected_numbers this number_of w 4);
    [reflexivity|simpl; lia|exact Hmax].
Defined.

(** Beyond [2^53] an addition rounds: [2^53 + 1] is [2^53]. *)
Example sum_rounds_beyond_safe_integers :
  (IterableQueryBase.sum 3
     (Query_fromIterable (SArray [VNum (2 ^ 53); VNum 1])) number_of ∅).1
  = Ret (Some (Finite (2 ^ 53))).
Proof. vm_compute. reflexivity. Qed.

Lemma fold_flow_product (selector : JsValue -> Z) (l : list JsValue) :
  forallb (fun e => negb (selector e =? 0)) l = true ->
  forall n,
    n <> 0 ->
    Z.abs n * product_of (fun e => Z.abs (selector e)) l <= MAX_SAFE_INTEGER ->
    fold_flow (R := Empty_set)
      (fun total e =>
         if truthy_total total then
           Continue (Some (number_times (default NotANumber total)
                             (Finite (selector e))))
         else Continue (Some (Finite (selector e))))
      (Some (Finite n)) l =
    Continue (Some (Finite (n * product_of selector l))).
Proof.
  induction l as [|e l IH]; intros Hall n Hn Hmax; simpl.
  - rewrite Z.mul_1_r. reflexivity.
  - simpl in Hall, Hmax. apply andb_prop in Hall as [He Hl].
    apply negb_true_iff, Z.eqb_neq in He.
    assert (Hrest : 1 <= product_of (fun e => Z.abs (selector e)) l).
    { clear - Hl. induction l as [|x l IH]; simpl; [lia|].
      simpl in Hl. apply andb_prop in Hl as [Hx Hl].
      apply negb_true_iff, Z.eqb_neq in Hx. specialize (IH Hl). nia. }
    destruct (Z.eqb_spec n 0) as [|_]; [contradiction|]. simpl.
    assert (Hstep : Z.abs (n * selector e) *
                    product_of (fun e => Z.abs (selector e)) l
                    <= MAX_SAFE_INTEGER)
      by (rewrite Z.abs_mul; lia).
    rewrite round_double_safe by nia.
    rewrite IH by (try assumption; nia). do 3 f_equal. lia.
Qed.

(** X8.  [product(selector)] on a restartable sequence is [undefined] when
    the sequence is empty and, when no selected integer is 0 and the
    magnitudes of the selected integers multiply to
    [Number.MAX_SAFE_INTEGER] at most, the product of the selected integers:
    no multiplication rounds. *)
Theorem product_multiplies_nonzero_numbers :
  forall (this : Source) (selector : JsValue -> Z) (w : World) (fuel : nat),
    restartable this = true ->
    (length (elements this) < fuel)%nat ->
    forallb (fun e => negb (selector e =? 0)) (elements this) = true ->
    product_of (fun e => Z.abs (selector e)) (elements this)
      <= MAX_SAFE_INTEGER ->
    IterableQueryBase.product fuel this selector w =
      (Ret (match elements this with
            | [] => None
            | _ :: _ => Some (Finite (product_of selector (elements this)))
            end), w).
Proof.
  intros this selector w fuel Hr Hfuel Hall Hmax.
  unfold IterableQueryBase.product, mbind. rewrite for_of_spec by assumption.
  destruct (elements this) as [|e l]; [reflexivity|].
  simpl in Hall, Hmax. apply andb_prop in Hall as [He Hl].
  apply negb_true_iff, Z.eqb_neq in He.
  simpl fold_flow. rewrite fold_flow_product by assumption.
  reflexivity.
Qed.

Lemma product_multiplies_nonzero_numbers_witness :
  let this := Query_fromIterable (SArray [VNum 2; VNum (-3); VNum 5]) in
  let w : World := ∅ in
  restartable this = true /\
  (length (elements this) < 4)%nat /\
  forallb (fun e => negb (number_of e =? 0)) (elements this) = true /\
  product_of (fun e => Z.abs (number_of e)) (elements this)
    <= MAX_SAFE_INTEGER /\
  IterableQueryBase.product 4 this number_of w = (Ret (Some (Finite (-30))), w).
Proof.
  intros this w.
  assert (Hmax : product_of (fun e => Z.abs (number_of e)) (elements this)
                 <= MAX_SAFE_INTEGER) by (vm_compute; discriminate).
  split; [reflexivity|]. split; [simpl; lia|].
  split; [reflexivity|]. split; [exact Hmax|].
  apply (product_multiplies_nonzero_numbers this number_of w 4);
    [reflexivity|simpl; lia|reflexivity|exact Hmax].
Defined.

(** With a 0 among the selected numbers the product starts over after it:
    2, 0, 5, 3 gives 15. *)
Example product_forgets_a_zero :
  (IterableQueryBase.product 5
     (Query_fromIterable (SArray [VNum 2; VNum 0; VNum 5; VNum 3])) number_of ∅).1
  = Ret (Some (Finite 15)).
Proof. reflexivity. Qed.

(** Beyond [2^53] a multiplication rounds: [94906267 * 94906267] is
    [9007199515875289], which is not a double; its neighbour
    [9007199515875288] is. *)
Example product_rounds_beyond_safe_integers :
  (IterableQueryBase.product 3
     (Query_fromIterable (SArray [VNum 94906267; VNum 94906267])) number_of ∅).1
  = Ret (Some (Finite 9007199515875288)).
Proof. vm_compute. reflexivity. Qed.

(** ** [partition] and [count(predicate)] *)

Lemma fold_flow_partition (predicate : JsValue -> bool) (l : list JsValue) :
  forall yes no,
    fold_flow (R := Empty_set)
      (fun '(left_, right_) e =>
         if predicate e then Continue (left_ ++ [e], right_)
         else Continue (left_, right_ ++ [e]))
      (yes, no) l =
    Continue (yes ++ List.filter predicate l,
              no ++ List.filter (fun e => negb (predicate e)) l).
Proof.
  induction l as [|e l IH]; intros yes no; simpl.
  - rewrite !app_nil_r. reflexivity.
  - destruct (predicate e); simpl; rewrite IH, <- app_assoc; reflexivity.
Qed.

Lemma fold_flow_count (predicate : JsValue -> bool) (l : list JsValue) :
  forall c,
    c + Z.of_nat (length l) <= MAX_SAFE_INTEGER ->
    fold_flow
      (fun count e =>
         let count := if predicate e then count + 1 else count in
         if count >? MAX_SAFE_INTEGER then Return IterableQueryBase.overflow
         else Continue count)
      c l = Continue (c + Z.of_nat (length (List.filter predicate l))).
Proof.
  induction l as [|e l IH]; intros c Hmax; simpl.
  - rewrite Z.add_0_r. reflexivity.
  - simpl length in Hmax.
    pose proof (List.filter_length_le predicate l) as Hle.
    destruct (predicate e); simpl.
    + destruct (Z.gtb_spec (c + 1) MAX_SAFE_INTEGER); [lia|].
      rewrite IH by lia. f_equal. lia.
    + destruct (Z.gtb_spec c MAX_SAFE_INTEGER); [lia|].
      rewrite IH by lia. reflexivity.
Qed.

(** X9.  [partition(predicate)] on a restartable sequence returns the
    elements that satisfy the predicate and those that do not, each in the
    order of the sequence; the two arrays hold every element once, and the
    first has as many elements as [count(predicate)] returns. *)
Theorem partition_splits_by_the_predicate :
  forall (this : Source) (predicate : JsValue -> bool) (w : World)
         (fuel : nat),
    restartable this = true ->
    (length (elements this) < fuel)%nat ->
    Z.of_nat (length (elements this)) <= MAX_SAFE_INTEGER ->
    let yes := List.filter predicate (elements this) in
    let no := List.filter (fun e => negb (predicate e)) (elements this) in
    IterableQueryBase.partition fuel this predicate w = (Ret (yes, no), w) /\
    IterableQueryBase.count fuel this (Some predicate) w =
      (Ret (Z.of_nat (length yes)), w) /\
    (length yes + length no = length (elements this))%nat.
Proof.
  intros this predicate w fuel Hr Hfuel Hmax yes no.
  unfold IterableQueryBase.partition, IterableQueryBase.count, mbind.
  rewrite !for_of_spec by assumption.
  rewrite fold_flow_partition, fold_flow_count by lia.
  repeat split. apply List.filter_length.
Qed.

Lemma partition_splits_by_the_predicate_witness :
  let this := Query_fromIterable (SArray [VNum 1; VNum 2; VNum 3; VNum 4]) in
  let even := fun e => Z.even (number_of e) in
  let w : World := ∅ in
  restartable this = true /\
  (length (elements this) < 5)%nat /\
  Z.of_nat (length (elements this)) <= MAX_SAFE_INTEGER /\
  IterableQueryBase.partition 5 this even w =
    (Ret ([VNum 2; VNum 4], [VNum 1; VNum 3]), w) /\
  IterableQueryBase.count 5 this (Some even) w = (Ret 2, w).
Proof.
  intros this even w.
  assert (Hmax : Z.of_nat (length (elements this)) <= MAX_SAFE_INTEGER)
    by (vm_compute; discriminate).
  split; [reflexivity|]. split; [simpl; lia|]. split; [exact Hmax|].
  destruct (partition_splits_by_the_predicate this even w 5) as (Hp & Hc & _);
    [reflexivity|simpl; lia|exact Hmax|].
  split; [exact Hp|exact Hc].
Defined.

(** ** [minmax] *)

(** X10.  On a non-empty restartable sequence of truthy elements and with a
    comparator that is reflexive and transitive in each of its three
    outcomes, [minmax(compare)] returns a pair of elements of the sequence:
    no element compares [Less] to the first nor [Greater] to the second. *)
Theorem minmax_brackets_the_sequence :
  forall (this : Source) (compare : Compare) (w : World) (fuel : nat),
    restartable this = true ->
    (length (elements this) < fuel)%nat ->
    elements this <> [] ->
    forallb truthy (elements this) = true ->
    (forall x, compare x x = Equal) ->
    (forall x y z o, compare x y = o -> compare y z = o -> compare x z = o) ->
    exists lo hi,
      IterableQueryBase.minmax fuel this (Some compare) w =
        (Ret (Some (lo, hi)), w) /\
      lo ∈ elements this /\ hi ∈ elements this /\
      forall e, e ∈ elements this ->
                compare e lo <> Less /\ compare e hi <> Greater.
Proof.
  intros this compare w fuel Hr Hfuel Hne Htruthy Hrefl Htrans.
  destruct (min_max_on_truthy this compare w fuel Hr Hfuel Hne Htruthy Hrefl
              Htrans) as (lo & hi & Hmin & Hmax & Hlo & Hhi & Hall).
  exists lo, hi. unfold IterableQueryBase.minmax, mbind.
  rewrite Hmin, Hmax.
  assert (Ht : forall e, e ∈ elements this -> truthy e = true).
  { intros e He. apply list_elem_of_In in He.
    exact (proj1 (forallb_forall truthy (elements this)) Htruthy e He). }
  rewrite (Ht lo Hlo), (Ht hi Hhi). repeat split; try assumption;
    apply Hall; assumption.
Qed.

Lemma byNumber_refl (x : JsValue) : byNumber x x = Equal.
Proof. unfold byNumber. rewrite Z.compare_refl. reflexivity. Qed.

Lemma byNumber_trans (x y z : JsValue) (o : Ordering) :
  byNumber x y = o -> byNumber y z = o -> byNumber x z = o.
Proof.
  unfold byNumber.
  destruct (Z.compare_spec (number_of x) (number_of y)),
    (Z.compare_spec (number_of y) (number_of z)); simpl; intros <-;
    try discriminate; intros _;
    [rewrite (proj2 (Z.compare_eq_iff _ _)) by lia
    |rewrite (proj2 (Z.compare_lt_iff _ _)) by lia
    |rewrite (proj2 (Z.compare_gt_iff _ _)) by lia]; reflexivity.
Qed.

Lemma minmax_brackets_the_sequence_witness :
  let this := Query_fromIterable (SArray [VNum 3; VNum 1; VNum 2]) in
  let w : World := ∅ in
  restartable this = true /\
  (length (elements this) < 4)%nat /\
  elements this <> [] /\
  forallb truthy (elements this) = true /\
  exists lo hi,
    IterableQueryBase.minmax 4 this (Some byNumber) w = (Ret (Some (lo, hi)), w) /\
    lo ∈ elements this /\ hi ∈ elements this /\
    forall e, e ∈ elements this ->
              byNumber e lo <> Less /\ byNumber e hi <> Greater.
Proof.
  intros this w.
  split; [reflexivity|]. split; [simpl; lia|]. split; [discriminate|].
  split; [reflexivity|].
  apply (minmax_brackets_the_sequence this byNumber w 4);
    [reflexivity|simpl; lia|discriminate|reflexivity
    |exact byNumber_refl|exact byNumber_trans].
Defined.

(** ** [contains], [any], [every] and [containsAll] *)

Lemma fold_flow_exists (test : JsValue -> bool) (l : list JsValue) :
  match fold_flow (fun (_ : unit) e => if test e then Return true else Continue tt)
          tt l with
  | Return b => b
  | Continue _ => false
  end = existsb test l.
Proof.
  induction l as [|e l IH]; simpl; [reflexivity|].
  destruct (test e); [reflexivity|exact IH].
Qed.

Lemma fold_flow_forall (test : JsValue -> bool) (l : list JsValue) :
  match fold_flow
          (fun (_ : unit) e => if negb (test e) then Return false else Continue tt)
          tt l with
  | Return b => b
  | Continue _ => true
  end = forallb test l.
Proof.
  induction l as [|e l IH]; simpl; [reflexivity|].
  destruct (test e); [exact IH|reflexivity].
Qed.

Lemma contains_spec (fuel : nat) (this : Source)
    (obj : JsValue + (JsValue -> bool)) (w : World) :
  restartable this = true ->
  (length (elements this) < fuel)%nat ->
  IterableQueryBase.contains fuel this obj w =
    (Ret (existsb (match obj with
                   | inl v => strict_equals v
                   | inr predicate => predicate
                   end) (elements this)), w).
Proof.
  intros Hr Hfuel. unfold IterableQueryBase.contains, mbind.
  destruct obj as [v|predicate]; rewrite for_of_spec by assumption;
    unfold mret; rewrite fold_flow_exists; reflexivity.
Qed.

(** X11.  On a restartable sequence [contains(value)] tells whether some
    element is [===] to the value, which is what [indexOf(value)] staying
    below the number of elements tells on a non-empty sequence;
    [contains(predicate)] and [any(predicate)] tell whether some element
    satisfies the predicate. *)
Theorem contains_finds_an_equal_element :
  forall (this : Source) (v : JsValue) (predicate : JsValue -> bool)
         (w : World) (fuel : nat),
    restartable this = true ->
    (length (elements this) < fuel)%nat ->
    IterableQueryBase.contains fuel this (inl v) w =
      (Ret (existsb (strict_equals v) (elements this)), w) /\
    IterableQueryBase.contains fuel this (inr predicate) w =
      (Ret (existsb predicate (elements this)), w) /\
    IterableQueryBase.any fuel this (Some predicate) w =
      IterableQueryBase.contains fuel this (inr predicate) w /\
    (IterableQueryBase.contains fuel this (inl v) w = (Ret false, w) ->
     elements this <> [] ->
     IterableQueryBase.indexOf fuel this v w =
       (Ret (VNum (Z.of_nat (length (elements this)))), w)).
Proof.
  intros this v predicate w fuel Hr Hfuel.
  rewrite !contains_spec by assumption.
  split; [reflexivity|]. split; [reflexivity|]. split.
  - unfold IterableQueryBase.any, mbind. rewrite for_of_spec by assumption.
    unfold mret. rewrite fold_flow_exists. reflexivity.
  - intros Hc Hne. injection Hc as Hc.
    unfold IterableQueryBase.indexOf, mbind.
    rewrite isEmpty_spec by assumption.
    destruct (elements this) as [|e l] eqn:Hel; [congruence|].
    rewrite for_of_spec by (try assumption; rewrite Hel; exact Hfuel).
    rewrite Hel.
    rewrite (fold_flow_index (fun e => strict_equals e v)); [reflexivity|].
    clear -Hc. induction (e :: l) as [|x k IH]; [reflexivity|].
    simpl in *. apply orb_false_elim in Hc as [Hx Hk].
    rewrite strict_equals_sym, Hx. simpl. exact (IH Hk).
Qed.

Lemma contains_finds_an_equal_element_witness :
  let this := Query_fromIterable (SArray [VNum 1; VNum 2; VNum 3]) in
  let isTwo := fun e => strict_equals e (VNum 2) in
  let w : World := ∅ in
  restartable this = true /\
  (length (elements this) < 4)%nat /\
  IterableQueryBase.contains 4 this (inl (VNum 7)) w = (Ret false, w) /\
  elements this <> [] /\
  IterableQueryBase.contains 4 this (inr isTwo) w = (Ret true, w) /\
  IterableQueryBase.indexOf 4 this (VNum 7) w = (Ret (VNum 3), w).
Proof.
  intros this isTwo w.
  split; [reflexivity|]. split; [simpl; lia|]. split; [reflexivity|].
  split; [discriminate|].
  destruct (contains_finds_an_equal_element this (VNum 7) isTwo w 4)
    as (_ & Hp & _ & Hi); [reflexivity|simpl; lia|].
  split; [exact Hp|]. apply Hi; [reflexivity|discriminate].
Defined.

(** X12.  On a restartable sequence [every(predicate)] tells whether all
    elements satisfy the predicate, so it is [true] on an empty sequence and
    it is the negation of [any] of the negated predicate; [any()] without a
    predicate is the negation of [isEmpty()]. *)
Theorem every_and_any_are_dual :
  forall (this : Source) (predicate : JsValue -> bool) (w : World)
         (fuel : nat),
    restartable this = true ->
    (length (elements this) < fuel)%nat ->
    exists all some_not empty,
      IterableQueryBase.every fuel this predicate w = (Ret all, w) /\
      IterableQueryBase.any fuel this (Some (fun e => negb (predicate e))) w =
        (Ret some_not, w) /\
      IterableQueryBase.isEmpty fuel this w = (Ret empty, w) /\
      IterableQueryBase.any fuel this None w = (Ret (negb empty), w) /\
      all = forallb predicate (elements this) /\
      all = negb some_not /\
      (empty = true -> all = true).
Proof.
  intros this predicate w fuel Hr Hfuel.
  exists (forallb predicate (elements this)),
         (existsb (fun e => negb (predicate e)) (elements this)),
         (match elements this with [] => true | _ => false end).
  unfold IterableQueryBase.every, IterableQueryBase.any, mbind.
  rewrite !for_of_spec, isEmpty_spec by assumption.
  unfold mret. rewrite fold_flow_forall, fold_flow_exists.
  repeat split.
  - clear. induction (elements this) as [|e l IH]; [reflexivity|].
    simpl. rewrite IH. destruct (predicate e); reflexivity.
  - destruct (elements this); [reflexivity|discriminate].
Qed.

Lemma every_and_any_are_dual_witness :
  let this := Query_fromIterable (SArray [VNum 2; VNum 4]) in
  let even := fun e => Z.even (number_of e) in
  let w : World := ∅ in
  restartable this = true /\
  (length (elements this) < 3)%nat /\
  exists all some_not empty,
    IterableQueryBase.every 3 this even w = (Ret all, w) /\
    IterableQueryBase.any 3 this (Some (fun e => negb (even e))) w =
      (Ret some_not, w) /\
    IterableQueryBase.isEmpty 3 this w = (Ret empty, w) /\
    IterableQueryBase.any 3 this None w = (Ret (negb empty), w) /\
    all = forallb even (elements this) /\
    all = negb some_not /\
    (empty = true -> all = true).
Proof.
  intros this even w. split; [reflexivity|]. split; [simpl; lia|].
  apply (every_and_any_are_dual this even w 3); [reflexivity|simpl; lia].
Defined.

(** A loop whose body calls methods that leave the store alone and return. *)
Lemma for_of_loop_M_spec {A R} (body : A -> JsValue -> M (Flow A R))
    (pure : A -> JsValue -> Flow A R) (fuel : nat) :
  (forall acc e w, body acc e w = (Ret (pure acc e), w)) ->
  forall (o : Cursor) (acc : A) (w : World),
    steady o = true ->
    (length (remaining o) < fuel)%nat ->
    for_of_loop_M fuel o body acc w = (Ret (fold_flow pure acc (remaining o)), w).
Proof.
  intros Hbody.
  induction fuel as [|fuel IH]; intros o acc w Hs Hfuel; [lia|].
  destruct (next_spec o w Hs) as (o' & Hnext & Hs' & Hrem).
  simpl. rewrite Hnext.
  destruct (remaining o) as [|v rest] eqn:Hr; simpl; [reflexivity|].
  rewrite Hbody. destruct (pure acc v) as [acc'|x]; [|reflexivity].
  rewrite IH; [|assumption|rewrite Hrem; simpl in *; lia].
  rewrite Hrem. reflexivity.
Qed.

(** An element of a list is [===] to some element of it exactly when it is
    [===] to itself. *)
Lemma existsb_strict_equals_self (l : list JsValue) (x : JsValue) :
  In x l -> existsb (strict_equals x) l = strict_equals x x.
Proof.
  intros Hx. destruct (existsb (strict_equals x) l) eqn:He.
  - apply existsb_exists in He as (y & _ & Hxy).
    symmetry. exact (strict_equals_self x y Hxy).
  - destruct (strict_equals x x) eqn:Hxx; [|reflexivity].
    assert (Ht : existsb (strict_equals x) l = true)
      by (apply existsb_exists; exists x; split; assumption).
    congruence.
Qed.

Lemma forallb_ext_In {A} (f g : A -> bool) (l : list A) :
  (forall x, In x l -> f x = g x) -> forallb f l = forallb g l.
Proof.
  induction l as [|x l IH]; intros Hfg; simpl; [reflexivity|].
  rewrite (Hfg x) by (left; reflexivity).
  rewrite IH; [reflexivity|]. intros y Hy. apply Hfg. right. exact Hy.
Qed.

(** X13.  On restartable sequences [containsAll(values)] tells whether
    every one of the values is [===] to some element of the receiver.  So a
    sequence contains all of its own elements exactly when each of them is
    [===] to itself, that is when none is [NaN]; and any sequence contains
    all of none. *)
Theorem containsAll_checks_every_value :
  forall (this values : Source) (w : World) (fuel : nat),
    restartable this = true ->
    restartable values = true ->
    (length (elements this) < fuel)%nat ->
    (length (elements values) < fuel)%nat ->
    IterableQueryBase.containsAll fuel this values w =
      (Ret (forallb (fun v => existsb (strict_equals v) (elements this))
              (elements values)), w) /\
    IterableQueryBase.containsAll fuel this this w =
      (Ret (forallb (fun v => strict_equals v v) (elements this)), w) /\
    IterableQueryBase.containsAll fuel this Query_empty w = (Ret true, w).
Proof.
  intros this values w fuel Hr Hrv Hfuel Hfuelv.
  assert (Hall : forall values',
             restartable values' = true ->
             (length (elements values') < fuel)%nat ->
             IterableQueryBase.containsAll fuel this values' w =
               (Ret (forallb (fun v => existsb (strict_equals v) (elements this))
                       (elements values')), w)).
  { intros values' Hrv' Hfuelv'.
    destruct (sym_iterator_spec values' Hrv') as (o & Ho & Hs & Hrem).
    unfold IterableQueryBase.containsAll, for_of_M, mbind, lift. rewrite Ho.
    rewrite (for_of_loop_M_spec _
               (fun (_ : unit) e =>
                  if negb (existsb (strict_equals e) (elements this))
                  then Return false else Continue tt));
      [|intros acc e w'; rewrite contains_spec by assumption; reflexivity
       |assumption|rewrite Hrem; assumption].
    rewrite Hrem.
    rewrite (fold_flow_forall
               (fun v => existsb (strict_equals v) (elements this))).
    reflexivity. }
  split; [apply Hall; assumption|]. split.
  - rewrite Hall by assumption. do 2 f_equal.
    apply forallb_ext_In. intros x Hx.
    apply existsb_strict_equals_self. exact Hx.
  - rewrite Hall; [reflexivity|reflexivity|simpl; lia].
Qed.

Lemma containsAll_checks_every_value_witness :
  let this := Query_fromIterable (SArray [VNum 3; VNaN; VNum 2]) in
  let values := Query_fromIterable (SArray [VNum 2; VNum 3]) in
  let w : World := ∅ in
  restartable this = true /\
  restartable values = true /\
  (length (elements this) < 4)%nat /\
  (length (elements values) < 4)%nat /\
  IterableQueryBase.containsAll 4 this values w = (Ret true, w) /\
  IterableQueryBase.containsAll 4 this this w = (Ret false, w) /\
  IterableQueryBase.containsAll 4 values values w = (Ret true, w).
Proof.
  intros this values w.
  split; [reflexivity|]. split; [reflexivity|].
  split; [simpl; lia|]. split; [simpl; lia|].
  destruct (containsAll_checks_every_value this values w 4) as (Hv & Hself & _);
    [reflexivity|reflexivity|simpl; lia|simpl; lia|].
  destruct (containsAll_checks_every_value values values w 4) as (_ & Hself' & _);
    [reflexivity|reflexivity|simpl; lia|simpl; lia|].
  split; [exact Hv|]. split; [exact Hself|exact Hself'].
Defined.

(** ** [sequenceEquals] *)

Lemma sequenceEquals_loop_spec (fuel : nat) :
  forall (x y : Cursor) (w : World),
    steady x = true ->
    steady y = true ->
    (length (remaining y) < fuel)%nat ->
    IterableQueryBase.sequenceEquals_loop fuel x y w =
      (Ret (same_sequence (remaining x) (remaining y)), w).
Proof.
  induction fuel as [|fuel IH]; intros x y w Hx Hy Hfuel; [lia|].
  destruct (next_spec x w Hx) as (x' & Hnx & Hx' & Hrx).
  destruct (next_spec y w Hy) as (y' & Hny & Hy' & Hry).
  simpl. rewrite Hnx, Hny.
  destruct (remaining x) as [|a l1], (remaining y) as [|b l2]; simpl;
    try reflexivity.
  destruct (strict_equals a b); simpl; [|reflexivity].
  rewrite IH; rewrite ?Hrx, ?Hry; simpl in *; try assumption; try lia.
  reflexivity.
Qed.

Lemma same_sequence_self (l : list JsValue) :
  same_sequence l l = forallb (fun v => strict_equals v v) l.
Proof.
  induction l as [|x l IH]; simpl; [reflexivity|].
  rewrite IH. reflexivity.
Qed.

Lemma same_sequence_length (l1 l2 : list JsValue) :
  same_sequence l1 l2 = true -> length l1 = length l2.
Proof.
  revert l2; induction l1 as [|x l1 IH]; intros [|y l2]; simpl;
    try discriminate; [reflexivity|].
  intros H. apply andb_prop in H as [_ H]. f_equal. exact (IH l2 H).
Qed.

(** X14.  On restartable sequences [sequenceEquals(values)] tells whether
    the two sequences have [===] elements position by position and end
    together.  So a sequence equals itself exactly when each of its elements
    is [===] to itself, that is when none is [NaN]; and sequences of
    different lengths are not equal. *)
Theorem sequenceEquals_compares_in_lockstep :
  forall (this values : Source) (w : World) (fuel : nat),
    restartable this = true ->
    restartable values = true ->
    (length (elements this) < fuel)%nat ->
    IterableQueryBase.sequenceEquals fuel this values w =
      (Ret (same_sequence (elements values) (elements this)), w) /\
    IterableQueryBase.sequenceEquals fuel this this w =
      (Ret (forallb (fun v => strict_equals v v) (elements this)), w) /\
    (length (elements values) <> length (elements this) ->
     IterableQueryBase.sequenceEquals fuel this values w = (Ret false, w)).
Proof.
  intros this values w fuel Hr Hrv Hfuel.
  assert (Hall : forall values',
             restartable values' = true ->
             IterableQueryBase.sequenceEquals fuel this values' w =
               (Ret (same_sequence (elements values') (elements this)), w)).
  { intros values' Hrv'.
    destruct (sym_iterator_spec values' Hrv') as (x & Hx & Hsx & Hremx).
    destruct (sym_iterator_spec this Hr) as (y & Hy & Hsy & Hremy).
    unfold IterableQueryBase.sequenceEquals, mbind, lift. rewrite Hx, Hy.
    rewrite sequenceEquals_loop_spec; rewrite ?Hremx, ?Hremy; auto. }
  split; [apply Hall; assumption|]. split.
  - rewrite Hall by assumption. rewrite same_sequence_self. reflexivity.
  - intros Hlen. rewrite Hall by assumption.
    destruct (same_sequence (elements values) (elements this)) eqn:Hs;
      [|reflexivity].
    apply same_sequence_length in Hs. contradiction.
Qed.

Lemma sequenceEquals_compares_in_lockstep_witness :
  let this := Query_fromIterable (SArray [VNum 3; VNaN; VNum 2]) in
  let values := Query_fromIterable (SArray [VNum 3; VNum 1]) in
  let w : World := ∅ in
  restartable this = true /\
  restartable values = true /\
  (length (elements this) < 4)%nat /\
  length (elements values) <> length (elements this) /\
  IterableQueryBase.sequenceEquals 4 this this w = (Ret false, w) /\
  IterableQueryBase.sequenceEquals 4 values values w = (Ret true, w) /\
  IterableQueryBase.sequenceEquals 4 this values w = (Ret false, w).
Proof.
  intros this values w.
  split; [reflexivity|]. split; [reflexivity|]. split; [simpl; lia|].
  split; [discriminate|].
  destruct (sequenceEquals_compares_in_lockstep this values w 4)
    as (_ & Hself & Hlen); [reflexivity|reflexivity|simpl; lia|].
  destruct (sequenceEquals_compares_in_lockstep values values w 4)
    as (_ & Hself' & _); [reflexivity|reflexivity|simpl; lia|].
  split; [exact Hself|]. split; [exact Hself'|]. apply Hlen. discriminate.
Defined.

(** ** [elementAt] and [elementAtOrElse] *)

Lemma fold_flow_elementAt (index : Z) (l : list JsValue) :
  forall i,
    i <= index ->
    match fold_flow (fun i e => if i =? index then Return e else Continue (i + 1))
            i l with
    | Return e => e
    | Continue _ => VUndefined
    end = default VUndefined (l !! Z.to_nat (index - i)).
Proof.
  induction l as [|e l IH]; intros i Hi; simpl; [reflexivity|].
  destruct (Z.eqb_spec i index) as [->|Hne].
  - rewrite Z.sub_diag. reflexivity.
  - rewrite IH by lia.
    replace (Z.to_nat (index - i)) with (S (Z.to_nat (index - (i + 1)))) by lia.
    reflexivity.
Qed.

Lemma elementAt_spec (fuel : nat) (this : Source) (index : Z) (w : World) :
  restartable this = true ->
  (length (elements this) < fuel)%nat ->
  IterableQueryBase.elementAt fuel this index w =
    (Ret (js_index (elements this) index), w).
Proof.
  intros Hr Hfuel. unfold IterableQueryBase.elementAt, js_index.
  destruct (Z.ltb_spec index 0); [reflexivity|].
  unfold mbind. rewrite for_of_spec by assumption. unfold mret.
  rewrite fold_flow_elementAt by assumption. rewrite Z.sub_0_r. reflexivity.
Qed.

(** X15.  On a restartable sequence [elementAt(index)] is the element at
    that position of the array [toArray()] returns, and [undefined] for a
    negative index or one past the end: it never throws.  Under [take(n)]
    the positions below [n] hold what they held.  [elementAtOrElse] returns
    the default where [elementAt] returns [undefined] or [null]. *)
Theorem elementAt_indexes_the_sequence :
  forall (this : Source) (index n : Z) (defaultValue : JsValue) (w : World)
         (fuel : nat),
    restartable this = true ->
    (length (elements this) < fuel)%nat ->
    0 <= index < n ->
    exists array,
      IterableQueryBase.toArray fuel this w = (Ret array, w) /\
      IterableQueryBase.elementAt fuel this index w =
        (Ret (js_index array index), w) /\
      IterableQueryBase.elementAt fuel (SIterableQuery (STake this n)) index w =
        (Ret (js_index array index), w) /\
      IterableQueryBase.elementAtOrElse fuel this index defaultValue w =
        (Ret (js_nullish_or (js_index array index) defaultValue), w) /\
      (forall outside,
          outside < 0 \/ Z.of_nat (length array) <= outside ->
          IterableQueryBase.elementAt fuel this outside w = (Ret VUndefined, w) /\
          IterableQueryBase.elementAtOrElse fuel this outside defaultValue w =
            (Ret defaultValue, w)).
Proof.
  intros this index n defaultValue w fuel Hr Hfuel Hin.
  exists (elements this). split; [apply toArray_spec; assumption|].
  split; [apply elementAt_spec; assumption|]. split; [|split].
  - rewrite elementAt_spec.
    + simpl. unfold js_index. destruct (Z.ltb_spec index 0); [lia|].
      rewrite lookup_take_lt by lia. reflexivity.
    + simpl. rewrite Hr. apply Z.leb_le. lia.
    + simpl. rewrite length_take. lia.
  - unfold IterableQueryBase.elementAtOrElse, mbind.
    rewrite elementAt_spec by assumption. reflexivity.
  - intros outside Hout.
    unfold IterableQueryBase.elementAtOrElse, mbind.
    rewrite !elementAt_spec by assumption.
    assert (Hu : js_index (elements this) outside = VUndefined).
    { unfold js_index. destruct (Z.ltb_spec outside 0); [reflexivity|].
      rewrite (proj2 (lookup_ge_None _ _)); [reflexivity|lia]. }
    rewrite Hu. split; reflexivity.
Qed.

Lemma elementAt_indexes_the_sequence_witness :
  let this := Query_fromIterable (SArray [VNum 3; VNum 1; VNum 2]) in
  let w : World := ∅ in
  restartable this = true /\
  (length (elements this) < 4)%nat /\
  0 <= 1 < 2 /\
  exists array,
    IterableQueryBase.toArray 4 this w = (Ret array, w) /\
    IterableQueryBase.elementAt 4 this 1 w = (Ret (js_index array 1), w) /\
    IterableQueryBase.elementAt 4 (SIterableQuery (STake this 2)) 1 w =
      (Ret (js_index array 1), w) /\
    IterableQueryBase.elementAtOrElse 4 this 1 (VNum 0) w =
      (Ret (js_nullish_or (js_index array 1) (VNum 0)), w) /\
    (forall outside,
        outside < 0 \/ Z.of_nat (length array) <= outside ->
        IterableQueryBase.elementAt 4 this outside w = (Ret VUndefined, w) /\
        IterableQueryBase.elementAtOrElse 4 this outside (VNum 0) w =
          (Ret (VNum 0), w)).
Proof.
  intros this w. split; [reflexivity|]. split; [simpl; lia|]. split; [lia|].
  apply (elementAt_indexes_the_sequence this 1 2 (VNum 0) w 4);
    [reflexivity|simpl; lia|lia].
Defined.

(** ** [lastIndexOf] *)

Lemma fold_flow_lastIndexOf_absent (v : JsValue) (l : list JsValue) :
  forallb (fun e => negb (strict_equals e v)) l = true ->
  forall lastIndex index,
    fold_flow (R := Empty_set)
      (fun '(lastIndex, index) e =>
         if strict_equals e v then Continue (VNum index, index)
         else Continue (lastIndex, index + 1))
      (lastIndex, index) l = Continue (lastIndex, index + Z.of_nat (length l)).
Proof.
  induction l as [|e l IH]; intros Hall lastIndex index; simpl.
  - rewrite Z.add_0_r. reflexivity.
  - simpl in Hall. apply andb_prop in Hall as [He Hl].
    apply negb_true_iff in He. rewrite He, IH by assumption.
    do 2 f_equal. lia.
Qed.

Lemma fold_flow_lastIndexOf (v x : JsValue) (after : list JsValue) :
  strict_equals x v = true ->
  forallb (fun e => negb (strict_equals e v)) after = true ->
  forall before lastIndex index,
    fold_flow (R := Empty_set)
      (fun '(lastIndex, index) e =>
         if strict_equals e v then Continue (VNum index, index)
         else Continue (lastIndex, index + 1))
      (lastIndex, index) (before ++ x :: after) =
    Continue (VNum (index + count_others v before),
              index + count_others v before + Z.of_nat (length after)).
Proof.
  intros Hx Hafter. unfold count_others.
  induction before as [|e l IH]; intros lastIndex index; simpl.
  - rewrite Hx, fold_flow_lastIndexOf_absent by assumption.
    rewrite Z.add_0_r. reflexivity.
  - destruct (strict_equals e v); simpl; rewrite IH.
    + reflexivity.
    + do 3 f_equal; lia.
Qed.

(** X16.  On a restartable sequence [lastIndexOf(value)] returns
    [undefined] when no element is [===] to the value; otherwise it returns
    the number of elements before the last such element that are not [===]
    to the value (the index is not advanced on a match), which is the
    position of that element when the value occurs only once. *)
Theorem lastIndexOf_counts_the_other_elements :
  forall (this : Source) (v x absent : JsValue) (before after : list JsValue)
         (w : World) (fuel : nat),
    restartable this = true ->
    (length (elements this) < fuel)%nat ->
    elements this = before ++ x :: after ->
    strict_equals x v = true ->
    forallb (fun e => negb (strict_equals e v)) after = true ->
    forallb (fun e => negb (strict_equals e absent)) (elements this) = true ->
    IterableQueryBase.lastIndexOf fuel this v w =
      (Ret (VNum (count_others v before)), w) /\
    (forallb (fun e => negb (strict_equals e v)) before = true ->
     IterableQueryBase.lastIndexOf fuel this v w =
       (Ret (VNum (Z.of_nat (length before))), w)) /\
    IterableQueryBase.lastIndexOf fuel this absent w = (Ret VUndefined, w).
Proof.
  intros this v x absent before after w fuel Hr Hfuel Hel Hx Hafter Habsent.
  assert (Hlast : IterableQueryBase.lastIndexOf fuel this v w =
                  (Ret (VNum (count_others v before)), w)).
  { unfold IterableQueryBase.lastIndexOf, mbind.
    rewrite isEmpty_spec by assumption.
    destruct (elements this) as [|e0 l0] eqn:Hel0;
      [destruct before; discriminate|].
    rewrite for_of_spec by (try assumption; rewrite Hel0; exact Hfuel).
    rewrite Hel0, Hel.
    rewrite (fold_flow_lastIndexOf v x after Hx Hafter). reflexivity. }
  split; [exact Hlast|]. split.
  - intros Hbefore. rewrite Hlast. do 3 f_equal. unfold count_others.
    clear -Hbefore. induction before as [|e l IH]; [reflexivity|].
    simpl in *. apply andb_prop in Hbefore as [He Hl]. rewrite He. simpl.
    specialize (IH Hl). lia.
  - unfold IterableQueryBase.lastIndexOf, mbind.
    rewrite isEmpty_spec by assumption.
    destruct (elements this) as [|e0 l0] eqn:Hel0; [reflexivity|].
    rewrite for_of_spec by (try assumption; rewrite Hel0; exact Hfuel).
    rewrite Hel0, fold_flow_lastIndexOf_absent by assumption. reflexivity.
Qed.

Lemma lastIndexOf_counts_the_other_elements_witness :
  let this := Query_fromIterable (SArray [VNum 7; VNum 1; VNum 7]) in
  let w : World := ∅ in
  restartable this = true /\
  (length (elements this) < 4)%nat /\
  elements this = [VNum 7; VNum 1] ++ VNum 7 :: [] /\
  strict_equals (VNum 7) (VNum 7) = true /\
  forallb (fun e => negb (strict_equals e (VNum 7))) [] = true /\
  forallb (fun e => negb (strict_equals e (VNum 5))) (elements this) = true /\
  IterableQueryBase.lastIndexOf 4 this (VNum 7) w = (Ret (VNum 1), w) /\
  IterableQueryBase.lastIndexOf 4 this (VNum 5) w = (Ret VUndefined, w).
Proof.
  intros this w.
  split; [reflexivity|]. split; [simpl; lia|]. split; [reflexivity|].
  split; [reflexivity|]. split; [reflexivity|]. split; [reflexivity|].
  destruct (lastIndexOf_counts_the_other_elements this (VNum 7) (VNum 7) (VNum 5)
              [VNum 7; VNum 1] [] w 4) as (Hlast & _ & Habsent);
    [reflexivity|simpl; lia|reflexivity|reflexivity|reflexivity|reflexivity|].
  split; [exact Hlast|exact Habsent].
Defined.

(** ** [first], [last] and the two ends of a sequence *)

Lemma first_spec (this : Source) (w : World) :
  restartable this = true ->
  IterableQueryBase.first this w = (Ret (List.hd VUndefined (elements this)), w).
Proof.
  intros Hr.
  destruct (sym_iterator_spec this Hr) as (o & Ho & Hs & Hrem).
  destruct (next_spec o w Hs) as (o' & Hnext & _).
  unfold IterableQueryBase.first, mbind, lift. rewrite Ho, Hnext, Hrem.
  destruct (elements this); reflexivity.
Qed.

Lemma last_default_irrelevant (l : list JsValue) :
  forall x d d', List.last (x :: l) d = List.last (x :: l) d'.
Proof.
  induction l as [|y l IH]; intros x d d'; [reflexivity|].
  change (List.last (y :: l) d = List.last (y :: l) d'). apply IH.
Qed.

Lemma last_cons_default (l : list JsValue) (e d : JsValue) :
  List.last l e = List.last (e :: l) d.
Proof.
  destruct l as [|y l]; [reflexivity|].
  change (List.last (y :: l) e = List.last (y :: l) d).
  apply last_default_irrelevant.
Qed.

Lemma fold_flow_last (l : list JsValue) :
  forall acc,
    fold_flow (R := Empty_set) (fun (_ : JsValue) e => Continue e) acc l =
    Continue (List.last l acc).
Proof.
  induction l as [|e l IH]; intros acc; [reflexivity|].
  simpl fold_flow. rewrite IH, (last_cons_default l e acc). reflexivity.
Qed.

Lemma last_spec (fuel : nat) (this : Source) (w : World) :
  restartable this = true ->
  (length (elements this) < fuel)%nat ->
  IterableQueryBase.last fuel this w =
    (Ret (List.last (elements this) VUndefined), w).
Proof.
  intros Hr Hfuel. unfold IterableQueryBase.last, mbind.
  rewrite for_of_spec by assumption. rewrite fold_flow_last. reflexivity.
Qed.

(** X17.  On a restartable sequence [first()] and [last()] return the first
    and the last element, [undefined] when there is none, and the [OrElse]
    forms return the default where these return [undefined] or [null].
    After [prepend(v)] the first element is [v] and after [append(v)] the
    last element is [v], while the other end stays what it was on a
    non-empty sequence. *)
Theorem first_and_last_are_the_ends :
  forall (this : Source) (v defaultValue : JsValue) (w : World) (fuel : nat),
    restartable this = true ->
    (S (length (elements this)) < fuel)%nat ->
    exists front back prepended appended,
      IterableQueryBase.first this w = (Ret front, w) /\
      IterableQueryBase.last fuel this w = (Ret back, w) /\
      front = List.hd VUndefined (elements this) /\
      back = List.last (elements this) VUndefined /\
      IterableQueryBase.firstOrElse this defaultValue w =
        (Ret (js_nullish_or front defaultValue), w) /\
      IterableQueryBase.lastOrElse fuel this defaultValue w =
        (Ret (js_nullish_or back defaultValue), w) /\
      IterableQueryBase.prepend this v = Ret (New prepended) /\
      IterableQueryBase.append this v = Ret (New appended) /\
      IterableQueryBase.first prepended w = (Ret v, w) /\
      IterableQueryBase.last fuel appended w = (Ret v, w) /\
      (elements this <> [] ->
       IterableQueryBase.first appended w = (Ret front, w) /\
       IterableQueryBase.last fuel prepended w = (Ret back, w)).
Proof.
  intros this v defaultValue w fuel Hr Hfuel.
  destruct (append_prepend_spec this v (restartable_well_built this Hr))
    as [Happ Hpre].
  exists (List.hd VUndefined (elements this)),
         (List.last (elements this) VUndefined),
         (SIterableQuery (SAppendPrepend this v false)),
         (SIterableQuery (SAppendPrepend this v true)).
  assert (Hf : (length (elements this) < fuel)%nat) by lia.
  unfold IterableQueryBase.firstOrElse, IterableQueryBase.lastOrElse, mbind.
  rewrite !first_spec by assumption.
  rewrite !last_spec by (try assumption; simpl; unfold with_item;
                         rewrite ?length_app; simpl; lia).
  simpl elements. unfold with_item. simpl.
  rewrite List.last_last.
  repeat (split; [first [reflexivity|assumption]|]).
  intros Hne. destruct (elements this) as [|e l]; [congruence|].
  split; reflexivity.
Qed.

Lemma first_and_last_are_the_ends_witness :
  let this := Query_fromIterable (SArray [VNum 1; VNum 2]) in
  let w : World := ∅ in
  restartable this = true /\
  (S (length (elements this)) < 4)%nat /\
  elements this <> [] /\
  exists prepended appended,
    IterableQueryBase.first this w = (Ret (VNum 1), w) /\
    IterableQueryBase.last 4 this w = (Ret (VNum 2), w) /\
    IterableQueryBase.prepend this (VNum 0) = Ret (New prepended) /\
    IterableQueryBase.append this (VNum 0) = Ret (New appended) /\
    IterableQueryBase.first prepended w = (Ret (VNum 0), w) /\
    IterableQueryBase.last 4 appended w = (Ret (VNum 0), w) /\
    IterableQueryBase.first appended w = (Ret (VNum 1), w) /\
    IterableQueryBase.last 4 prepended w = (Ret (VNum 2), w).
Proof.
  intros this w.
  split; [reflexivity|]. split; [simpl; lia|]. split; [discriminate|].
  destruct (first_and_last_are_the_ends this (VNum 0) VUndefined w 4)
    as (front & back & prepended & appended & Hf & Hl & -> & -> & _ & _ & Hp
        & Ha & Hfp & Hla & Hends); [reflexivity|simpl; lia|].
  exists prepended, appended.
  destruct Hends as [Hfa Hlp]; [discriminate|].
  repeat (split; [assumption|]). assumption.
Defined.

(** ** [find], [findLast], [findOrElse] and [findLastOrElse] *)

Lemma fold_flow_find (predicate : JsValue -> bool) (d : JsValue)
    (l : list JsValue) :
  match fold_flow
          (fun (_ : unit) e => if predicate e then Return e else Continue tt)
          tt l with
  | Return e => e
  | Continue _ => d
  end = default d (List.find predicate l).
Proof.
  induction l as [|e l IH]; simpl; [reflexivity|].
  destruct (predicate e); [reflexivity|exact IH].
Qed.

Lemma find_snoc (predicate : JsValue -> bool) (l : list JsValue) (e : JsValue) :
  List.find predicate (l ++ [e]) =
  match List.find predicate l with
  | Some x => Some x
  | None => if predicate e then Some e else None
  end.
Proof.
  induction l as [|x l IH]; simpl; [reflexivity|].
  destruct (predicate x); [reflexivity|exact IH].
Qed.

Lemma fold_flow_findLast (predicate : JsValue -> bool) (l : list JsValue) :
  forall acc,
    fold_flow (R := Empty_set)
      (fun last e => if predicate e then Continue e else Continue last) acc l =
    Continue (default acc (List.find predicate (rev l))).
Proof.
  induction l as [|e l IH]; intros acc; simpl; [reflexivity|].
  rewrite find_snoc.
  destruct (predicate e); rewrite IH;
    destruct (List.find predicate (rev l)); reflexivity.
Qed.

(** X18.  On a restartable sequence [find(predicate)] returns the first
    element that satisfies the predicate and [findLast(predicate)] the last
    one, [undefined] when there is none; [findOrElse] returns the first such
    element or the default, and so does [findLastOrElse], which returns the
    first match, not the last. *)
Theorem find_returns_the_first_match :
  forall (this : Source) (predicate : JsValue -> bool) (defaultValue : JsValue)
         (w : World) (fuel : nat),
    restartable this = true ->
    (length (elements this) < fuel)%nat ->
    IterableQueryBase.find fuel this predicate w =
      (Ret (default VUndefined (List.find predicate (elements this))), w) /\
    IterableQueryBase.findLast fuel this predicate w =
      (Ret (default VUndefined (List.find predicate (rev (elements this)))), w) /\
    IterableQueryBase.findOrElse fuel this defaultValue predicate w =
      (Ret (default defaultValue (List.find predicate (elements this))), w) /\
    IterableQueryBase.findLastOrElse fuel this defaultValue predicate w =
      (Ret (default defaultValue (List.find predicate (elements this))), w).
Proof.
  intros this predicate defaultValue w fuel Hr Hfuel.
  unfold IterableQueryBase.find, IterableQueryBase.findLast,
    IterableQueryBase.findOrElse, IterableQueryBase.findLastOrElse, mbind.
  rewrite !for_of_spec by assumption. unfold mret.
  rewrite !fold_flow_find, fold_flow_findLast. repeat split.
Qed.

Lemma find_returns_the_first_match_witness :
  let this := Query_fromIterable (SArray [VNum 1; VNum 2; VNum 3; VNum 4]) in
  let even := fun e => Z.even (number_of e) in
  let w : World := ∅ in
  restartable this = true /\
  (length (elements this) < 5)%nat /\
  IterableQueryBase.find 5 this even w = (Ret (VNum 2), w) /\
  IterableQueryBase.findLast 5 this even w = (Ret (VNum 4), w) /\
  IterableQueryBase.findOrElse 5 this (VNum 0) even w = (Ret (VNum 2), w) /\
  IterableQueryBase.findLastOrElse 5 this (VNum 0) even w = (Ret (VNum 2), w).
Proof.
  intros this even w. split; [reflexivity|]. split; [simpl; lia|].
  apply (find_returns_the_first_match this even (VNum 0) w 5);
    [reflexivity|simpl; lia].
Defined.

(** ** [findIndices], [findLastIndex] and [findIndex] *)

Lemma fold_flow_findIndices (predicate : JsValue -> bool) (l : list JsValue) :
  forall array index,
    fold_flow (R := Empty_set)
      (fun '(array, index) e =>
         let array := if predicate e then array ++ [index] else array in
         Continue (array, index + 1))
      (array, index) l =
    Continue (array ++ positions_from predicate index l,
              index + Z.of_nat (length l)).
Proof.
  induction l as [|e l IH]; intros array index; simpl.
  - rewrite app_nil_r, Z.add_0_r. reflexivity.
  - rewrite IH. destruct (predicate e); rewrite <- ?app_assoc; simpl;
      do 2 f_equal; lia.
Qed.

Lemma fold_flow_findLastIndex (predicate : JsValue -> bool) (l : list JsValue) :
  forall lastIndex index,
    fold_flow (R := Empty_set)
      (fun '(lastIndex, index) e =>
         let lastIndex := if predicate e then VNum index else lastIndex in
         Continue (lastIndex, index + 1))
      (lastIndex, index) l =
    Continue (List.last (VNum <$> positions_from predicate index l) lastIndex,
              index + Z.of_nat (length l)).
Proof.
  induction l as [|e l IH]; intros lastIndex index; simpl.
  - rewrite Z.add_0_r. reflexivity.
  - rewrite IH. destruct (predicate e).
    + rewrite fmap_cons, <- (last_cons_default _ (VNum index) lastIndex).
      do 2 f_equal. lia.
    + do 2 f_equal. lia.
Qed.

Lemma fold_flow_findIndex (predicate : JsValue -> bool) (l : list JsValue) :
  forall index,
    result_of
      (fold_flow
         (fun index e => if predicate e then Return index else Continue (index + 1))
         index l) =
    List.hd (index + Z.of_nat (length l)) (positions_from predicate index l).
Proof.
  induction l as [|e l IH]; intros index; simpl.
  - rewrite Z.add_0_r. reflexivity.
  - destruct (predicate e); [reflexivity|].
    rewrite IH. f_equal. lia.
Qed.

Lemma positions_from_spec (predicate : JsValue -> bool) (l : list JsValue) :
  forall index i,
    In i (positions_from predicate index l) <->
    index <= i /\
    exists e, l !! Z.to_nat (i - index) = Some e /\ predicate e = true.
Proof.
  induction l as [|e l IH]; intros index i; simpl.
  - split; [contradiction|]. intros (_ & x & Hx & _). discriminate.
  - assert (Hrest : In i (positions_from predicate (index + 1) l) <->
                    index < i /\
                    exists x, (e :: l) !! Z.to_nat (i - index) = Some x /\
                              predicate x = true).
    { rewrite IH. split.
      - intros (Hi & x & Hx & Hp). split; [lia|]. exists x. split; [|exact Hp].
        replace (Z.to_nat (i - index)) with (S (Z.to_nat (i - (index + 1))))
          by lia. exact Hx.
      - intros (Hi & x & Hx & Hp). split; [lia|]. exists x. split; [|exact Hp].
        replace (Z.to_nat (i - index)) with (S (Z.to_nat (i - (index + 1))))
          in Hx by lia. exact Hx. }
    destruct (predicate e) eqn:He; simpl; rewrite ?Hrest.
    + split.
      * intros [<-|(Hi & Hx)]; [|split; [lia|exact Hx]].
        split; [lia|]. exists e. rewrite Z.sub_diag. split; [reflexivity|exact He].
      * intros (Hi & x & Hx & Hp).
        destruct (Z.eq_dec index i) as [->|Hne]; [left; reflexivity|].
        right. split; [lia|]. exists x. split; assumption.
    + split.
      * intros (Hi & Hx). split; [lia|exact Hx].
      * intros (Hi & x & Hx & Hp).
        destruct (Z.eq_dec index i) as [->|Hne].
        -- rewrite Z.sub_diag in Hx. simpl in Hx. injection Hx as <-. congruence.
        -- split; [lia|]. exists x. split; assumption.
Qed.



(** ** [groupBy] and [toMap] *)

(** *** The keys in the order of their first occurrence *)

Lemma existsb_filter_keep {A} (f keep : A -> bool) (l : list A) :
  (forall c, f c = true -> keep c = true) ->
  existsb f (List.filter keep l) = existsb f l.
Proof.
  intros Hkeep. induction l as [|c l IH]; simpl; [reflexivity|].
  destruct (f c) eqn:Hf.
  - rewrite (Hkeep c Hf). simpl. rewrite Hf. reflexivity.
  - destruct (keep c); simpl; rewrite ?Hf; exact IH.
Qed.

Lemma first_occurrences_snoc (l : list JsValue) (y : JsValue) :
  first_occurrences (l ++ [y]) =
  if existsb (fun c => same_value_zero c y) l then first_occurrences l
  else first_occurrences l ++ [y].
Proof.
  induction l as [|x l IH]; simpl; [reflexivity|].
  rewrite IH. destruct (existsb (fun c => same_value_zero c y) l).
  - rewrite orb_true_r. reflexivity.
  - rewrite orb_false_r, List.filter_app. simpl.
    destruct (same_value_zero x y); simpl; [rewrite app_nil_r|]; reflexivity.
Qed.

Lemma existsb_first_occurrences (l : list JsValue) (k : JsValue) :
  existsb (fun c => same_value_zero c k) (first_occurrences l) =
  existsb (fun c => same_value_zero c k) l.
Proof.
  induction l as [|x l IH]; simpl; [reflexivity|].
  destruct (same_value_zero x k) eqn:Hx; [reflexivity|]. simpl.
  rewrite existsb_filter_keep; [exact IH|].
  intros c Hc. apply negb_true_iff.
  destruct (same_value_zero x c) eqn:Hxc; [|reflexivity].
  rewrite (same_value_zero_trans x c k Hxc Hc) in Hx. discriminate.
Qed.

Lemma Forall_filter_keep {A} (P : A -> Prop) (keep : A -> bool) (l : list A) :
  Forall P l -> Forall P (List.filter keep l).
Proof.
  intros Hl. induction Hl as [|x l Hx Hl IH]; simpl; [constructor|].
  destruct (keep x); [constructor; assumption|exact IH].
Qed.

Lemma all_different_filter (keep : JsValue -> bool) (l : list JsValue) :
  all_different l -> all_different (List.filter keep l).
Proof.
  induction l as [|x l IH]; simpl; [trivial|]. intros [Hx Hl].
  destruct (keep x); simpl; [split|]; auto using Forall_filter_keep.
Qed.

Lemma first_occurrences_all_different (l : list JsValue) :
  all_different (first_occurrences l).
Proof.
  induction l as [|x l IH]; simpl; [trivial|]. split.
  - clear IH. generalize (first_occurrences l). intros r.
    induction r as [|c r IHr]; simpl; [constructor|].
    destruct (same_value_zero x c) eqn:Hxc; simpl; [exact IHr|].
    constructor; [exact Hxc|exact IHr].
  - apply all_different_filter, IH.
Qed.

(** With keys that are all different, at most one is the same value as
    [k]. *)
Lemma all_different_one_match (x k : JsValue) (rest : list JsValue) :
  Forall (fun y => same_value_zero x y = false) rest ->
  same_value_zero x k = true ->
  existsb (fun c => same_value_zero c k) rest = false.
Proof.
  intros Hrest Hxk. induction Hrest as [|c rest Hc Hrest IH]; simpl;
    [reflexivity|].
  rewrite IH, orb_false_r.
  destruct (same_value_zero c k) eqn:Hck; [|reflexivity].
  rewrite same_value_zero_sym in Hck.
  rewrite (same_value_zero_trans x k c Hxk Hck) in Hc. discriminate.
Qed.

(** *** The map operations on a map given by its keys *)

Lemma keys_of_keys {V} (g : JsValue -> V) (keys : list JsValue) :
  fst <$> ((fun k => (k, g k)) <$> keys) = keys.
Proof.
  induction keys as [|k keys IH]; [reflexivity|].
  rewrite !fmap_cons, IH. reflexivity.
Qed.

Section MapOfKeys.
Context {V : Type}.
Variable key : JsValue.

Lemma Map_get_of_keys (g : JsValue -> V) (keys : list JsValue) :
  is_Some (Map_get key ((fun k => (k, g k)) <$> keys)) <->
  existsb (fun c => same_value_zero c key) keys = true.
Proof.
  induction keys as [|k keys IH]; simpl.
  - split; [intros [v Hv]; discriminate|discriminate].
  - destruct (same_value_zero k key); simpl; [|exact IH].
    split; [reflexivity|eauto].
Qed.

Lemma map_ext_unmatched (g h : JsValue -> V) (keys : list JsValue) :
  existsb (fun c => same_value_zero c key) keys = false ->
  (forall k, same_value_zero k key = false -> h k = g k) ->
  (fun k => (k, h k)) <$> keys = (fun k => (k, g k)) <$> keys.
Proof.
  intros Hnone Hgh. induction keys as [|k keys IH]; [reflexivity|].
  simpl in Hnone. apply orb_false_elim in Hnone as [Hk Hkeys].
  rewrite !fmap_cons, (Hgh k Hk), (IH Hkeys). reflexivity.
Qed.

(** [map.set(key, v)]: the entry of the one key that is the same value as
    [key] gets [v], or a new entry is added at the end. *)
Lemma Map_set_of_keys (v : V) (g h : JsValue -> V) (keys : list JsValue) :
  all_different keys ->
  (forall k, same_value_zero k key = true -> h k = v) ->
  (forall k, same_value_zero k key = false -> h k = g k) ->
  Map_set key v ((fun k => (k, g k)) <$> keys) =
  if existsb (fun c => same_value_zero c key) keys
  then (fun k => (k, h k)) <$> keys
  else ((fun k => (k, h k)) <$> keys) ++ [(key, v)].
Proof.
  intros Hdiff Hv Hg. induction keys as [|k keys IH]; [reflexivity|].
  destruct Hdiff as [Hk Hdiff]. rewrite !fmap_cons. cbn [Map_set existsb].
  destruct (same_value_zero k key) eqn:Hkk; cbn [orb].
  - rewrite (Hv k Hkk). f_equal. symmetry.
    apply map_ext_unmatched; [|exact Hg].
    exact (all_different_one_match k key keys Hk Hkk).
  - rewrite (IH Hdiff), (Hg k Hkk).
    destruct (existsb (fun c => same_value_zero c key) keys); reflexivity.
Qed.

End MapOfKeys.

(** [values.push(e)] on the array under the one key that is the same value
    as [key]. *)
Lemma Map_push_of_keys (key e : JsValue) (g h : JsValue -> list JsValue)
    (keys : list JsValue) :
  all_different keys ->
  (forall k, same_value_zero k key = true -> h k = g k ++ [e]) ->
  (forall k, same_value_zero k key = false -> h k = g k) ->
  Map_push key e ((fun k => (k, g k)) <$> keys) = (fun k => (k, h k)) <$> keys.
Proof.
  intros Hdiff Hv Hg. induction keys as [|k keys IH]; [reflexivity|].
  destruct Hdiff as [Hk Hdiff]. rewrite !fmap_cons. cbn [Map_push].
  destruct (same_value_zero k key) eqn:Hkk.
  - rewrite (Hv k Hkk). f_equal. symmetry.
    apply (map_ext_unmatched key); [|exact Hg].
    exact (all_different_one_match k key keys Hk Hkk).
  - rewrite (IH Hdiff), (Hg k Hkk). reflexivity.
Qed.

Lemma Map_push_last (key e : JsValue) (values : list JsValue)
    (map : JsMap (list JsValue)) :
  existsb (fun c => same_value_zero c key) (fst <$> map) = false ->
  Map_push key e (map ++ [(key, values)]) = map ++ [(key, values ++ [e])].
Proof.
  induction map as [|[k vs] map IH]; simpl.
  - intros _. rewrite same_value_zero_refl. reflexivity.
  - intros H. apply orb_false_elim in H as [Hk Hmap].
    rewrite Hk, (IH Hmap). reflexivity.
Qed.

(** *** The elements with a key, one element later *)

Lemma with_key_snoc (keySelector : JsValue -> JsValue) (k e : JsValue)
    (l : list JsValue) :
  with_key keySelector k (l ++ [e]) =
  with_key keySelector k l ++
    (if same_value_zero k (keySelector e) then [e] else []).
Proof. unfold with_key. rewrite List.filter_app. reflexivity. Qed.

Lemma with_key_new (keySelector : JsValue -> JsValue) (k : JsValue)
    (l : list JsValue) :
  existsb (fun c => same_value_zero c k) (keySelector <$> l) = false ->
  with_key keySelector k l = [].
Proof.
  induction l as [|x l IH]; simpl; [reflexivity|].
  intros H. apply orb_false_elim in H as [Hx Hl].
  rewrite same_value_zero_sym, Hx. exact (IH Hl).
Qed.

(** One turn of the loop of [groupBy]. *)
Lemma groups_of_snoc (keySelector : JsValue -> JsValue) (l : list JsValue)
    (e : JsValue) :
  groups_of keySelector (l ++ [e]) =
  let key := keySelector e in
  let map := groups_of keySelector l in
  Map_push key e
    match Map_get key map with
    | None => Map_set key [] map
    | Some _ => map
    end.
Proof.
  cbv zeta. unfold groups_of.
  rewrite fmap_app. change (keySelector <$> [e]) with [keySelector e].
  rewrite first_occurrences_snoc.
  pose proof (Map_get_of_keys (keySelector e)
                (fun k => with_key keySelector k l)
                (first_occurrences (keySelector <$> l))) as Hget.
  rewrite existsb_first_occurrences in Hget.
  pose proof (first_occurrences_all_different (keySelector <$> l)) as Hdiff.
  destruct (existsb (fun c => same_value_zero c (keySelector e))
              (keySelector <$> l)) eqn:Hex.
  - destruct (proj2 Hget eq_refl) as [values ->].
    symmetry. apply Map_push_of_keys; [exact Hdiff| |].
    + intros k Hk. rewrite with_key_snoc, Hk. reflexivity.
    + intros k Hk. rewrite with_key_snoc, Hk, app_nil_r. reflexivity.
  - destruct (Map_get (keySelector e) _) as [values|] eqn:Hnone.
    { assert (Hsome : false = true) by (apply Hget; eauto). discriminate. }
    rewrite (Map_set_of_keys (keySelector e) []
               (fun k => with_key keySelector k l)
               (fun k => if same_value_zero k (keySelector e) then []
                         else with_key keySelector k l));
      [|exact Hdiff|intros k ->; reflexivity|intros k ->; reflexivity].
    rewrite existsb_first_occurrences, Hex.
    rewrite Map_push_last.
    + rewrite fmap_app. f_equal.
      * apply (map_ext_unmatched (keySelector e)).
        -- rewrite existsb_first_occurrences. exact Hex.
        -- intros k Hk. rewrite Hk, with_key_snoc, Hk, app_nil_r. reflexivity.
      * cbn [fmap list_fmap].
        rewrite with_key_snoc, same_value_zero_refl.
        rewrite (with_key_new _ _ _ Hex). reflexivity.
    + rewrite keys_of_keys, existsb_first_occurrences. exact Hex.
Qed.

Lemma last_snoc_if (l : list JsValue) (e d : JsValue) (b : bool) :
  List.last (l ++ (if b then [e] else [])) d = if b then e else List.last l d.
Proof.
  destruct b; [apply last_last|rewrite app_nil_r; reflexivity].
Qed.

(** One turn of the loop of [toMap]. *)
Lemma entries_of_snoc (keySelector : JsValue -> JsValue) (l : list JsValue)
    (e : JsValue) :
  entries_of keySelector (l ++ [e]) =
  Map_set (keySelector e) e (entries_of keySelector l).
Proof.
  unfold entries_of.
  rewrite fmap_app. change (keySelector <$> [e]) with [keySelector e].
  rewrite first_occurrences_snoc.
  rewrite (Map_set_of_keys (keySelector e) e
             (fun k => List.last (with_key keySelector k l) VUndefined)
             (fun k => List.last (with_key keySelector k (l ++ [e])) VUndefined));
    [|apply first_occurrences_all_different
     |intros k Hk; rewrite with_key_snoc, last_snoc_if, Hk; reflexivity
     |intros k Hk; rewrite with_key_snoc, last_snoc_if, Hk; reflexivity].
  rewrite existsb_first_occurrences.
  destruct (existsb (fun c => same_value_zero c (keySelector e))
              (keySelector <$> l)) eqn:Hex; [reflexivity|].
  rewrite fmap_app. cbn [fmap list_fmap]. f_equal.
  rewrite with_key_snoc, last_snoc_if, same_value_zero_refl. reflexivity.
Qed.

Lemma fold_left_snoc_spec {A} (step : A -> JsValue -> A)
    (spec : list JsValue -> A) :
  (forall l e, spec (l ++ [e]) = step (spec l) e) ->
  forall l, fold_left step l (spec []) = spec l.
Proof.
  intros Hstep l. induction l as [|e l IH] using rev_ind; [reflexivity|].
  rewrite fold_left_app. simpl. rewrite IH, Hstep. reflexivity.
Qed.

(** X20.  [groupBy(keySelector)] on a restartable sequence returns the map
    whose keys are the keys of the elements in the order in which they
    first occur, one for each kind of key (the same value, SameValueZero, as
    a [Map] has it), each with the array of the elements that have this
    key, in the order of the sequence. *)
Theorem groupBy_groups_in_order_of_first_occurrence :
  forall (this : Source) (keySelector : JsValue -> JsValue) (w : World)
         (fuel : nat),
    restartable this = true ->
    (length (elements this) < fuel)%nat ->
    IterableQueryBase.groupBy fuel this keySelector w =
      (Ret (groups_of keySelector (elements this)), w).
Proof.
  intros this keySelector w fuel Hr Hfuel.
  unfold IterableQueryBase.groupBy, mbind.
  rewrite for_of_spec by assumption.
  rewrite (fold_flow_fold_left
             (fun map e =>
                Map_push (keySelector e) e
                  match Map_get (keySelector e) map with
                  | None => Map_set (keySelector e) [] map
                  | Some _ => map
                  end)).
  change (@nil (JsValue * list JsValue)) with (groups_of keySelector []).
  rewrite (fold_left_snoc_spec _ (groups_of keySelector));
    [reflexivity|].
  intros l e. apply groups_of_snoc.
Qed.

Lemma groupBy_groups_in_order_of_first_occurrence_witness :
  let this :=
    Query_fromIterable (SArray [VNum 1; VNaN; VNum 2; VNum 3; VNaN]) in
  let parity :=
    fun e => match e with VNum n => VNum (n mod 2) | _ => e end in
  let w : World := ∅ in
  restartable this = true /\
  (length (elements this) < 6)%nat /\
  IterableQueryBase.groupBy 6 this parity w =
    (Ret [(VNum 1, [VNum 1; VNum 3]); (VNaN, [VNaN; VNaN]); (VNum 0, [VNum 2])],
     w).
Proof.
  intros this parity w. split; [reflexivity|]. split; [simpl; lia|].
  apply (groupBy_groups_in_order_of_first_occurrence this parity w 6);
    [reflexivity|simpl; lia].
Defined.

(** The example of the specification: [1, 2, 3, 4] by parity. *)
Example groupBy_parity :
  (IterableQueryBase.groupBy 5
     (Query_fromIterable (SArray [VNum 1; VNum 2; VNum 3; VNum 4]))
     (fun e => VStr (if Z.even (number_of e) then "even" else "odd")) ∅).1
  = Ret [(VStr "odd", [VNum 1; VNum 3]); (VStr "even", [VNum 2; VNum 4])].
Proof. reflexivity. Qed.

(** X21.  [toMap(keySelector)] on a restartable sequence returns the map
    whose keys are the keys of the elements in the order in which they
    first occur, one for each kind of key (the same value, SameValueZero, as
    a [Map] has it), each with the last element that has this key: a later
    element replaces an earlier one with the same key, in the place of the
    earlier one. *)
Theorem toMap_keeps_the_last_of_each_key :
  forall (this : Source) (keySelector : JsValue -> JsValue) (w : World)
         (fuel : nat),
    restartable this = true ->
    (length (elements this) < fuel)%nat ->
    IterableQueryBase.toMap fuel this keySelector w =
      (Ret (entries_of keySelector (elements this)), w).
Proof.
  intros this keySelector w fuel Hr Hfuel.
  unfold IterableQueryBase.toMap, mbind.
  rewrite for_of_spec by assumption.
  rewrite (fold_flow_fold_left
             (fun map e => Map_set (keySelector e) e map)).
  change (@nil (JsValue * JsValue)) with (entries_of keySelector []).
  rewrite (fold_left_snoc_spec _ (entries_of keySelector));
    [reflexivity|].
  intros l e. apply entries_of_snoc.
Qed.

Lemma toMap_keeps_the_last_of_each_key_witness :
  let this := Query_fromIterable (SArray [VNum 1; VNum 3; VNum 2]) in
  let parity := fun e => VNum (number_of e mod 2) in
  let w : World := ∅ in
  restartable this = true /\
  (length (elements this) < 4)%nat /\
  IterableQueryBase.toMap 4 this parity w =
    (Ret [(VNum 1, VNum 3); (VNum 0, VNum 2)], w).
Proof.
  intros this parity w. split; [reflexivity|]. split; [simpl; lia|].
  apply (toMap_keeps_the_last_of_each_key this parity w 4);
    [reflexivity|simpl; lia].
Defined.

(** ** The stages, through the facade *)



(** X23.  On a restartable sequence [append(v)] yields the elements
    followed by [v] and [prepend(v)] yields [v] followed by the elements, so
    either has one element more; prepending [v] and appending [u] give the
    same sequence in either order. *)
Theorem append_and_prepend_add_at_the_ends :
  forall (this : Source) (v u : JsValue) (w : World) (fuel : nat),
    restartable this = true ->
    (S (S (length (elements this))) < fuel)%nat ->
    Z.of_nat (S (length (elements this))) <= MAX_SAFE_INTEGER ->
    exists array appended prepended both both',
      IterableQueryBase.toArray fuel this w = (Ret array, w) /\
      IterableQueryBase.append this u = Ret (New appended) /\
      IterableQueryBase.prepend this v = Ret (New prepended) /\
      IterableQueryBase.prepend appended v = Ret (New both) /\
      IterableQueryBase.append prepended u = Ret (New both') /\
      IterableQueryBase.toArray fuel appended w = (Ret (array ++ [u]), w) /\
      IterableQueryBase.toArray fuel prepended w = (Ret (v :: array), w) /\
      IterableQueryBase.toArray fuel both w = (Ret (v :: array ++ [u]), w) /\
      IterableQueryBase.toArray fuel both' w = (Ret (v :: array ++ [u]), w) /\
      IterableQueryBase.count fuel appended None w =
        (Ret (Z.of_nat (length array) + 1), w) /\
      IterableQueryBase.count fuel prepended None w =
        (Ret (Z.of_nat (length array) + 1), w).
Proof.
  intros this v u w fuel Hr Hfuel Hmax.
  pose proof (restartable_well_built this Hr) as Hw.
  set (appended := SIterableQuery (SAppendPrepend this u true)).
  set (prepended := SIterableQuery (SAppendPrepend this v false)).
  assert (Hra : restartable appended = true) by exact Hr.
  assert (Hrp : restartable prepended = true) by exact Hr.
  exists (elements this), appended, prepended,
         (SIterableQuery (SAppendPrepend appended v false)),
         (SIterableQuery (SAppendPrepend prepended u true)).
  assert (Hla : length (elements appended) = S (length (elements this))).
  { simpl. unfold with_item. rewrite length_app. simpl. lia. }
  assert (Hlp : length (elements prepended) = S (length (elements this)))
    by reflexivity.
  split; [apply toArray_spec; [assumption|lia]|].
  split; [apply (append_prepend_spec this u Hw)|].
  split; [apply (append_prepend_spec this v Hw)|].
  split; [apply (append_prepend_spec appended v
                   (restartable_well_built _ Hra))|].
  split; [apply (append_prepend_spec prepended u
                   (restartable_well_built _ Hrp))|].
  split; [rewrite toArray_spec; [reflexivity|assumption|lia]|].
  split; [rewrite toArray_spec; [reflexivity|assumption|lia]|].
  split; [rewrite toArray_spec; [reflexivity|exact Hra|simpl in *; lia]|].
  split; [rewrite toArray_spec; [reflexivity|exact Hrp|]|].
  { simpl. unfold with_item. simpl. rewrite length_app. simpl. lia. }
  split.
  - rewrite count_spec; [rewrite Hla; do 2 f_equal; lia|assumption|lia|lia].
  - rewrite count_spec; [rewrite Hlp; do 2 f_equal; lia|assumption|lia|lia].
Qed.

Lemma append_and_prepend_add_at_the_ends_witness :
  let this := Query_fromIterable (SArray [VNum 1; VNum 2]) in
  let w : World := ∅ in
  restartable this = true /\
  (S (S (length (elements this))) < 5)%nat /\
  Z.of_nat (S (length (elements this))) <= MAX_SAFE_INTEGER /\
  exists array appended prepended both both',
    IterableQueryBase.toArray 5 this w = (Ret array, w) /\
    IterableQueryBase.append this (VNum 9) = Ret (New appended) /\
    IterableQueryBase.prepend this (VNum 0) = Ret (New prepended) /\
    IterableQueryBase.prepend appended (VNum 0) = Ret (New both) /\
    IterableQueryBase.append prepended (VNum 9) = Ret (New both') /\
    IterableQueryBase.toArray 5 appended w = (Ret (array ++ [VNum 9]), w) /\
    IterableQueryBase.toArray 5 prepended w = (Ret (VNum 0 :: array), w) /\
    IterableQueryBase.toArray 5 both w = (Ret (VNum 0 :: array ++ [VNum 9]), w) /\
    IterableQueryBase.toArray 5 both' w = (Ret (VNum 0 :: array ++ [VNum 9]), w) /\
    IterableQueryBase.count 5 appended None w =
      (Ret (Z.of_nat (length array) + 1), w) /\
    IterableQueryBase.count 5 prepended None w =
      (Ret (Z.of_nat (length array) + 1), w).
Proof.
  intros this w.
  assert (Hmax : Z.of_nat (S (length (elements this))) <= MAX_SAFE_INTEGER)
    by (vm_compute; discriminate).
  split; [reflexivity|]. split; [simpl; lia|]. split; [exact Hmax|].
  apply (append_and_prepend_add_at_the_ends this (VNum 0) (VNum 9) w 5);
    [reflexivity|simpl; lia|exact Hmax].
Defined.

(** ** The recurrence generator *)

Lemma generated_length (generator : Z -> JsValue -> JsValue) (n : nat) :
  forall index prev, length (generated generator n index prev) = n.
Proof.
  induction n as [|n IH]; intros index prev; simpl; [reflexivity|].
  rewrite IH. reflexivity.
Qed.

Lemma generated_next (generator : Z -> JsValue -> JsValue) (n : nat) :
  forall index prev i,
    (S i < n)%nat ->
    exists x,
      generated generator n index prev !! i = Some x /\
      generated generator n index prev !! S i =
        Some (generator (index + Z.of_nat (S i)) x).
Proof.
  induction n as [|n IH]; intros index prev i Hi; [lia|].
  destruct i as [|i].
  - destruct n as [|n]; [lia|]. simpl. eexists. split; [reflexivity|].
    reflexivity.
  - destruct (IH (index + 1) (generator index prev) i) as (x & Hx & Hnext);
      [lia|].
    exists x. simpl. split; [exact Hx|]. rewrite Hnext. do 2 f_equal. lia.
Qed.



(** ** The cursor protocol *)

(** X25.  A cursor over a restartable sequence yields the elements one by
    one and then answers [done], with no value, to every further call: once
    it is exhausted it stays exhausted. *)
Theorem a_cursor_stays_exhausted :
  forall (s : Source) (o : Cursor) (w : World) (k j : nat),
    restartable s = true ->
    sym_iterator s = Ret o ->
    result_at k o w = head_result (skipn k (elements s)) /\
    (done (result_at k o w) = true <-> (length (elements s) <= k)%nat) /\
    (done (result_at k o w) = true -> result_at (k + j) o w = iteratorDone).
Proof.
  intros s o w k j Hr Ho.
  destruct (sym_iterator_spec s Hr) as (o0 & Ho0 & Hs & Hrem).
  rewrite Ho in Ho0. injection Ho0 as <-.
  assert (Hat : forall n, result_at n o w = head_result (skipn n (elements s))).
  { intros n. unfold result_at.
    destruct (advance_steady n o w Hs) as (o' & Hadv & Hs' & Hrem').
    rewrite Hadv. destruct (next_spec o' w Hs') as (o'' & Hnext & _).
    rewrite Hnext, Hrem', Hrem. reflexivity. }
  assert (Hdone : forall n,
             done (head_result (skipn n (elements s))) = true <->
             (length (elements s) <= n)%nat).
  { intros n. split.
    - intros Hd. destruct (skipn n (elements s)) as [|x rest] eqn:Hsk;
        [|discriminate].
      destruct (Nat.le_gt_cases (length (elements s)) n) as [Hle|Hgt];
        [exact Hle|].
      assert (Hlen : length (skipn n (elements s)) = O) by (rewrite Hsk; reflexivity).
      rewrite length_skipn in Hlen. lia.
    - intros Hle. rewrite skipn_all2 by exact Hle. reflexivity. }
  split; [apply Hat|]. split.
  - rewrite Hat. apply Hdone.
  - rewrite !Hat. intros Hd. apply Hdone in Hd.
    rewrite skipn_all2 by lia. reflexivity.
Qed.

Lemma a_cursor_stays_exhausted_witness :
  let s := SIterableQuery (STake (Query_from [VNum 1; VNum 2; VNum 3]) 5) in
  let o :=
    TakeIterable (Query_from [VNum 1; VNum 2; VNum 3])
      (Host (ArrayIterator [VNum 1; VNum 2; VNum 3] 0)) 5 0 in
  let w : World := ∅ in
  restartable s = true /\
  sym_iterator s = Ret o /\
  done (result_at 3 o w) = true /\
  result_at 1 o w = iteratorResult (VNum 2) /\
  result_at (3 + 4) o w = iteratorDone.
Proof.
  intros s o w. split; [reflexivity|]. split; [reflexivity|].
  split; [reflexivity|].
  destruct (a_cursor_stays_exhausted s o w 1 0) as (H1 & _);
    [reflexivity|reflexivity|].
  destruct (a_cursor_stays_exhausted s o w 3 4) as (_ & _ & H3);
    [reflexivity|reflexivity|].
  split; [exact H1|]. apply H3. reflexivity.
Defined.

(** ** Sorting with a comparator *)

Lemma sort_insert_perm (comparefn : option (JsValue -> JsValue -> Z))
    (x : JsValue) (l : list JsValue) :
  sort_insert comparefn x l ≡ₚ x :: l.
Proof.
  induction l as [|y l IH]; simpl; [reflexivity|].
  destruct (SortCompare comparefn y x >? 0); [reflexivity|].
  rewrite IH. apply perm_swap.
Qed.

Lemma Array_sort_from_perm (comparefn : option (JsValue -> JsValue -> Z))
    (array sorted : list JsValue) :
  Array_sort_from comparefn sorted array ≡ₚ sorted ++ array.
Proof.
  revert sorted. induction array as [|x array IH]; intros sorted; simpl.
  - rewrite app_nil_r. reflexivity.
  - rewrite IH, sort_insert_perm. simpl. apply Permutation_middle.
Qed.

Lemma sort_insert_Forall (comparefn : option (JsValue -> JsValue -> Z))
    (P : JsValue -> Prop) (x : JsValue) (l : list JsValue) :
  P x -> Forall P l -> Forall P (sort_insert comparefn x l).
Proof.
  intros Hx Hl. induction Hl as [|y l Hy Hl IH]; simpl.
  - constructor; [exact Hx|constructor].
  - destruct (SortCompare comparefn y x >? 0).
    + constructor; [exact Hx|]. constructor; assumption.
    + constructor; assumption.
Qed.

Section Sorting.
Variable comparefn : option (JsValue -> JsValue -> Z).

Hypothesis Hanti :
  forall y x, (SortCompare comparefn y x >? 0) = true -> not_after comparefn x y.
Hypothesis Htrans :
  forall x y z, not_after comparefn x y -> not_after comparefn y z -> not_after comparefn x z.

Lemma sort_insert_sorted (x : JsValue) (l : list JsValue) :
  StronglySorted (not_after comparefn) l ->
  StronglySorted (not_after comparefn) (sort_insert comparefn x l).
Proof.
  intros Hl. induction Hl as [|y l Hl IH Hy]; simpl.
  - constructor; constructor.
  - destruct (SortCompare comparefn y x >? 0) eqn:Hc.
    + constructor; [constructor; assumption|].
      constructor; [apply Hanti; exact Hc|].
      eapply Forall_impl; [exact Hy|].
      intros z Hz. apply (Htrans x y z); [apply Hanti; exact Hc|exact Hz].
    + constructor; [exact IH|].
      apply sort_insert_Forall; [exact Hc|exact Hy].
Qed.

Lemma Array_sort_from_sorted (array sorted : list JsValue) :
  StronglySorted (not_after comparefn) sorted ->
  StronglySorted (not_after comparefn) (Array_sort_from comparefn sorted array).
Proof.
  revert sorted. induction array as [|x array IH]; intros sorted Hs; simpl.
  - exact Hs.
  - apply IH, sort_insert_sorted, Hs.
Qed.

End Sorting.

Lemma StronglySorted_lookup (R : JsValue -> JsValue -> Prop)
    (l : list JsValue) :
  StronglySorted R l ->
  forall (i j : nat) (x y : JsValue),
    (i < j)%nat -> l !! i = Some x -> l !! j = Some y -> R x y.
Proof.
  intros Hl. induction Hl as [|a l Hl IH Ha]; intros i j x y Hij Hi Hj.
  - discriminate.
  - destruct j as [|j]; [lia|]. destruct i as [|i].
    + simpl in Hi, Hj. injection Hi as <-.
      rewrite Forall_forall in Ha. apply Ha.
      eapply list_elem_of_lookup_2. exact Hj.
    + simpl in Hi, Hj. apply (IH i j); [lia|assumption|assumption].
Qed.

(** [SortCompare] over a comparator: [undefined] last, the comparator
    otherwise. *)
Lemma SortCompare_after (c : Compare) (x y : JsValue) :
  (SortCompare (Some (fun x y => Ordering_value (c x y))) x y >? 0) = false <->
  (x = VUndefined -> y = VUndefined) /\
  (x <> VUndefined -> y <> VUndefined -> c x y <> Greater).
Proof.
  assert (Hv : (Ordering_value (c x y) >? 0) = false <-> c x y <> Greater).
  { destruct (c x y); split; intros H;
      first [reflexivity|congruence|exfalso; vm_compute in H; congruence]. }
  destruct x, y; cbn [SortCompare]; rewrite ?Hv;
    (split; [intros H; split; intros;
             first [congruence|exfalso; vm_compute in H; congruence]
            |intros [H1 H2]; first [reflexivity|apply H2; congruence
                                    |discriminate (H1 eq_refl)]]).
Qed.

(** A consistent comparison function is never [Greater] both ways round,
    and its "not [Greater]" is transitive. *)
Lemma consistent_flip (c : Compare) (x y : JsValue) :
  consistent c -> c x y = Greater -> c y x = Less.
Proof.
  intros (Hrefl & Hsym & Htrans) Hxy.
  destruct (c y x) eqn:Hyx; [reflexivity| |].
  - apply Hsym in Hyx. congruence.
  - pose proof (Htrans x y x Greater Hxy Hyx) as Hxx.
    rewrite Hrefl in Hxx. discriminate.
Qed.

Lemma consistent_orders (c : Compare) :
  consistent c ->
  (forall x y, c x y = Greater -> c y x <> Greater) /\
  (forall x y z, c x y <> Greater -> c y z <> Greater -> c x z <> Greater).
Proof.
  intros Hc. pose proof Hc as (Hrefl & Hsym & Htrans). split.
  - intros x y Hxy. rewrite (consistent_flip c x y Hc Hxy). discriminate.
  - intros x y z Hxy Hyz Hxz.
    pose proof (consistent_flip c x z Hc Hxz) as Hzx.
    destruct (c x y) eqn:Exy; [| |congruence];
      destruct (c y z) eqn:Eyz; try congruence.
    + pose proof (Htrans x y z Less Exy Eyz). congruence.
    + pose proof (Htrans z x y Less Hzx Exy) as Hzy.
      apply Hsym in Eyz. congruence.
    + pose proof (Htrans y z x Less Eyz Hzx) as Hyx.
      apply Hsym in Exy. congruence.
    + pose proof (Htrans x y z Equal Exy Eyz). congruence.
Qed.

Lemma Array_sort_ordered (c : Compare) (array : list JsValue) :
  consistent c ->
  let sorted := Array_sort (Some (fun x y => Ordering_value (c x y))) array in
  sorted ≡ₚ array /\ ordered_by c sorted.
Proof.
  intros Hcons sorted.
  destruct (consistent_orders c Hcons) as [Hanti Htrans]. clear Hcons. split.
  - apply (Array_sort_from_perm _ array []).
  - assert (Hs : StronglySorted
                   (not_after (Some (fun x y => Ordering_value (c x y))))
                   sorted).
    { apply Array_sort_from_sorted; [| |constructor].
      - intros y x Hyx. unfold not_after. apply SortCompare_after.
        assert (Hn : ~ ((SortCompare (Some (fun x y => Ordering_value (c x y)))
                           y x >? 0) = false))
          by (rewrite Hyx; discriminate).
        rewrite SortCompare_after in Hn.
        split.
        + intros ->. destruct y; try reflexivity;
            exfalso; apply Hn; split; intros; congruence.
        + intros Hx Hy. apply Hanti.
          destruct (c y x) eqn:Hc; try reflexivity;
            exfalso; apply Hn; split; intros; congruence.
      - unfold not_after. intros x y z Hxy Hyz.
        rewrite SortCompare_after in *.
        destruct Hxy as [Hxy1 Hxy2], Hyz as [Hyz1 Hyz2]. split.
        + intros Hx. apply Hyz1, Hxy1, Hx.
        + intros Hx Hz.
          assert (Hy : y <> VUndefined) by (intros Hy; apply Hz, Hyz1, Hy).
          apply (Htrans x y z); [apply Hxy2|apply Hyz2]; assumption. }
    intros i j x y Hij Hi Hj.
    pose proof (StronglySorted_lookup _ _ Hs i j x y Hij Hi Hj) as Hxy.
    unfold not_after in Hxy. rewrite SortCompare_after in Hxy.
    destruct Hxy as [H1 H2]. split; [exact H1|].
    intros Hy. apply H2; [|exact Hy]. intros Hx. apply Hy, H1, Hx.
Qed.

(** X30.  With a consistent comparison function (as ECMAScript asks of the
    argument of [sort]: [Equal] reflexive and symmetric, each outcome
    transitive), [sort(compare)] returns the elements of the sequence, each
    as often as it occurs, arranged so that no element compares [Greater]
    to a later one; [sortDecending(compare)] arranges them the other way
    round, [sortBy] and [sortByDecending] do the same on the keys;
    [undefined] elements always come last. *)
Theorem sort_orders_by_the_comparator :
  forall (this : Source) (compare : Compare) (keySelector : JsValue -> JsValue)
         (w : World) (fuel : nat),
    restartable this = true ->
    (length (elements this) < fuel)%nat ->
    consistent compare ->
    exists array up down upBy downBy,
      IterableQueryBase.toArray fuel this w = (Ret array, w) /\
      IterableQueryBase.sort fuel this (Some compare) w =
        (Ret (New (SIterableArrayQuery up)), w) /\
      IterableQueryBase.sortDecending fuel this (Some compare) w =
        (Ret (New (SIterableArrayQuery down)), w) /\
      IterableQueryBase.sortBy fuel this keySelector (Some compare) w =
        (Ret (New (SIterableArrayQuery upBy)), w) /\
      IterableQueryBase.sortByDecending fuel this keySelector (Some compare) w =
        (Ret (New (SIterableArrayQuery downBy)), w) /\
      up ≡ₚ array /\ down ≡ₚ array /\ upBy ≡ₚ array /\ downBy ≡ₚ array /\
      ordered_by compare up /\
      ordered_by (fun x y => compare y x) down /\
      ordered_by (fun x y => compare (keySelector x) (keySelector y)) upBy /\
      ordered_by (fun x y => compare (keySelector y) (keySelector x)) downBy.
Proof.
  intros this compare keySelector w fuel Hr Hfuel Hup.
  pose proof Hup as (Hrefl & Hsym & Htrans).
  assert (Hdown : consistent (fun x y => compare y x)).
  { split; [intros x; apply Hrefl|]. split.
    - intros x y Hc. apply Hsym, Hc.
    - intros x y z o Hxy Hyz. exact (Htrans z y x o Hyz Hxy). }
  assert (HupBy : consistent
                    (fun x y => compare (keySelector x) (keySelector y))).
  { split; [intros x; apply Hrefl|]. split.
    - intros x y Hc. apply Hsym, Hc.
    - intros x y z o Hxy Hyz.
      exact (Htrans (keySelector x) (keySelector y) (keySelector z) o Hxy Hyz). }
  assert (HdownBy : consistent
                      (fun x y => compare (keySelector y) (keySelector x))).
  { split; [intros x; apply Hrefl|]. split.
    - intros x y Hc. apply Hsym, Hc.
    - intros x y z o Hxy Hyz.
      exact (Htrans (keySelector z) (keySelector y) (keySelector x) o Hyz Hxy). }
  destruct (Array_sort_ordered _ (elements this) Hup) as [Hp1 Ho1].
  destruct (Array_sort_ordered _ (elements this) Hdown) as [Hp2 Ho2].
  destruct (Array_sort_ordered _ (elements this) HupBy) as [Hp3 Ho3].
  destruct (Array_sort_ordered _ (elements this) HdownBy) as [Hp4 Ho4].
  eexists (elements this), _, _, _, _.
  split; [apply toArray_spec; assumption|].
  split; [unfold IterableQueryBase.sort, mbind;
          rewrite toArray_spec by assumption; reflexivity|].
  split; [unfold IterableQueryBase.sortDecending, mbind;
          rewrite toArray_spec by assumption; reflexivity|].
  split; [unfold IterableQueryBase.sortBy, mbind;
          rewrite toArray_spec by assumption; reflexivity|].
  split; [unfold IterableQueryBase.sortByDecending, mbind;
          rewrite toArray_spec by assumption; reflexivity|].
  split; [exact Hp1|]. split; [exact Hp2|]. split; [exact Hp3|].
  split; [exact Hp4|]. split; [exact Ho1|]. split; [exact Ho2|].
  split; [exact Ho3|exact Ho4].
Qed.

Lemma byNumber_consistent : consistent byNumber.
Proof.
  split; [exact byNumber_refl|]. split; [|exact byNumber_trans].
  unfold byNumber. intros x y.
  destruct (Z.compare_spec (number_of x) (number_of y)),
    (Z.compare_spec (number_of y) (number_of x)); simpl;
    first [discriminate|reflexivity|lia].
Qed.

Lemma sort_orders_by_the_comparator_witness :
  let this :=
    Query_fromIterable (SArray [VNum 10; VUndefined; VNum 9; VNum 1]) in
  let w : World := ∅ in
  restartable this = true /\
  (length (elements this) < 5)%nat /\
  consistent byNumber /\
  exists down,
    IterableQueryBase.sort 5 this (Some byNumber) w =
      (Ret (New (SIterableArrayQuery [VNum 1; VNum 9; VNum 10; VUndefined])), w) /\
    IterableQueryBase.sortDecending 5 this (Some byNumber) w =
      (Ret (New (SIterableArrayQuery down)), w) /\
    down ≡ₚ elements this /\
    ordered_by (fun x y => byNumber y x) down.
Proof.
  intros this w.
  split; [reflexivity|]. split; [simpl; lia|].
  split; [exact byNumber_consistent|].
  destruct (sort_orders_by_the_comparator this byNumber (fun x => x) w 5)
    as (array & up & down & upBy & downBy & Ha & Hup & Hdown & _ & _ & _ &
        Hp & _ & _ & _ & Ho & _);
    [reflexivity|simpl; lia|exact byNumber_consistent|].
  exists down. split; [reflexivity|]. split; [exact Hdown|].
  injection Ha as <-. split; [exact Hp|exact Ho].
Defined.

(** ** One-shot sources *)

(** A loop that runs to the end of a one-shot iterator takes all it has
    left and asks it once more. *)
Lemma for_of_loop_one_shot {A} (id : nat) (body : A -> JsValue -> Flow A Empty_set) :
  forall (l : list JsValue) (calls : nat) (w : World) (acc : A) (fuel : nat),
    w !! id = Some (mkHost l calls) ->
    (length l < fuel)%nat ->
    for_of_loop fuel (Host (OneShot id)) body acc w =
    (Ret (fold_flow body acc l),
     <[id := mkHost [] (calls + S (length l))]> w).
Proof.
  induction l as [|v rest IH]; intros calls w acc fuel Hw Hfuel;
    (destruct fuel as [|fuel]; [simpl in Hfuel; lia|]);
    cbn [for_of_loop next host_next]; rewrite Hw; cbn [items nextCalls].
  - cbn [done iteratorDone fold_flow length]. do 3 f_equal. lia.
  - cbn [done value iteratorResult fold_flow].
    destruct (body acc v) as [acc'|[]].
    rewrite (IH (S calls) (<[id := mkHost rest (S calls)]> w) acc' fuel);
      [|apply lookup_insert_eq|simpl in Hfuel; lia].
    rewrite insert_insert_eq. simpl. do 3 f_equal. lia.
Qed.

(** The loop over [take(count)] of a one-shot iterator stops asking once
    it has [count] elements. *)
Lemma for_of_loop_take_one_shot {A} (id : nat) (source : Source) (count : Z)
    (body : A -> JsValue -> Flow A Empty_set) :
  forall (l : list JsValue) (calls : nat) (w : World) (index : Z) (acc : A)
         (fuel : nat),
    w !! id = Some (mkHost l calls) ->
    (length l < fuel)%nat ->
    0 <= index <= count ->
    let k := Z.to_nat (count - index) in
    for_of_loop fuel (TakeIterable source (Host (OneShot id)) count index)
      body acc w =
    (Ret (fold_flow body acc (firstn k l)),
     <[id := mkHost (skipn k l) (calls + Nat.min k (S (length l)))]> w).
Proof.
  induction l as [|v rest IH]; intros calls w index acc fuel Hw Hfuel Hindex k;
    (destruct fuel as [|fuel]; [simpl in Hfuel; lia|]);
    cbn [for_of_loop next];
    (destruct (Z.eqb_spec index count) as [->|Hne];
     [replace k with O by lia; cbn [done iteratorDone firstn skipn fold_flow];
      rewrite Nat.add_0_r, insert_id by exact Hw; reflexivity|]);
    (destruct k as [|k'] eqn:Hk; [lia|]);
    cbn [host_next]; rewrite Hw; cbn [items nextCalls].
  - cbn [done iteratorDone firstn skipn fold_flow length].
    do 3 f_equal. lia.
  - cbn [done value iteratorResult firstn skipn fold_flow].
    destruct (body acc v) as [acc'|[]].
    rewrite (IH (S calls) (<[id := mkHost rest (S calls)]> w) (index + 1) acc'
               fuel);
      [|apply lookup_insert_eq|simpl in Hfuel; lia|lia].
    rewrite insert_insert_eq.
    replace (Z.to_nat (count - (index + 1))) with k' by lia.
    simpl. do 3 f_equal. lia.
Qed.



(** ** [fold] *)

(** X27.  On a restartable sequence [fold(seed, combine)] is the left fold
    of [combine] over the elements; over [append(v)] it is [combine] of the
    fold and [v], over [prepend(v)] it is the fold seeded with
    [combine(seed, v)]. *)
Theorem fold_is_the_left_fold :
  forall {TResult} (this : Source) (seed : TResult)
         (combine : TResult -> JsValue -> TResult) (v : JsValue) (w : World)
         (fuel : nat),
    restartable this = true ->
    (S (length (elements this)) < fuel)%nat ->
    exists array appended prepended,
      IterableQueryBase.toArray fuel this w = (Ret array, w) /\
      IterableQueryBase.append this v = Ret (New appended) /\
      IterableQueryBase.prepend this v = Ret (New prepended) /\
      IterableQueryBase.fold fuel this seed combine w =
        (Ret (fold_left combine array seed), w) /\
      IterableQueryBase.fold fuel appended seed combine w =
        (Ret (combine (fold_left combine array seed) v), w) /\
      IterableQueryBase.fold fuel prepended seed combine w =
        (Ret (fold_left combine array (combine seed v)), w).
Proof.
  intros TResult this seed combine v w fuel Hr Hfuel.
  pose proof (restartable_well_built this Hr) as Hw.
  exists (elements this), (SIterableQuery (SAppendPrepend this v true)),
         (SIterableQuery (SAppendPrepend this v false)).
  split; [apply toArray_spec; [assumption|lia]|].
  split; [apply (append_prepend_spec this v Hw)|].
  split; [apply (append_prepend_spec this v Hw)|].
  split; [apply fold_spec; [assumption|lia]|]. split.
  - rewrite fold_spec; [|exact Hr|].
    + simpl. unfold with_item. rewrite fold_left_app. reflexivity.
    + simpl. unfold with_item. rewrite length_app. simpl. lia.
  - rewrite fold_spec; [reflexivity|exact Hr|simpl; lia].
Qed.

Lemma fold_is_the_left_fold_witness :
  let this := Query_fromIterable (SArray [VNum 1; VNum 2]) in
  let combine := fun (acc : Z) (e : JsValue) => 10 * acc + number_of e in
  let w : World := ∅ in
  restartable this = true /\
  (S (length (elements this)) < 4)%nat /\
  exists appended prepended,
    IterableQueryBase.append this (VNum 3) = Ret (New appended) /\
    IterableQueryBase.prepend this (VNum 3) = Ret (New prepended) /\
    IterableQueryBase.fold 4 this 0 combine w = (Ret 12, w) /\
    IterableQueryBase.fold 4 appended 0 combine w = (Ret 123, w) /\
    IterableQueryBase.fold 4 prepended 0 combine w = (Ret 312, w).
Proof.
  intros this combine w.
  split; [reflexivity|]. split; [simpl; lia|].
  destruct (fold_is_the_left_fold this 0 combine (VNum 3) w 4)
    as (array & appended & prepended & Ha & Hap & Hpre & H1 & H2 & H3);
    [reflexivity|simpl; lia|].
  injection Ha as <-.
  exists appended, prepended.
  split; [exact Hap|]. split; [exact Hpre|]. split; [exact H1|].
  split; [exact H2|exact H3].
Defined.

(** X28.  Over a one-shot iterator (one without [return()]) that has
    [first] and then [rest] left, [fold(seed, combine)] folds [rest] only:
    the [isEmpty()] guard has taken [first] from the iterator before the
    loop starts.  The iterator ends up exhausted. *)
Theorem fold_skips_the_first_of_a_one_shot_source :
  forall {TResult} (id calls : nat) (first : JsValue) (rest : list JsValue)
         (seed : TResult) (combine : TResult -> JsValue -> TResult)
         (w : World) (fuel : nat),
    w !! id = Some (mkHost (first :: rest) calls) ->
    (length rest < fuel)%nat ->
    IterableQueryBase.fold (S fuel) (Query_fromIterable (SHost (OneShot id)))
      seed combine w =
    (Ret (fold_left combine rest seed),
     <[id := mkHost [] (calls + S (S (length rest)))]> w).
Proof.
  intros TResult id calls first rest seed combine w fuel Hw Hfuel.
  assert (Hempty :
            IterableQueryBase.isEmpty (S fuel)
              (Query_fromIterable (SHost (OneShot id))) w =
            (Ret false, <[id := mkHost rest (S calls)]> w)).
  { unfold IterableQueryBase.isEmpty, for_of, mbind, lift, mret.
    cbn [sym_iterator Query_fromIterable for_of_loop next host_next].
    rewrite Hw. reflexivity. }
  unfold IterableQueryBase.fold, mbind. rewrite Hempty.
  unfold for_of, mbind, lift, mret. cbn [sym_iterator Query_fromIterable].
  rewrite (for_of_loop_one_shot id _ rest (S calls)
             (<[id := mkHost rest (S calls)]> w) seed (S fuel));
    [|apply lookup_insert_eq|lia].
  rewrite insert_insert_eq, fold_flow_fold_left. simpl. do 3 f_equal. lia.
Qed.

Lemma fold_skips_the_first_of_a_one_shot_source_witness :
  let w : World := {[ 7%nat := mkHost [VNum 1; VNum 2; VNum 3] 0 ]} in
  let combine := fun (acc : Z) (e : JsValue) => acc + number_of e in
  w !! 7%nat = Some (mkHost [VNum 1; VNum 2; VNum 3] 0) /\
  (length [VNum 2; VNum 3] < 3)%nat /\
  IterableQueryBase.fold 4 (Query_fromIterable (SHost (OneShot 7))) 0 combine w =
    (Ret 5, <[7%nat := mkHost [] 4]> w).
Proof.
  intros w combine.
  split; [reflexivity|]. split; [simpl; lia|].
  apply (fold_skips_the_first_of_a_one_shot_source
           7 0 (VNum 1) [VNum 2; VNum 3] 0 combine w 3);
    [reflexivity|simpl; lia].
Defined.

(** ** [defaultIfEmpty] *)

(** X29.  On restartable sequences the object [defaultIfEmpty(values)]
    returns yields the elements of [values] when the receiver is empty and
    those of the receiver otherwise. *)
Theorem defaultIfEmpty_yields_the_default_only_when_empty :
  forall (this defaultValue : Source) (w : World) (fuel : nat),
    restartable this = true ->
    restartable defaultValue = true ->
    (length (elements this) < fuel)%nat ->
    (length (elements defaultValue) < fuel)%nat ->
    exists array fallback returned,
      IterableQueryBase.toArray fuel this w = (Ret array, w) /\
      IterableQueryBase.toArray fuel defaultValue w = (Ret fallback, w) /\
      IterableQueryBase.defaultIfEmpty fuel this defaultValue w =
        (Ret returned, w) /\
      IterableQueryBase.toArray fuel (resolve this returned) w =
        (Ret (match array with [] => fallback | _ :: _ => array end), w).
Proof.
  intros this defaultValue w fuel Hr Hrd Hfuel Hfueld.
  unfold IterableQueryBase.defaultIfEmpty, mbind.
  rewrite isEmpty_spec by assumption.
  exists (elements this), (elements defaultValue).
  destruct (elements this) as [|e l] eqn:Hel.
  - destruct defaultValue as [array| | | | | | | |]; cbn [IterableQueryBase.isArray];
      eexists;
      (split; [rewrite <- Hel; apply toArray_spec; [assumption|rewrite Hel; assumption]|]);
      (split; [apply toArray_spec; assumption|]);
      (split; [reflexivity|]);
      cbn [resolve]; (rewrite toArray_spec; [reflexivity|exact Hrd|exact Hfueld]).
  - exists This.
    split; [rewrite <- Hel; apply toArray_spec; [assumption|rewrite Hel; assumption]|].
    split; [apply toArray_spec; assumption|].
    split; [reflexivity|].
    cbn [resolve]. rewrite <- Hel. apply toArray_spec; [assumption|].
    rewrite Hel. assumption.
Qed.

Lemma defaultIfEmpty_yields_the_default_only_when_empty_witness :
  let this := Query_fromIterable (SArray []) in
  let defaultValue := SArray [VNum 7; VNum 8] in
  let w : World := ∅ in
  restartable this = true /\
  restartable defaultValue = true /\
  (length (elements this) < 3)%nat /\
  (length (elements defaultValue) < 3)%nat /\
  exists returned,
    IterableQueryBase.defaultIfEmpty 3 this defaultValue w = (Ret returned, w) /\
    IterableQueryBase.toArray 3 (resolve this returned) w =
      (Ret [VNum 7; VNum 8], w).
Proof.
  intros this defaultValue w.
  split; [reflexivity|]. split; [reflexivity|]. split; [simpl; lia|].
  split; [simpl; lia|].
  destruct (defaultIfEmpty_yields_the_default_only_when_empty
              this defaultValue w 3)
    as (array & fallback & returned & Ha & Hf & Hd & Hout);
    [reflexivity|reflexivity|simpl; lia|simpl; lia|].
  injection Ha as <-. injection Hf as <-.
  exists returned. split; [exact Hd|exact Hout].
Defined.
